(** * nodejs-pipeline: the todo client (frontend/public/script.js) and the
    edge server that serves it.

    The development embeds the two JavaScript sources as Rocq functions:

    - [JsString]: the three string primitives the client relies on
      ([toLowerCase], [trim], [includes]) on strings whose code units lie
      below 256 (Latin-1), which is the range Rocq's [ascii] covers and which
      both primitives map into itself;
    - [JsArray]: JavaScript arrays as objects in a store, so that the
      in-place [Array.prototype.sort] and [push] are visible;
    - [Client]: class [TodoApp], written over a small state-and-exception
      monad;
    - [Edge]: the express application, as the chain of its middlewares. *)

From stdpp Require Import base option list strings gmap.
From Stdlib Require Import ZArith Ascii String Permutation Sorted Lia.
From Stdlib Require DecimalString.

Local Open Scope string_scope.
Local Open Scope list_scope.
Local Open Scope Z_scope.

(* ===================================================================== *)
(** ** Strings *)
(* ===================================================================== *)

Module JsString.

(** Code unit of a character. *)
Definition code (c : ascii) : N := N_of_ascii c.

(** [WhiteSpace] and [LineTerminator] code points of ECMAScript that are
    below 256: TAB, LF, VT, FF, CR, SPACE and NO-BREAK SPACE.  These are
    what [String.prototype.trim] strips. *)
Definition is_space (c : ascii) : bool :=
  let n := code c in
  ((9 <=? n) && (n <=? 13) || (n =? 32) || (n =? 160))%N.

(** Simple lower-case mapping of one Latin-1 code unit: A-Z and the
    accented capitals U+00C0-U+00DE (without the multiplication sign
    U+00D7) move up by 32; everything else is its own lower case. *)
Definition lower_char (c : ascii) : ascii :=
  let n := code c in
  if ((65 <=? n) && (n <=? 90)
      || (192 <=? n) && (n <=? 222) && negb (n =? 215))%N
  then ascii_of_N (n + 32)
  else c.

(** [s.toLowerCase()] *)
Fixpoint toLowerCase (s : string) : string :=
  match s with
  | EmptyString => EmptyString
  | String c s' => String (lower_char c) (toLowerCase s')
  end.

(** [s.trimStart()] *)
Fixpoint trimStart (s : string) : string :=
  match s with
  | EmptyString => EmptyString
  | String c s' => if is_space c then trimStart s' else s
  end.

Definition is_empty (s : string) : bool :=
  match s with EmptyString => true | String _ _ => false end.

(** [s.trimEnd()] *)
Fixpoint trimEnd (s : string) : string :=
  match s with
  | EmptyString => EmptyString
  | String c s' =>
      let r := trimEnd s' in
      if is_space c && is_empty r then EmptyString else String c r
  end.

(** [s.trim()] *)
Definition trim (s : string) : string := trimEnd (trimStart s).

(** [s.startsWith(q)] *)
Fixpoint startsWith (s q : string) : bool :=
  match q, s with
  | EmptyString, _ => true
  | String _ _, EmptyString => false
  | String b q', String a s' => (Ascii.eqb a b) && startsWith s' q'
  end.

(** [s.includes(q)]: [q] occurs in [s] at some position. *)
Fixpoint includes (s q : string) : bool :=
  startsWith s q ||
  match s with
  | EmptyString => false
  | String _ s' => includes s' q
  end.

(** JavaScript truthiness of a string: only the empty string is falsy. *)
Definition truthy (s : string) : bool := negb (is_empty s).

(** Template-literal rendering of an integer ([`${n}`]), all digits
    written out, as JavaScript does below 1e21 in magnitude. *)
Definition of_Z (n : Z) : string :=
  DecimalString.NilZero.string_of_int (Z.to_int n).

End JsString.

(* ===================================================================== *)
(** ** Todo records and the arrays that hold them *)
(* ===================================================================== *)

(** What [new Date(x)] denotes once converted to a number: a time value
    (milliseconds since the epoch, an integer) or NaN for an invalid date. *)
Inductive Date :=
| TimeValue (ms : Z)
| InvalidDate.

(** A todo as the backend serialises it.  [created_at] is kept as the value
    [new Date(todo.created_at)] has, the only use the client makes of it
    besides display. *)
Record Todo := mkTodo {
  id : Z;
  text : string;
  priority : string;
  completed : bool;
  created_at : Date;
}.

(** A well-formed record carries a creation timestamp that parses. *)
Definition well_formed (t : Todo) : Prop :=
  exists ms, created_at t = TimeValue ms.

Module JsArray.

(** Arrays are objects: a variable holds a reference, the store holds the
    elements.  Two variables may hold the same reference. *)
Abbreviation ref := nat (only parsing).
Abbreviation store := (gmap nat (list Todo)) (only parsing).

Definition read (h : store) (r : ref) : list Todo := default [] (h !! r).

(** A new array object. *)
Definition alloc (h : store) (v : list Todo) : ref * store :=
  let r := fresh (dom h) in (r, <[r := v]> h).

(** [[...a]] *)
Definition spread (h : store) (a : ref) : ref * store := alloc h (read h a).

(** [a.filter(p)]: a new array, [a] untouched. *)
Definition filter (p : Todo -> bool) (h : store) (a : ref) : ref * store :=
  alloc h (List.filter p (read h a)).

(** [a.push(x)]: in place. *)
Definition push (x : Todo) (h : store) (a : ref) : store :=
  <[a := read h a ++ [x]]> h.

(** [a[i] = x] for an index inside the array: in place. *)
Definition set_index (i : nat) (x : Todo) (h : store) (a : ref) : store :=
  <[a := <[i := x]> (read h a)]> h.

(** [l.findIndex(p)]: the first index whose element satisfies [p], or -1. *)
Fixpoint findIndex (p : Todo -> bool) (l : list Todo) : Z :=
  match l with
  | [] => -1
  | x :: l' =>
      if p x then 0
      else let i := findIndex p l' in if i =? -1 then -1 else i + 1
  end.

(** [l.find(p)] *)
Fixpoint find (p : Todo -> bool) (l : list Todo) : option Todo :=
  match l with
  | [] => None
  | x :: l' => if p x then Some x else find p l'
  end.

(** *** [Array.prototype.sort]

    The comparator yields a Number; [None] stands for NaN.  ECMAScript's
    SortCompare reads NaN as +0.  The sort is stable; for a consistent
    comparator that fixes the result, which the insertion below computes:
    an element is placed in front of the first element it does not
    compare greater than.  For an inconsistent comparator (a NaN among the
    differences) the language leaves the order to the implementation, and
    the insertion is one admissible choice. *)
Definition SortCompare (comparefn : Todo -> Todo -> option Z) (x y : Todo) : Z :=
  match comparefn x y with
  | Some v => v
  | None => 0
  end.

Fixpoint insert (comparefn : Todo -> Todo -> option Z) (x : Todo)
    (l : list Todo) : list Todo :=
  match l with
  | [] => [x]
  | y :: l' =>
      if SortCompare comparefn x y <=? 0 then x :: l
      else y :: insert comparefn x l'
  end.

Definition sorted_copy (comparefn : Todo -> Todo -> option Z)
    (l : list Todo) : list Todo :=
  foldr (insert comparefn) [] l.

(** [a.sort(comparefn)]: in place, the same object afterwards. *)
Definition sort (comparefn : Todo -> Todo -> option Z) (h : store) (a : ref) : store :=
  <[a := sorted_copy comparefn (read h a)]> h.

End JsArray.

(* ===================================================================== *)
(** ** The client: class [TodoApp] *)
(* ===================================================================== *)

Module Client.
Import JsString.

(** *** What the client talks to *)

(** Partial todo fields, the argument of [updateTodo]. *)
Record Updates := mkUpdates {
  new_text : option string;
  new_priority : option string;
  new_completed : option bool;
}.

(** The object handed to [JSON.stringify] for a request body. *)
Inductive RequestBody :=
| NoBody
| NewTodo (text priority : string)
| Partial (updates : Updates).

(** One call of [fetch]. *)
Record Request := mkRequest {
  url : string;
  method : string;
  body : RequestBody;
}.

(** What [response.json()] gives: the parsed value, typed by the backend
    contract of the endpoint, or a rejection when the body is not JSON. *)
Inductive Body (A : Type) :=
| Json (data : A)
| Malformed (message : string).
Arguments Json {A} data.
Arguments Malformed {A} message.

(** What [fetch] settles to: rejected (transport error), or resolved with
    a status and a body. *)
Inductive FetchResult (A : Type) :=
| Rejected (message : string)
| Resolved (status : Z) (body : Body A).
Arguments Rejected {A} message.
Arguments Resolved {A} status body.

(** [response.ok] *)
Definition ok (status : Z) : bool := (200 <=? status) && (status <=? 299).

(** [{total, completed, pending}] *)
Record Stats := mkStats {
  stats_total : Z;
  stats_completed : Z;
  stats_pending : Z;
}.

Record JsError := mkError { message : string }.

Record Toast := mkToast {
  toast_message : string;
  toast_type : string;
}.

(** *** State

    The fields of [this] that the methods read or write, the array store,
    the parts of the document they touch, and the two logs of what leaves
    the page: [fetch] calls and [console.error] lines.  Timers, focus and
    CSS animation are left out. *)
Record World := mkWorld {
  heap : JsArray.store;
  todos : JsArray.ref;               (* this.todos *)
  currentFilter : string;            (* this.currentFilter *)
  searchQuery : string;              (* this.searchQuery *)
  todoInput : string;                (* this.todoInput.value *)
  prioritySelect : string;           (* this.prioritySelect.value *)
  todosList : list Todo;             (* records behind this.todosList.innerHTML *)
  emptyState : string;               (* this.emptyState.style.display *)
  shownStats : option Stats;         (* the three counters' textContent *)
  loadingOverlay : bool;             (* class 'show' on the overlay *)
  toastContainer : list Toast;       (* toasts appended so far *)
  requests : list Request;           (* fetch calls issued so far *)
  console : list (string * JsError); (* console.error lines *)
}.

(** The local cache: the elements of the array [this.todos] refers to. *)
Definition cache (w : World) : list Todo := JsArray.read (heap w) (todos w).

Definition set_heap (v : JsArray.store) (w : World) : World :=
  mkWorld v (todos w) (currentFilter w) (searchQuery w) (todoInput w)
    (prioritySelect w) (todosList w) (emptyState w) (shownStats w)
    (loadingOverlay w) (toastContainer w) (requests w) (console w).
Definition set_todos (v : JsArray.ref) (w : World) : World :=
  mkWorld (heap w) v (currentFilter w) (searchQuery w) (todoInput w)
    (prioritySelect w) (todosList w) (emptyState w) (shownStats w)
    (loadingOverlay w) (toastContainer w) (requests w) (console w).
Definition set_currentFilter (v : string) (w : World) : World :=
  mkWorld (heap w) (todos w) v (searchQuery w) (todoInput w)
    (prioritySelect w) (todosList w) (emptyState w) (shownStats w)
    (loadingOverlay w) (toastContainer w) (requests w) (console w).
Definition set_searchQuery (v : string) (w : World) : World :=
  mkWorld (heap w) (todos w) (currentFilter w) v (todoInput w)
    (prioritySelect w) (todosList w) (emptyState w) (shownStats w)
    (loadingOverlay w) (toastContainer w) (requests w) (console w).
Definition set_todoInput (v : string) (w : World) : World :=
  mkWorld (heap w) (todos w) (currentFilter w) (searchQuery w) v
    (prioritySelect w) (todosList w) (emptyState w) (shownStats w)
    (loadingOverlay w) (toastContainer w) (requests w) (console w).
Definition set_prioritySelect (v : string) (w : World) : World :=
  mkWorld (heap w) (todos w) (currentFilter w) (searchQuery w) (todoInput w)
    v (todosList w) (emptyState w) (shownStats w)
    (loadingOverlay w) (toastContainer w) (requests w) (console w).
Definition set_todosList (v : list Todo) (w : World) : World :=
  mkWorld (heap w) (todos w) (currentFilter w) (searchQuery w) (todoInput w)
    (prioritySelect w) v (emptyState w) (shownStats w)
    (loadingOverlay w) (toastContainer w) (requests w) (console w).
Definition set_emptyState (v : string) (w : World) : World :=
  mkWorld (heap w) (todos w) (currentFilter w) (searchQuery w) (todoInput w)
    (prioritySelect w) (todosList w) v (shownStats w)
    (loadingOverlay w) (toastContainer w) (requests w) (console w).
Definition set_shownStats (v : option Stats) (w : World) : World :=
  mkWorld (heap w) (todos w) (currentFilter w) (searchQuery w) (todoInput w)
    (prioritySelect w) (todosList w) (emptyState w) v
    (loadingOverlay w) (toastContainer w) (requests w) (console w).
Definition set_loadingOverlay (v : bool) (w : World) : World :=
  mkWorld (heap w) (todos w) (currentFilter w) (searchQuery w) (todoInput w)
    (prioritySelect w) (todosList w) (emptyState w) (shownStats w)
    v (toastContainer w) (requests w) (console w).
Definition set_toastContainer (v : list Toast) (w : World) : World :=
  mkWorld (heap w) (todos w) (currentFilter w) (searchQuery w) (todoInput w)
    (prioritySelect w) (todosList w) (emptyState w) (shownStats w)
    (loadingOverlay w) v (requests w) (console w).
Definition set_requests (v : list Request) (w : World) : World :=
  mkWorld (heap w) (todos w) (currentFilter w) (searchQuery w) (todoInput w)
    (prioritySelect w) (todosList w) (emptyState w) (shownStats w)
    (loadingOverlay w) (toastContainer w) v (console w).
Definition set_console (v : list (string * JsError)) (w : World) : World :=
  mkWorld (heap w) (todos w) (currentFilter w) (searchQuery w) (todoInput w)
    (prioritySelect w) (todosList w) (emptyState w) (shownStats w)
    (loadingOverlay w) (toastContainer w) (requests w) v.

(** *** Computations: state plus exceptions *)

Inductive outcome (A : Type) :=
| Normal (a : A)
| Thrown (e : JsError).
Arguments Normal {A} a.
Arguments Thrown {A} e.

Definition M (A : Type) : Type := World -> outcome A * World.

Definition ret {A} (a : A) : M A := fun w => (Normal a, w).

Definition bind {A B} (m : M A) (k : A -> M B) : M B :=
  fun w =>
    match m w with
    | (Normal a, w') => k a w'
    | (Thrown e, w') => (Thrown e, w')
    end.

Definition throw {A} (e : JsError) : M A := fun w => (Thrown e, w).

(** [try { m } catch (e) { handler e }] *)
Definition try_catch {A} (m : M A) (handler : JsError -> M A) : M A :=
  fun w =>
    match m w with
    | (Normal a, w') => (Normal a, w')
    | (Thrown e, w') => handler e w'
    end.

(** [try { m } finally { f }] *)
Definition try_finally {A} (m : M A) (f : M unit) : M A :=
  fun w =>
    let (o, w') := m w in
    match f w' with
    | (Normal _, w'') => (o, w'')
    | (Thrown e, w'') => (Thrown e, w'')
    end.

Definition gets {A} (f : World -> A) : M A := fun w => (Normal (f w), w).
Definition modify (f : World -> World) : M unit := fun w => (Normal tt, f w).

Declare Scope js_scope.
Delimit Scope js_scope with js.
Notation "'let!' x ':=' m 'in' k" := (bind m (fun x => k))
  (at level 10, x name, m at level 100, k at level 200) : js_scope.
Notation "m '>>' k" := (bind m (fun _ => k))
  (at level 100, k at level 200, right associativity) : js_scope.
Local Open Scope js_scope.

(** State after a computation, and its result. *)
Definition exec {A} (m : M A) (w : World) : World := snd (m w).
Definition eval {A} (m : M A) (w : World) : outcome A := fst (m w).

(** *** UI helpers *)

Definition showLoading : M unit := modify (set_loadingOverlay true).
Definition hideLoading : M unit := modify (set_loadingOverlay false).

(** [showToast(message, type)]: the toast is appended to the container;
    its removal five seconds later by a timer is outside the model. *)
Definition showToast (message type : string) : M unit :=
  modify (fun w => set_toastContainer (toastContainer w ++ [mkToast message type]) w).

Definition updateStats (stats : Stats) : M unit :=
  modify (set_shownStats (Some stats)).

Definition console_error (label : string) (error : JsError) : M unit :=
  modify (fun w => set_console (console w ++ [(label, error)]) w).

(** *** getFilteredTodos *)

(** [new Date(x) - new Date(y)] *)
Definition date_minus (x y : Date) : option Z :=
  match x, y with
  | TimeValue m, TimeValue n => Some (m - n)
  | _, _ => None
  end.

(** [(a, b) => new Date(b.created_at) - new Date(a.created_at)] *)
Definition newest_first (a b : Todo) : option Z :=
  date_minus (created_at b) (created_at a).

(** Array operations lifted to the state. *)
Definition array_spread (a : JsArray.ref) : M JsArray.ref :=
  fun w => let (r, h) := JsArray.spread (heap w) a in (Normal r, set_heap h w).
Definition array_filter (p : Todo -> bool) (a : JsArray.ref) : M JsArray.ref :=
  fun w => let (r, h) := JsArray.filter p (heap w) a in (Normal r, set_heap h w).
Definition array_sort (comparefn : Todo -> Todo -> option Z) (a : JsArray.ref) : M unit :=
  modify (fun w => set_heap (JsArray.sort comparefn (heap w) a) w).
Definition array_push (a : JsArray.ref) (x : Todo) : M unit :=
  modify (fun w => set_heap (JsArray.push x (heap w) a) w).
Definition array_set (a : JsArray.ref) (i : Z) (x : Todo) : M unit :=
  modify (fun w => set_heap (JsArray.set_index (Z.to_nat i) x (heap w) a) w).
Definition array_new (l : list Todo) : M JsArray.ref :=
  fun w => let (r, h) := JsArray.alloc (heap w) l in (Normal r, set_heap h w).
Definition array_read (a : JsArray.ref) : M (list Todo) :=
  gets (fun w => JsArray.read (heap w) a).

Definition getFilteredTodos : M JsArray.ref :=
  let! this_todos := gets todos in
  let! filtered := array_spread this_todos in
  let! currentFilter := gets currentFilter in
  (* Apply status filter *)
  let! filtered :=
    (if String.eqb currentFilter "completed" then
       array_filter (fun todo => completed todo) filtered
     else if String.eqb currentFilter "pending" then
       array_filter (fun todo => negb (completed todo)) filtered
     else ret filtered) in
  (* Apply search filter *)
  let! searchQuery := gets searchQuery in
  let! filtered :=
    (if truthy searchQuery then
       array_filter (fun todo => includes (toLowerCase (text todo)) searchQuery)
         filtered
     else ret filtered) in
  (* Sort by creation date (newest first) *)
  array_sort newest_first filtered >>
  ret filtered.

(** [renderTodos()]: [todosList] keeps the records in the order in which
    [createTodoHTML] is mapped over them. *)
Definition renderTodos : M unit :=
  let! filteredTodos := getFilteredTodos in
  let! items := array_read filteredTodos in
  if Nat.eqb (List.length items) 0 then
    modify (set_todosList []) >>
    modify (set_emptyState "block")
  else
    modify (set_emptyState "none") >>
    modify (set_todosList items).

(** *** API methods *)

Definition apiBase : string := "/api".

(** [apiCall] up to its first [await]: the overlay is shown and the
    request leaves. *)
Definition apiCall_send (endpoint : string) (method : string)
    (body : RequestBody) : M unit :=
  showLoading >>
  modify (fun w =>
    set_requests (requests w ++ [mkRequest (apiBase +:+ endpoint) method body]) w).

(** The rest of [apiCall], once [fetch] has settled to [r]. *)
Definition apiCall_settle {A} (r : FetchResult A) : M A :=
  try_finally
    (try_catch
       match r with
       | Rejected msg => throw (mkError msg)
       | Resolved status body =>
           if negb (ok status) then
             throw (mkError ("HTTP error! status: " +:+ of_Z status))
           else
             match body with
             | Json data => ret data
             | Malformed msg => throw (mkError msg)
             end
       end
       (fun error =>
          console_error "API Error:" error >>
          showToast ("Error: " +:+ message error) "error" >>
          throw error))
    hideLoading.

(** [await this.apiCall(endpoint, options)], the response being [r]. *)
Definition apiCall {A} (endpoint : string) (method : string)
    (body : RequestBody) (r : FetchResult A) : M A :=
  apiCall_send endpoint method body >> apiCall_settle r.

(** [this.loadStats()] as the mutating methods call it, without [await]:
    the call runs up to the [await] inside [apiCall] and returns. *)
Definition loadStats : M unit := apiCall_send "/stats" "GET" NoBody.

(** The continuation of a pending [loadStats] when its response arrives. *)
Definition loadStats_resume (r : FetchResult Stats) : M unit :=
  try_catch
    (let! stats := apiCall_settle r in updateStats stats)
    (fun error => console_error "Failed to load stats:" error).

Definition loadTodos (r : FetchResult (list Todo)) : M unit :=
  try_catch
    (let! data := apiCall "/todos" "GET" NoBody r in
     let! a := array_new data in
     modify (set_todos a) >>
     renderTodos >>
     loadStats)
    (fun error => console_error "Failed to load todos:" error).

Definition addTodo (text priority : string) (r : FetchResult Todo)
    : M (option Todo) :=
  try_catch
    (let! newTodo := apiCall "/todos" "POST" (NewTodo text priority) r in
     let! this_todos := gets todos in
     array_push this_todos newTodo >>
     renderTodos >>
     loadStats >>
     showToast "Todo added successfully!" "success" >>
     ret (Some newTodo))
    (fun error => console_error "Failed to add todo:" error >> ret None).

Definition updateTodo (id0 : Z) (updates : Updates) (r : FetchResult Todo)
    : M (option Todo) :=
  try_catch
    (let! updatedTodo :=
       apiCall ("/todos/" +:+ of_Z id0) "PUT" (Partial updates) r in
     let! index := gets (fun w => JsArray.findIndex (fun todo => id todo =? id0) (cache w)) in
     (if negb (index =? -1) then
        let! this_todos := gets todos in
        array_set this_todos index updatedTodo >>
        renderTodos >>
        loadStats
      else ret tt) >>
     showToast "Todo updated successfully!" "success" >>
     ret (Some updatedTodo))
    (fun error => console_error "Failed to update todo:" error >> ret None).

Definition deleteTodo (id0 : Z) (r : FetchResult unit) : M unit :=
  try_catch
    (apiCall ("/todos/" +:+ of_Z id0) "DELETE" NoBody r >>
     let! this_todos := gets todos in
     let! kept := array_filter (fun todo => negb (id todo =? id0)) this_todos in
     modify (set_todos kept) >>
     renderTodos >>
     loadStats >>
     showToast "Todo deleted successfully!" "success")
    (fun error => console_error "Failed to delete todo:" error).

Definition toggleTodo (id0 : Z) (r : FetchResult Todo) : M unit :=
  try_catch
    (let! updatedTodo :=
       apiCall ("/todos/toggle/" +:+ of_Z id0) "PATCH" NoBody r in
     let! index := gets (fun w => JsArray.findIndex (fun todo => id todo =? id0) (cache w)) in
     (if negb (index =? -1) then
        let! this_todos := gets todos in
        array_set this_todos index updatedTodo >>
        renderTodos >>
        loadStats
      else ret tt) >>
     let status := if completed updatedTodo then "completed" else "reopened" in
     showToast ("Todo " +:+ status +:+ "!") "success")
    (fun error => console_error "Failed to toggle todo:" error).

(** *** Event handlers *)

(** [handleAddTodo(e)]; [r] is the response the POST would get. *)
Definition handleAddTodo (r : FetchResult Todo) : M unit :=
  let! text := gets (fun w => trim (todoInput w)) in
  let! priority := gets prioritySelect in
  if negb (truthy text) then
    showToast "Please enter a todo text" "error"
  else
    addTodo text priority r >>
    (* Reset form *)
    modify (set_todoInput "") >>
    modify (set_prioritySelect "medium").

(** [handleFilterChange(e)], [filter] being [e.target.dataset.filter]. *)
Definition handleFilterChange (filter : option string) : M unit :=
  match filter with
  | None => ret tt
  | Some f =>
      if negb (truthy f) then ret tt
      else modify (set_currentFilter f) >> renderTodos
  end.

(** [handleSearch(e)], [value] being [e.target.value]. *)
Definition handleSearch (value : string) : M unit :=
  modify (set_searchQuery (trim (toLowerCase value))) >>
  renderTodos.

(** [editTodo(id)], [answer] being what [prompt] returns ([None] when the
    dialog is cancelled) and [r] the response the PUT would get. *)
Definition editTodo (id0 : Z) (answer : option string) (r : FetchResult Todo)
    : M unit :=
  let! found := gets (fun w => JsArray.find (fun t => id t =? id0) (cache w)) in
  match found with
  | None => ret tt
  | Some todo =>
      match answer with
      | None => ret tt
      | Some newText =>
          if truthy newText && negb (String.eqb (trim newText) (text todo)) then
            updateTodo id0 (mkUpdates (Some (trim newText)) None None) r >>
            ret tt
          else ret tt
      end
  end.

(** *** The methods split at their [await]

    An [async] method runs up to the [await] inside [apiCall] and hands
    control back; the rest runs when the response is there.  The halves
    below are the bodies above cut at that point. *)

(** What is left of [addTodo] once [fetch] has settled to [r]. *)
Definition addTodo_resume (r : FetchResult Todo) : M (option Todo) :=
  try_catch
    (let! newTodo := apiCall_settle r in
     let! this_todos := gets todos in
     array_push this_todos newTodo >>
     renderTodos >>
     loadStats >>
     showToast "Todo added successfully!" "success" >>
     ret (Some newTodo))
    (fun error => console_error "Failed to add todo:" error >> ret None).

Definition updateTodo_resume (id0 : Z) (r : FetchResult Todo) : M (option Todo) :=
  try_catch
    (let! updatedTodo := apiCall_settle r in
     let! index := gets (fun w => JsArray.findIndex (fun todo => id todo =? id0) (cache w)) in
     (if negb (index =? -1) then
        let! this_todos := gets todos in
        array_set this_todos index updatedTodo >>
        renderTodos >>
        loadStats
      else ret tt) >>
     showToast "Todo updated successfully!" "success" >>
     ret (Some updatedTodo))
    (fun error => console_error "Failed to update todo:" error >> ret None).

Definition deleteTodo_send (id0 : Z) : M unit :=
  apiCall_send ("/todos/" +:+ of_Z id0) "DELETE" NoBody.

Definition deleteTodo_resume (id0 : Z) (r : FetchResult unit) : M unit :=
  try_catch
    (apiCall_settle r >>
     let! this_todos := gets todos in
     let! kept := array_filter (fun todo => negb (id todo =? id0)) this_todos in
     modify (set_todos kept) >>
     renderTodos >>
     loadStats >>
     showToast "Todo deleted successfully!" "success")
    (fun error => console_error "Failed to delete todo:" error).

Definition toggleTodo_send (id0 : Z) : M unit :=
  apiCall_send ("/todos/toggle/" +:+ of_Z id0) "PATCH" NoBody.

Definition toggleTodo_resume (id0 : Z) (r : FetchResult Todo) : M unit :=
  try_catch
    (let! updatedTodo := apiCall_settle r in
     let! index := gets (fun w => JsArray.findIndex (fun todo => id todo =? id0) (cache w)) in
     (if negb (index =? -1) then
        let! this_todos := gets todos in
        array_set this_todos index updatedTodo >>
        renderTodos >>
        loadStats
      else ret tt) >>
     let status := if completed updatedTodo then "completed" else "reopened" in
     showToast ("Todo " +:+ status +:+ "!") "success")
    (fun error => console_error "Failed to toggle todo:" error).

(** [handleAddTodo(e)] up to [await this.addTodo(text, priority)], which
    is reached only with a text. *)
Definition handleAddTodo_send : M unit :=
  let! text := gets (fun w => trim (todoInput w)) in
  let! priority := gets prioritySelect in
  if negb (truthy text) then
    showToast "Please enter a todo text" "error"
  else
    apiCall_send "/todos" "POST" (NewTodo text priority).

(** The rest of it; the focus it sets is not part of this state. *)
Definition handleAddTodo_resume (r : FetchResult Todo) : M unit :=
  addTodo_resume r >>
  (* Reset form *)
  modify (set_todoInput "") >>
  modify (set_prioritySelect "medium").

(** [editTodo(id)] up to [await this.updateTodo(...)], which is reached
    only with a changed text. *)
Definition editTodo_send (id0 : Z) (answer : option string) : M unit :=
  let! found := gets (fun w => JsArray.find (fun t => id t =? id0) (cache w)) in
  match found with
  | None => ret tt
  | Some todo =>
      match answer with
      | None => ret tt
      | Some newText =>
          if truthy newText && negb (String.eqb (trim newText) (text todo)) then
            apiCall_send ("/todos/" +:+ of_Z id0) "PUT"
              (Partial (mkUpdates (Some (trim newText)) None None))
          else ret tt
      end
  end.

Definition editTodo_resume (id0 : Z) (r : FetchResult Todo) : M unit :=
  updateTodo_resume id0 r >> ret tt.

End Client.

(* ===================================================================== *)
(** ** The search beyond Latin-1 *)
(* ===================================================================== *)

(** [JsString] holds code units below 256, where lower-casing works one
    character at a time.  A JavaScript string is a sequence of 16-bit code
    units and [toLowerCase] follows Unicode, in which one capital has a
    lower-case form that depends on its neighbours: the Greek capital
    sigma becomes the final sigma at the end of a word and the small sigma
    elsewhere.  This module runs the search on the alphabet extended by
    the three sigmas. *)
Module Wide.

Inductive Char :=
| Latin1 (c : ascii)     (* U+0000 to U+00FF *)
| CapitalSigma           (* U+03A3 *)
| SmallSigma             (* U+03C3 *)
| FinalSigma.            (* U+03C2 *)

Definition code_unit (c : Char) : N :=
  match c with
  | Latin1 a => JsString.code a
  | CapitalSigma => 931
  | SmallSigma => 963
  | FinalSigma => 962
  end.

Definition eqb (a b : Char) : bool := (code_unit a =? code_unit b)%N.

(** The Unicode properties Cased and Case_Ignorable on this alphabet. *)
Definition cased (c : Char) : bool :=
  match c with
  | Latin1 a =>
      let n := JsString.code a in
      ((65 <=? n) && (n <=? 90) || (97 <=? n) && (n <=? 122)
       || (n =? 170) || (n =? 181) || (n =? 186)
       || (192 <=? n) && (n <=? 214) || (216 <=? n) && (n <=? 246)
       || (248 <=? n) && (n <=? 255))%N
  | _ => true
  end.

Definition case_ignorable (c : Char) : bool :=
  match c with
  | Latin1 a =>
      existsb (N.eqb (JsString.code a))
        [39; 46; 58; 94; 96; 168; 173; 175; 180; 183; 184]%N
  | _ => false
  end.

(** What follows is any number of case-ignorable characters and then a
    cased letter. *)
Fixpoint cased_follows (s : list Char) : bool :=
  match s with
  | [] => false
  | c :: rest => if case_ignorable c then cased_follows rest else cased c
  end.

(** Lower-casing from left to right; [before] tells whether what precedes
    is a cased letter followed by any number of case-ignorable
    characters.  A capital sigma with such a letter before it and none
    after it (condition Final_Sigma of Unicode's SpecialCasing) becomes
    the final sigma. *)
Fixpoint lower (before : bool) (s : list Char) : list Char :=
  match s with
  | [] => []
  | c :: rest =>
      (match c with
       | Latin1 a => Latin1 (JsString.lower_char a)
       | CapitalSigma =>
           if before && negb (cased_follows rest) then FinalSigma else SmallSigma
       | _ => c
       end)
      :: lower (if case_ignorable c then before else cased c) rest
  end.

(** [s.toLowerCase()] *)
Definition toLowerCase (s : list Char) : list Char := lower false s.

Definition is_space (c : Char) : bool :=
  match c with
  | Latin1 a => JsString.is_space a
  | _ => false
  end.

(** [s.trimStart()], [s.trimEnd()], [s.trim()] *)
Fixpoint trimStart (s : list Char) : list Char :=
  match s with
  | [] => []
  | c :: s' => if is_space c then trimStart s' else s
  end.

Fixpoint trimEnd (s : list Char) : list Char :=
  match s with
  | [] => []
  | c :: s' =>
      match trimEnd s' with
      | [] => if is_space c then [] else [c]
      | r => c :: r
      end
  end.

Definition trim (s : list Char) : list Char := trimEnd (trimStart s).

(** [s.startsWith(q)], [s.includes(q)] *)
Fixpoint startsWith (s q : list Char) : bool :=
  match q, s with
  | [], _ => true
  | _ :: _, [] => false
  | b :: q', a :: s' => eqb a b && startsWith s' q'
  end.

Fixpoint includes (s q : list Char) : bool :=
  startsWith s q ||
  match s with
  | [] => false
  | _ :: s' => includes s' q
  end.

(** Only the empty string is falsy. *)
Definition truthy (s : list Char) : bool :=
  match s with [] => false | _ :: _ => true end.

(** A todo whose text is such a string. *)
Record Todo := mkTodo {
  id : Z;
  text : list Char;
  completed : bool;
  created_at : Date;
}.

(** What [handleSearch] stores as [this.searchQuery] for the input
    [value]. *)
Definition handleSearch (value : list Char) : list Char :=
  trim (toLowerCase value).

(** [this.todos.sort(...)] as in [JsArray]: a stable insertion. *)
Fixpoint insert (x : Todo) (l : list Todo) : list Todo :=
  match l with
  | [] => [x]
  | y :: l' =>
      if match Client.date_minus (created_at y) (created_at x) with
         | Some v => v
         | None => 0
         end <=? 0
      then x :: l
      else y :: insert x l'
  end.

(** [getFilteredTodos()] as a function of the three fields it reads. *)
Definition getFilteredTodos (todos : list Todo) (currentFilter : string)
    (searchQuery : list Char) : list Todo :=
  let filtered := todos in
  (* Apply status filter *)
  let filtered :=
    if String.eqb currentFilter "completed" then
      List.filter (fun todo => completed todo) filtered
    else if String.eqb currentFilter "pending" then
      List.filter (fun todo => negb (completed todo)) filtered
    else filtered in
  (* Apply search filter *)
  let filtered :=
    if truthy searchQuery then
      List.filter (fun todo => includes (toLowerCase (text todo)) searchQuery)
        filtered
    else filtered in
  (* Sort by creation date (newest first) *)
  foldr insert [] filtered.

(** A Latin-1 string in this alphabet. *)
Fixpoint wide (s : string) : list Char :=
  match s with
  | EmptyString => []
  | String c s' => Latin1 c :: wide s'
  end.

End Wide.

(** A Latin-1 record in the wide alphabet. *)
Definition widen (t : Todo) : Wide.Todo :=
  Wide.mkTodo (id t) (Wide.wide (text t)) (completed t) (created_at t).


(* ===================================================================== *)
(** ** The edge server *)
(* ===================================================================== *)

Module Edge.
Import JsString.

Record Request := mkRequest {
  method : string;   (* upper case, as node reports it *)
  path : string;
}.

(** The backend's own answer, relayed as it comes. *)
Record Upstream := mkUpstream {
  upstream_status : Z;
  upstream_body : string;
}.

Inductive Response :=
| SendFile (content : string)                           (* 200 with a file *)
| SendJson (status : Z) (fields : list (string * string)) (* res.status(s).json(o) *)
| Relay (answer : Upstream)                             (* the proxied answer *)
| Allow (methods : list string)                         (* 200, Allow header: automatic OPTIONS reply *)
| Final (status : Z).                                   (* express's final handler *)

(** What surrounds the process: the files under [public/], seen through
    the URL path that resolves to them, and the backend, which for a
    request either refuses the connection (with the error's message) or
    answers. *)
Record Site := mkSite {
  public : string -> option string;
  backend : Request -> string + Upstream;
}.

Inductive Event :=
| Connect (req : Request) (result : string + Upstream)
| ConsoleError (label detail : string).

(** How a layer leaves a request: answered, [next()], [next(err)], or, for
    a route that matches the path of an OPTIONS request but not its
    method, [next()] after adding the methods it does handle to the
    automatic reply. *)
Inductive Passed :=
| Done (r : Response)
| Next
| NextError (err : string)
| NextAllow (methods : list string).

Inductive Layer :=
| Handler (h : Site -> Request -> Passed * list Event)
| ErrorHandler (h : string -> Request -> Passed * list Event).

Definition is_get_or_head (m : string) : bool :=
  String.eqb m "GET" || String.eqb m "HEAD".

(** [express.static(public)]: only GET and HEAD are looked up; anything
    else, and any miss, goes on to the next layer.  The public directory
    is taken to hold files only: the redirect serve-static sends for the
    path of a sub-directory is not part of [Site]. *)
Definition express_static (site : Site) (req : Request) : Passed * list Event :=
  if is_get_or_head (method req) then
    match public site (path req) with
    | Some content => (Done (SendFile content), [])
    | None => (Next, [])
    end
  else (Next, []).

(** Whether a layer mounted at [prefix] sees the path: the prefix itself
    or anything below it, letter case ignored (express's default). *)
Definition mounted (prefix path : string) : bool :=
  let p := toLowerCase path in
  String.eqb p prefix || startsWith p (prefix +:+ "/").

(** [app.use(prefix, h)] *)
Definition use_at (prefix : string) (h : Site -> Request -> Passed * list Event)
    (site : Site) (req : Request) : Passed * list Event :=
  if mounted prefix (path req) then h site req else (Next, []).

(** *** [decodeURIComponent]

    A route with a parameter decodes it when it matches, and ['*'] is a
    parameter that holds the whole path.  Decoding fails on a ['%'] that
    two hexadecimal digits do not follow, and on escaped bytes that are
    not the UTF-8 encoding of a code point.  The scan below accepts
    exactly the strings that decode. *)
Definition hex_digit (c : ascii) : option N :=
  let n := code c in
  if ((48 <=? n) && (n <=? 57))%N then Some (n - 48)%N
  else if ((65 <=? n) && (n <=? 70))%N then Some (n - 55)%N
  else if ((97 <=? n) && (n <=? 102))%N then Some (n - 87)%N
  else None.

(** Where the scan stands: between escapes or after ['%'] or after one
    digit; [need] lists, for the continuation bytes of the UTF-8 sequence
    under way, the range each must fall in. *)
Inductive Scan :=
| Between (need : list (N * N))
| Digit1 (need : list (N * N))
| Digit2 (need : list (N * N)) (high : N).

(** The continuation bytes a leading byte asks for (well-formed UTF-8 as
    in the Unicode standard), or [None] for a byte that cannot lead. *)
Definition lead (b : N) : option (list (N * N)) :=
  (if b <? 128 then Some []
   else if (194 <=? b) && (b <=? 223) then Some [(128, 191)]
   else if b =? 224 then Some [(160, 191); (128, 191)]
   else if (225 <=? b) && (b <=? 236) then Some [(128, 191); (128, 191)]
   else if b =? 237 then Some [(128, 159); (128, 191)]
   else if (238 <=? b) && (b <=? 239) then Some [(128, 191); (128, 191)]
   else if b =? 240 then Some [(144, 191); (128, 191); (128, 191)]
   else if (241 <=? b) && (b <=? 243) then Some [(128, 191); (128, 191); (128, 191)]
   else if b =? 244 then Some [(128, 143); (128, 191); (128, 191)]
   else None)%N.

Definition scan_byte (need : list (N * N)) (b : N) : option Scan :=
  match need with
  | [] => option_map Between (lead b)
  | (low, high) :: rest =>
      if ((low <=? b) && (b <=? high))%N then Some (Between rest) else None
  end.

Definition scan_char (st : Scan) (c : ascii) : option Scan :=
  match st with
  | Between need =>
      if Ascii.eqb c "%" then Some (Digit1 need)
      else match need with
           | [] => Some (Between [])
           | _ :: _ => None
           end
  | Digit1 need => option_map (Digit2 need) (hex_digit c)
  | Digit2 need high =>
      match hex_digit c with
      | Some low => scan_byte need (16 * high + low)%N
      | None => None
      end
  end.

Fixpoint scan (st : Scan) (s : string) : bool :=
  match s with
  | EmptyString =>
      match st with
      | Between [] => true
      | _ => false
      end
  | String c s' =>
      match scan_char st c with
      | Some st' => scan st' s'
      | None => false
      end
  end.

(** [decodeURIComponent(s)] does not throw. *)
Definition decodable (s : string) : bool := scan (Between []) s.

(** [app.get('*', h)].  Matching decodes the parameter first, for every
    method, and a failure goes on as an error.  A GET route also answers
    HEAD.  For OPTIONS the route adds its methods to the automatic reply;
    any other method just goes on. *)
Definition get_any (h : Site -> Request -> Passed * list Event)
    (site : Site) (req : Request) : Passed * list Event :=
  if negb (decodable (path req)) then
    (NextError ("Failed to decode param '" +:+ path req +:+ "'"), [])
  else if is_get_or_head (method req) then h site req
  else if String.eqb (method req) "OPTIONS" then (NextAllow ["GET"; "HEAD"], [])
  else (Next, []).

(** The body of the [onError] option. *)
Definition unavailable : list (string * string) :=
  [("error", "Backend server unavailable");
   ("message", "Please make sure the Flask backend is running on port 5000")].

Definition onError (err : string) : Passed * list Event :=
  (Done (SendJson 500 unavailable), [ConsoleError "Proxy Error:" err]).

(** [createProxyMiddleware({target, changeOrigin, onError})]: the request
    is forwarded; [onError] is the hook http-proxy-middleware calls when
    the connection to the target fails. *)
Definition proxy (site : Site) (req : Request) : Passed * list Event :=
  match backend site req with
  | inr answer => (Done (Relay answer), [Connect req (inr answer)])
  | inl err =>
      let (p, log) := onError err in (p, Connect req (inl err) :: log)
  end.

(** [res.sendFile(public/index.html)]; a missing file is passed on as an
    error. *)
Definition send_index (site : Site) (req : Request) : Passed * list Event :=
  match public site "/index.html" with
  | Some content => (Done (SendFile content), [])
  | None => (NextError "ENOENT", [])
  end.

(** The error handling middleware.  [err] names the error that was
    passed on; the log line is its stack. *)
Definition on_server_error (err : string) (req : Request) : Passed * list Event :=
  (Done (SendJson 500 [("error", "Something went wrong!")]),
   [ConsoleError "Server Error:" err]).

(** The layers, in the order the file registers them. *)
Definition app : list Layer :=
  [ Handler express_static;
    Handler (use_at "/api" proxy);
    Handler (get_any send_index);
    ErrorHandler on_server_error ].

(** express's dispatch.  Without a pending error, error handlers are
    skipped; with one, only they run.  [options] collects the methods the
    routes passed by would have handled.  Falling off the end without an
    error, an OPTIONS request for which methods were collected is answered
    with them; everything else goes to the final handler: 404, or 500 for
    an error nobody handled. *)
Fixpoint dispatch (pending : option string) (options : list string)
    (stack : list Layer) (site : Site) (req : Request) : Response * list Event :=
  match stack with
  | [] =>
      match pending with
      | None =>
          match options with
          | _ :: _ =>
              if String.eqb (method req) "OPTIONS" then (Allow options, [])
              else (Final 404, [])
          | [] => (Final 404, [])
          end
      | Some err => (Final 500, [])
      end
  | layer :: rest =>
      let step :=
        match pending, layer with
        | None, Handler h => Some (h site req)
        | Some err, ErrorHandler h => Some (h err req)
        | _, _ => None
        end in
      match step with
      | None => dispatch pending options rest site req
      | Some (Done r, log) => (r, log)
      | Some (Next, log) =>
          let (r, log') := dispatch None options rest site req in (r, log ++ log')
      | Some (NextError err, log) =>
          let (r, log') := dispatch (Some err) options rest site req in
          (r, log ++ log')
      | Some (NextAllow methods, log) =>
          let (r, log') := dispatch None (options ++ methods) rest site req in
          (r, log ++ log')
      end
  end.

Definition handle (site : Site) (req : Request) : Response * list Event :=
  dispatch None [] app site req.

Definition response (site : Site) (req : Request) : Response :=
  fst (handle site req).

(** The connection attempt made while a request was handled, if any. *)
Definition connection (site : Site) (req : Request) : option (string + Upstream) :=
  match List.filter (fun e => match e with Connect _ _ => true | _ => false end)
          (snd (handle site req)) with
  | Connect _ result :: _ => Some result
  | _ => None
  end.

Definition is_5xx (r : Response) : bool :=
  match r with
  | SendJson status _ => (500 <=? status) && (status <=? 599)
  | _ => false
  end.

End Edge.

(* ===================================================================== *)
(** ** Notions the statements use *)
(* ===================================================================== *)

(** [q] occurs in [s], letter case ignored. *)
Definition contains_ci (s q : string) : Prop :=
  exists a b, JsString.toLowerCase s = a +:+ JsString.toLowerCase q +:+ b.

Definition contains_cib (s q : string) : bool :=
  JsString.includes (JsString.toLowerCase s) (JsString.toLowerCase q).

(** *** Letter case and white space, said without the string methods

    Two characters are the same letter when they are equal or one is the
    capital and the other the small form of one letter.  In Latin-1 the
    small form lies 32 above its capital, and the capitals are A to Z
    (65-90), À to Ö (192-214) and Ø to Þ (216-222). *)
Definition capital (c : ascii) : Prop :=
  let n := JsString.code c in
  (65 <= n <= 90 \/ 192 <= n <= 214 \/ 216 <= n <= 222)%N.

(** The same as a test. *)
Definition capitalb (c : ascii) : bool :=
  let n := JsString.code c in
  ((65 <=? n) && (n <=? 90) || (192 <=? n) && (n <=? 222) && negb (n =? 215))%N.

Definition small_form (C c : ascii) : Prop :=
  capital C /\ JsString.code c = (JsString.code C + 32)%N.

Definition same_letter (c d : ascii) : Prop :=
  c = d \/ small_form c d \/ small_form d c.

(** Two strings that differ in letter case at most. *)
Fixpoint same_letters (s q : string) : Prop :=
  match s, q with
  | EmptyString, EmptyString => True
  | String c s', String d q' => same_letter c d /\ same_letters s' q'
  | _, _ => False
  end.

(** [q] occurs in [s], letter case ignored: some stretch of [s] differs
    from [q] in letter case at most. *)
Definition occurs_ignoring_case (q s : string) : Prop :=
  exists front m back, s = front +:+ m +:+ back /\ same_letters m q.

(** TAB, LF, VT, FF, CR, SPACE and NO-BREAK SPACE. *)
Definition white_space (c : ascii) : Prop :=
  In (JsString.code c) [9; 10; 11; 12; 13; 32; 160]%N.

Fixpoint all_white_space (s : string) : Prop :=
  match s with
  | EmptyString => True
  | String c s' => white_space c /\ all_white_space s'
  end.

(** [q] is [value] without the white space at its two ends. *)
Definition stripped (value q : string) : Prop :=
  exists l r,
    value = l +:+ q +:+ r /\
    all_white_space l /\ all_white_space r /\
    (forall c rest, q = String c rest -> ~ white_space c) /\
    (forall front c, q = front +:+ String c EmptyString -> ~ white_space c).

(** Creation time of a well-formed record; 0 stands in for an invalid date
    and is never consulted where well-formedness is assumed. *)
Definition created_ms (t : Todo) : Z :=
  match created_at t with TimeValue ms => ms | InvalidDate => 0 end.

(** [a] is at least as new as [b]; [a] is newer than [b]. *)
Definition not_older (a b : Todo) : Prop := created_ms b <= created_ms a.
Definition newer (a b : Todo) : Prop := created_ms b < created_ms a.

(** Records created at instant [ms]. *)
Definition created_on (ms : Z) (t : Todo) : bool := created_ms t =? ms.

(** A deployment for the examples: the public directory holds the entry
    document (also served for [/]) and the script; the backend is down. *)
Definition demo_site : Edge.Site :=
  Edge.mkSite
    (fun p =>
       if String.eqb p "/index.html" || String.eqb p "/" then Some "<!DOCTYPE html>"
       else if String.eqb p "/script.js" then Some "// Todo App JavaScript"
       else None)
    (fun _ => inl "connect ECONNREFUSED 127.0.0.1:5000").

(** The same deployment with an empty public directory. *)
Definition bare_site : Edge.Site :=
  Edge.mkSite (fun _ => None) (Edge.backend demo_site).

Definition post_dashboard : Edge.Request := Edge.mkRequest "POST" "/dashboard".
Definition get_percent : Edge.Request := Edge.mkRequest "GET" "/%".
Definition options_dashboard : Edge.Request := Edge.mkRequest "OPTIONS" "/dashboard".
Definition get_dashboard : Edge.Request := Edge.mkRequest "GET" "/dashboard".
Definition get_api_todos : Edge.Request := Edge.mkRequest "GET" "/api/todos".

Module ClientFacts.
Import JsString Client.

(** [this.todos] refers to an array that exists.  Every state the page
    can reach has this property. *)
Definition valid (w : World) : Prop := todos w ∈ dom (heap w).

(** The elements of the array a computation returns, read in the state it
    leaves; [None] if it throws. *)
Definition returned (m : M JsArray.ref) (w : World) : option (list Todo) :=
  match m w with
  | (Normal r, w') => Some (JsArray.read (heap w') r)
  | (Thrown _, _) => None
  end.

(** What the status filter and the search filter keep. *)
Definition by_status (f : string) (l : list Todo) : list Todo :=
  if String.eqb f "completed" then List.filter (fun todo => completed todo) l
  else if String.eqb f "pending" then List.filter (fun todo => negb (completed todo)) l
  else l.

Definition by_search (q : string) (l : list Todo) : list Todo :=
  if truthy q then List.filter (fun todo => includes (toLowerCase (text todo)) q) l
  else l.

(** The array a run of [getFilteredTodos] hands back. *)
Definition selection (w : World) : list Todo :=
  JsArray.sorted_copy newest_first
    (by_search (searchQuery w) (by_status (currentFilter w) (cache w))).

(** [res] is a normal return, in a state that differs from [w] only in
    the store, of a reference that is new with respect to [w] and holds
    [v], every array of [w] being as it was. *)
Definition tracks (w : World) (v : list Todo)
    (res : outcome JsArray.ref * World) : Prop :=
  exists r h',
    res = (Normal r, set_heap h' w) /\
    heap w !! r = None /\
    h' !! r = Some v /\
    heap w ⊆ h'.

(** A state with cache [l], filter [f] and search query [q], nothing
    rendered and nothing sent yet. *)
Definition world_of (l : list Todo) (f q : string) : World :=
  let (a, h) := JsArray.alloc ∅ l in
  mkWorld h a f q "" "medium" [] "none" None false [] [] [].

(** Three records for the examples. *)
Definition buy_milk : Todo := mkTodo 1 "Buy MILK" "high" false (TimeValue 1000).
Definition write_report : Todo := mkTodo 2 "Write report" "medium" true (TimeValue 3000).
Definition call_mom : Todo := mkTodo 3 "call mom" "low" false (TimeValue 2000).

(** A computation that keeps [this.todos] pointing at an existing array. *)
Definition steady {A} (m : M A) : Prop :=
  forall w, valid w -> valid (exec m w).

(** A response that counts as a failure of the call. *)
Definition failed {A} (r : FetchResult A) : Prop :=
  match r with
  | Rejected _ => True
  | Resolved status (Json _) => ok status = false
  | Resolved _ (Malformed _) => True
  end.

(** The error [apiCall] throws on such a response. *)
Definition error_of {A} (r : FetchResult A) : JsError :=
  match r with
  | Rejected msg => mkError msg
  | Resolved status body =>
      if ok status then
        match body with
        | Json _ => mkError ""
        | Malformed msg => mkError msg
        end
      else mkError ("HTTP error! status: " +:+ of_Z status)
  end.

(** The four mutating methods, each with the response its call gets. *)
Inductive Mutation :=
| Add (text priority : string) (r : FetchResult Todo)
| Update (id0 : Z) (updates : Updates) (r : FetchResult Todo)
| Delete (id0 : Z) (r : FetchResult unit)
| Toggle (id0 : Z) (r : FetchResult Todo).

Definition perform (op : Mutation) : M unit :=
  match op with
  | Add text priority r => bind (addTodo text priority r) (fun _ => ret tt)
  | Update id0 updates r => bind (updateTodo id0 updates r) (fun _ => ret tt)
  | Delete id0 r => deleteTodo id0 r
  | Toggle id0 r => toggleTodo id0 r
  end.

Definition call_failed (op : Mutation) : Prop :=
  match op with
  | Add _ _ r => failed r
  | Update _ _ r => failed r
  | Delete _ r => failed r
  | Toggle _ r => failed r
  end.

Definition call_error (op : Mutation) : JsError :=
  match op with
  | Add _ _ r => error_of r
  | Update _ _ r => error_of r
  | Delete _ r => error_of r
  | Toggle _ r => error_of r
  end.

(** The request a mutation sends. *)
Definition request_of (op : Mutation) : Request :=
  match op with
  | Add text priority _ => mkRequest "/api/todos" "POST" (NewTodo text priority)
  | Update id0 updates _ =>
      mkRequest ("/api/todos/" +:+ of_Z id0) "PUT" (Partial updates)
  | Delete id0 _ => mkRequest ("/api/todos/" +:+ of_Z id0) "DELETE" NoBody
  | Toggle id0 _ => mkRequest ("/api/todos/toggle/" +:+ of_Z id0) "PATCH" NoBody
  end.

End ClientFacts.

(* ===================================================================== *)
(** ** The rest of the page: modal, keyboard, startup, escaping *)
(* ===================================================================== *)

Module Page.
Import JsString Client.

(** The double quote character. *)
Definition dquote : string := String (ascii_of_nat 34) EmptyString.

(** [escapeHtml(text)]: the text is stored as the [textContent] of a fresh
    element and read back as [innerHTML], that is, serialised as a text
    node: ampersand, no-break space and the two angle brackets become
    character references, every other character stays. *)
Definition escape_char (c : ascii) : string :=
  if Ascii.eqb c "&" then "&amp;"
  else if Ascii.eqb c "<" then "&lt;"
  else if Ascii.eqb c ">" then "&gt;"
  else if (code c =? 160)%N then "&nbsp;"
  else String c EmptyString.

Fixpoint escapeHtml (text : string) : string :=
  match text with
  | EmptyString => EmptyString
  | String c s => escape_char c +:+ escapeHtml s
  end.

(** [document.activeElement], as far as the handlers tell it apart. *)
Inductive Element :=
| TodoInput
| SearchInput
| Elsewhere.

(** The fields of a keydown event the handler reads. *)
Record KeyboardEvent := mkKey {
  ctrlKey : bool;
  metaKey : bool;
  key : string;
}.

(** What [showModal] is given as [onConfirm]: a function that starts a call
    whose response will be [r]. *)
Definition Callback : Type := FetchResult unit -> M unit.

(** The page: the state of [Client], the search box, the focus and the
    modal dialog.  [modalOk_onclick] is the [onConfirm] captured by the
    handler that [showModal] stores in [modalOk.onclick]. *)
Record State := mkState {
  world : World;
  searchInput : string;              (* this.searchInput.value *)
  activeElement : Element;           (* document.activeElement *)
  modal : bool;                      (* class 'show' on the modal *)
  modalTitle : string;               (* this.modalTitle.textContent *)
  modalMessage : string;             (* this.modalMessage.textContent *)
  modalOk_onclick : option Callback; (* this.modalOk.onclick *)
}.

Definition set_world (v : World) (p : State) : State :=
  mkState v (searchInput p) (activeElement p) (modal p) (modalTitle p)
    (modalMessage p) (modalOk_onclick p).
Definition set_searchInput (v : string) (p : State) : State :=
  mkState (world p) v (activeElement p) (modal p) (modalTitle p)
    (modalMessage p) (modalOk_onclick p).
Definition set_modal (v : bool) (p : State) : State :=
  mkState (world p) (searchInput p) (activeElement p) v (modalTitle p)
    (modalMessage p) (modalOk_onclick p).

(** A method of [Client] run to its end on the page. *)
Definition run {A} (m : M A) (p : State) : State :=
  set_world (exec m (world p)) p.

(** [hideModal()] *)
Definition hideModal (p : State) : State := set_modal false p.

(** [showModal(title, message, onConfirm)]: without [onConfirm] the
    [onclick] of an earlier call stays in place. *)
Definition showModal (title message : string) (onConfirm : option Callback)
    (p : State) : State :=
  mkState (world p) (searchInput p) (activeElement p) true title message
    (match onConfirm with
     | Some f => Some f
     | None => modalOk_onclick p
     end).

(** [confirmDeleteTodo(id)] *)
Definition confirmDeleteTodo (id0 : Z) (p : State) : State :=
  match JsArray.find (fun t => id t =? id0) (cache (world p)) with
  | None => p
  | Some todo =>
      showModal "Delete Todo"
        ("Are you sure you want to delete " +:+ dquote +:+ text todo +:+ dquote +:+ "?")
        (Some (deleteTodo id0)) p
  end.

(** A click on the OK button: first the listener [bindEvents] registered
    ([hideModal]), then the [onclick] property ([onConfirm(); hideModal()]).
    [r] is the response to the call [onConfirm] starts. *)
Definition click_modalOk (r : FetchResult unit) (p : State) : State :=
  let p := hideModal p in
  match modalOk_onclick p with
  | None => p
  | Some onConfirm => hideModal (run (onConfirm r) p)
  end.

(** A click on the close button, and one inside the modal: only a click
    on the modal element itself (the backdrop) closes it. *)
Definition click_modalClose (p : State) : State := hideModal p.
Definition click_modal (target_is_modal : bool) (p : State) : State :=
  if target_is_modal then hideModal p else p.

(** [handleKeyboardShortcuts(e)]; [r] is the response to the POST a
    submission would send. *)
Definition handleKeyboardShortcuts (e : KeyboardEvent) (r : FetchResult Todo)
    (p : State) : State :=
  let p :=
    (* Ctrl/Cmd + Enter to add todo *)
    if (ctrlKey e || metaKey e) && String.eqb (key e) "Enter" then
      match activeElement p with
      | TodoInput => run (handleAddTodo r) p   (* dispatchEvent(new Event('submit')) *)
      | _ => p
      end
    else p in
  (* Escape to clear search *)
  if String.eqb (key e) "Escape" then
    match activeElement p with
    | SearchInput =>
        run (bind (modify (set_searchQuery "")) (fun _ => renderTodos))
          (set_searchInput "" p)
    | _ => p
    end
  else p.

(** Typing in the search box: the box holds [value] and the input listener
    runs. *)
Definition input_search (value : string) (p : State) : State :=
  run (handleSearch value) (set_searchInput value p).

(** *** Startup *)

(** [loadTodos] split at its [await], as [loadStats] is. *)
Definition loadTodos_send : M unit := apiCall_send "/todos" "GET" NoBody.

Definition loadTodos_resume (r : FetchResult (list Todo)) : M unit :=
  try_catch
    (bind (apiCall_settle r) (fun data =>
     bind (array_new data) (fun a =>
     bind (modify (set_todos a)) (fun _ =>
     bind renderTodos (fun _ => loadStats)))))
    (fun error => console_error "Failed to load todos:" error).

(** The constructor up to its return, on a document [doc] (which supplies
    the elements): the three fields are set, then [loadTodos()] and
    [loadStats()] each run up to their [await]. *)
Definition constructor (doc : World) : World :=
  let (a, h) := JsArray.alloc (heap doc) [] in
  let this :=
    set_searchQuery "" (set_currentFilter "all" (set_todos a (set_heap h doc))) in
  exec (bind loadTodos_send (fun _ => loadStats)) this.

(** *** The events of the page, one call at a time

    The listeners of [bindEvents], the inline handlers of the rendered
    items, and the arrival of the two responses that nobody awaits.  An
    event that starts a call carries the response and the call runs to its
    end, as it does when nothing else happens before the response is
    there.  [Loop] below is the page with calls in flight. *)
Inductive UiEvent :=
| Submit (r : FetchResult Todo)                    (* todoForm submit *)
| FilterClick (filter : option string)             (* a filter button *)
| SearchTyped (value : string)                     (* searchInput input *)
| ModalCloseClick
| ModalOkClick (r : FetchResult unit)
| ModalClick (target_is_modal : bool)
| KeyDown (e : KeyboardEvent) (r : FetchResult Todo)
| ToggleClick (id0 : Z) (r : FetchResult Todo)     (* app.toggleTodo(id) *)
| EditClick (id0 : Z) (answer : option string) (r : FetchResult Todo)
| DeleteClick (id0 : Z)                            (* app.confirmDeleteTodo(id) *)
| TodosArrived (r : FetchResult (list Todo))
| StatsArrived (r : FetchResult Stats).

Definition on_event (ev : UiEvent) (p : State) : State :=
  match ev with
  | Submit r => run (handleAddTodo r) p
  | FilterClick filter => run (handleFilterChange filter) p
  | SearchTyped value => input_search value p
  | ModalCloseClick => click_modalClose p
  | ModalOkClick r => click_modalOk r p
  | ModalClick target_is_modal => click_modal target_is_modal p
  | KeyDown e r => handleKeyboardShortcuts e r p
  | ToggleClick id0 r => run (toggleTodo id0 r) p
  | EditClick id0 answer r => run (editTodo id0 answer r) p
  | DeleteClick id0 => confirmDeleteTodo id0 p
  | TodosArrived r => run (loadTodos_resume r) p
  | StatsArrived r => run (loadStats_resume r) p
  end.

End Page.

(* ===================================================================== *)
(** ** The event loop *)
(* ===================================================================== *)

(** [Page] runs every call together with its response.  In the browser a
    call is in flight while other events are handled: the user may type,
    submit again or click before a response is there, and responses come
    back in any order.  This module keeps the calls in flight and runs the
    halves of the methods when their events happen. *)
Module Loop.
Import JsString Client Page.

(** The method that waits for a response. *)
Inductive Pending :=
| InLoadTodos
| InLoadStats
| InHandleAddTodo
| InEditTodo (id0 : Z)
| InDeleteTodo (id0 : Z)
| InToggleTodo (id0 : Z).

(** A response, by the kind of data the call expects. *)
Inductive Arrival :=
| OfTodos (r : FetchResult (list Todo))
| OfStats (r : FetchResult Stats)
| OfTodo (r : FetchResult Todo)
| OfNothing (r : FetchResult unit).

(** The page with its calls in flight.  [modalOk_onclick] holds the [id]
    captured by [() => this.deleteTodo(id)], the only [onConfirm] the
    script passes. *)
Record Tab := mkTab {
  world : World;
  searchInput : string;              (* this.searchInput.value *)
  activeElement : Element;           (* document.activeElement *)
  modal : bool;                      (* class 'show' on the modal *)
  modalTitle : string;
  modalMessage : string;
  modalOk_onclick : option Z;        (* this.modalOk.onclick *)
  inflight : list Pending;
}.

Definition set_world (v : World) (t : Tab) : Tab :=
  mkTab v (searchInput t) (activeElement t) (modal t) (modalTitle t)
    (modalMessage t) (modalOk_onclick t) (inflight t).
Definition set_searchInput (v : string) (t : Tab) : Tab :=
  mkTab (world t) v (activeElement t) (modal t) (modalTitle t)
    (modalMessage t) (modalOk_onclick t) (inflight t).
Definition set_activeElement (v : Element) (t : Tab) : Tab :=
  mkTab (world t) (searchInput t) v (modal t) (modalTitle t)
    (modalMessage t) (modalOk_onclick t) (inflight t).
Definition set_modal (v : bool) (t : Tab) : Tab :=
  mkTab (world t) (searchInput t) (activeElement t) v (modalTitle t)
    (modalMessage t) (modalOk_onclick t) (inflight t).
Definition set_inflight (v : list Pending) (t : Tab) : Tab :=
  mkTab (world t) (searchInput t) (activeElement t) (modal t) (modalTitle t)
    (modalMessage t) (modalOk_onclick t) v.

(** The number of requests that left between two states. *)
Definition sent (w w' : World) : nat :=
  (List.length (requests w') - List.length (requests w))%nat.

(** A handler that starts no call runs to its end. *)
Definition run {A} (m : M A) (t : Tab) : Tab :=
  set_world (exec m (world t)) t.

(** A stretch of script that may start a call runs to its end or to its
    [await]; for every request it sent, [k] is left waiting. *)
Definition perform {A} (m : M A) (k : Pending) (t : Tab) : Tab :=
  let w' := exec m (world t) in
  set_inflight (inflight t ++ repeat k (sent (world t) w')) (set_world w' t).

(** [hideModal()], [showModal(title, message, onConfirm)] *)
Definition hideModal (t : Tab) : Tab := set_modal false t.

Definition showModal (title message : string) (onConfirm : option Z)
    (t : Tab) : Tab :=
  mkTab (world t) (searchInput t) (activeElement t) true title message
    (match onConfirm with
     | Some id0 => Some id0
     | None => modalOk_onclick t
     end)
    (inflight t).

(** [confirmDeleteTodo(id)] *)
Definition confirmDeleteTodo (id0 : Z) (t : Tab) : Tab :=
  match JsArray.find (fun todo => id todo =? id0) (cache (world t)) with
  | None => t
  | Some todo =>
      showModal "Delete Todo"
        ("Are you sure you want to delete " +:+ dquote +:+ text todo +:+ dquote +:+ "?")
        (Some id0) t
  end.

(** A click on the OK button: the listener of [bindEvents], then the
    [onclick] property, which starts [deleteTodo(id)] and hides the modal
    without waiting for it. *)
Definition click_modalOk (t : Tab) : Tab :=
  let t := hideModal t in
  match modalOk_onclick t with
  | None => t
  | Some id0 => hideModal (perform (deleteTodo_send id0) (InDeleteTodo id0) t)
  end.

(** The submit listener. *)
Definition submit (t : Tab) : Tab :=
  perform handleAddTodo_send InHandleAddTodo t.

(** [handleKeyboardShortcuts(e)] *)
Definition handleKeyboardShortcuts (e : KeyboardEvent) (t : Tab) : Tab :=
  let t :=
    (* Ctrl/Cmd + Enter to add todo *)
    if (ctrlKey e || metaKey e) && String.eqb (key e) "Enter" then
      match activeElement t with
      | TodoInput => submit t     (* dispatchEvent(new Event('submit')) *)
      | _ => t
      end
    else t in
  (* Escape to clear search *)
  if String.eqb (key e) "Escape" then
    match activeElement t with
    | SearchInput =>
        run (bind (modify (set_searchQuery "")) (fun _ => renderTodos))
          (set_searchInput "" t)
    | _ => t
    end
  else t.

(** The rest of the method [k] that waits, given the response; [None]
    when the response is not of the kind the call gets. *)
Definition resume (k : Pending) (a : Arrival) : option (M unit) :=
  match k, a with
  | InLoadTodos, OfTodos r => Some (loadTodos_resume r)
  | InLoadStats, OfStats r => Some (loadStats_resume r)
  | InHandleAddTodo, OfTodo r => Some (handleAddTodo_resume r)
  | InEditTodo id0, OfTodo r => Some (editTodo_resume id0 r)
  | InDeleteTodo id0, OfNothing r => Some (deleteTodo_resume id0 r)
  | InToggleTodo id0, OfTodo r => Some (toggleTodo_resume id0 r)
  | _, _ => None
  end.

(** What the method does besides: [handleAddTodo] ends with
    [this.todoInput.focus()]. *)
Definition finish (k : Pending) (t : Tab) : Tab :=
  match k with
  | InHandleAddTodo => set_activeElement TodoInput t
  | _ => t
  end.

(** The response to the [i]-th call in flight arrives.  Whatever the
    resumed method sends before it ends is a [loadStats()]. *)
Definition arrive (i : nat) (a : Arrival) (t : Tab) : Tab :=
  match inflight t !! i with
  | None => t
  | Some k =>
      match resume k a with
      | None => t
      | Some m =>
          finish k (perform m InLoadStats (set_inflight (delete i (inflight t)) t))
      end
  end.

(** Everything that can happen to the page. *)
Inductive Event :=
| TodoTyped (value : string)                 (* the user edits the todo box *)
| PriorityChosen (value : string)            (* the user picks a priority *)
| Focus (element : Element)                  (* the focus moves *)
| Submit                                     (* todoForm submit *)
| FilterClick (filter : option string)       (* a filter button *)
| SearchTyped (value : string)               (* searchInput input *)
| ModalCloseClick
| ModalOkClick
| ModalClick (target_is_modal : bool)
| KeyDown (e : KeyboardEvent)
| ToggleClick (id0 : Z)                      (* app.toggleTodo(id) *)
| EditClick (id0 : Z) (answer : option string)   (* app.editTodo(id) *)
| DeleteClick (id0 : Z)                      (* app.confirmDeleteTodo(id) *)
| Arrive (i : nat) (a : Arrival)             (* a response *)
| ToastRemoved (i : nat).                    (* toast.remove(): timer or close button *)

Definition on_event (ev : Event) (t : Tab) : Tab :=
  match ev with
  | TodoTyped value => set_world (set_todoInput value (world t)) t
  | PriorityChosen value => set_world (set_prioritySelect value (world t)) t
  | Focus element => set_activeElement element t
  | Submit => submit t
  | FilterClick filter => run (handleFilterChange filter) t
  | SearchTyped value => run (handleSearch value) (set_searchInput value t)
  | ModalCloseClick => hideModal t
  | ModalOkClick => click_modalOk t
  | ModalClick target_is_modal => if target_is_modal then hideModal t else t
  | KeyDown e => handleKeyboardShortcuts e t
  | ToggleClick id0 => perform (toggleTodo_send id0) (InToggleTodo id0) t
  | EditClick id0 answer => perform (editTodo_send id0 answer) (InEditTodo id0) t
  | DeleteClick id0 => confirmDeleteTodo id0 t
  | Arrive i a => arrive i a t
  | ToastRemoved i =>
      set_world (set_toastContainer (delete i (toastContainer (world t))) (world t)) t
  end.

(** The page after a sequence of events. *)
Definition after (evs : list Event) (t : Tab) : Tab :=
  fold_left (fun t ev => on_event ev t) evs t.

(** The page when the constructor returns, on a document [doc]: the two
    calls it started are in flight. *)
Definition load (doc : World) : Tab :=
  mkTab (constructor doc) "" Elsewhere false "" "" None [InLoadTodos; InLoadStats].

End Loop.

Module PageFacts.
Import JsString Client ClientFacts Page.

(** The part of the state the list on screen depends on, and the list. *)
Definition core (w : World) :=
  (heap w, todos w, currentFilter w, searchQuery w, todosList w).

(** A computation that leaves all of that alone. *)
Definition quiet {A} (m : M A) : Prop := forall w, core (exec m w) = core w.

(** The list on screen is the projection of the cache under the filter
    and query in force. *)
Definition in_sync (w : World) : Prop :=
  valid w /\ todosList w = selection w.

(** Hoare triples with a postcondition for normal return and one for a
    throw. *)
Definition triple {A} (P : World -> Prop) (m : M A)
    (Q : A -> World -> Prop) (E : World -> Prop) : Prop :=
  forall w, P w ->
    match m w with
    | (Normal a, w') => Q a w'
    | (Thrown _, w') => E w'
    end.

(** A method never lets an exception out and keeps [P]. *)
Definition keeps (P : World -> Prop) {A} (m : M A) : Prop :=
  triple P m (fun _ => P) (fun _ => False).

(** All characters of [s] are white space. *)
Fixpoint blank (s : string) : bool :=
  match s with
  | EmptyString => true
  | String c s' => is_space c && blank s'
  end.

(** The characters [escapeHtml] rewrites. *)
Definition special (c : ascii) : bool :=
  Ascii.eqb c "&" || Ascii.eqb c "<" || Ascii.eqb c ">" || (code c =? 160)%N.

Fixpoint all_chars (p : ascii -> bool) (s : string) : bool :=
  match s with
  | EmptyString => true
  | String c s' => p c && all_chars p s'
  end.

(** The call came back with a 2xx status and a JSON body. *)
Definition succeeded {A} (r : FetchResult A) : bool :=
  match r with
  | Resolved status (Json _) => ok status
  | _ => false
  end.

(** Some cached record has the id. *)
Definition known (w : World) (id0 : Z) : bool :=
  existsb (fun todo => id todo =? id0) (cache w).

(** The mutation reaches the statements that re-render and ask for the
    stats. *)
Definition refreshes (w : World) (op : Mutation) : bool :=
  match op with
  | Add _ _ r => succeeded r
  | Update id0 _ r => succeeded r && known w id0
  | Delete _ r => succeeded r
  | Toggle id0 r => succeeded r && known w id0
  end.

Definition stats_request : Request := mkRequest "/api/stats" "GET" NoBody.

(** The record passes the status filter [f] and the search query [q]. *)
Definition shows (f q : string) (t : Todo) : bool :=
  (if String.eqb f "completed" then completed t
   else if String.eqb f "pending" then negb (completed t)
   else true)
  && (if truthy q then includes (toLowerCase (text t)) q else true).

(** The success response with [data]. *)
Definition success {A} (status : Z) (data : A) : FetchResult A :=
  Resolved status (Json data).

(** A page around a client state, modal closed, nothing focused. *)
Definition page_of (w : World) : State :=
  mkState w "" Elsewhere false "" "" None.

End PageFacts.

(** Every way a request can go through the layers of the edge server:
    case analysis on what the layers test. *)
Ltac edge_cases site req :=
  destruct (Edge.is_get_or_head (Edge.method req));
  [destruct (Edge.public site (Edge.path req))|];
  destruct (Edge.mounted "/api" (Edge.path req));
  try destruct (Edge.backend site req) eqn:Eb;
  destruct (Edge.decodable (Edge.path req));
  try destruct (Edge.public site "/index.html");
  try destruct (String.eqb (Edge.method req) "OPTIONS");
  cbn [fst snd negb].

(* ===================================================================== *)
(** ** Strings: facts *)
(* ===================================================================== *)

Section StringFacts.
Import JsString.

Lemma lower_char_idem c : lower_char (lower_char c) = lower_char c.
Proof. destruct c as [[] [] [] [] [] [] [] []]; reflexivity. Qed.

Lemma is_space_lower c : is_space (lower_char c) = is_space c.
Proof. destruct c as [[] [] [] [] [] [] [] []]; reflexivity. Qed.

Lemma toLowerCase_idem s : toLowerCase (toLowerCase s) = toLowerCase s.
Proof.
  induction s as [|c s IH]; simpl; [reflexivity|].
  now rewrite lower_char_idem, IH.
Qed.

Lemma toLowerCase_trimStart s :
  toLowerCase (trimStart s) = trimStart (toLowerCase s).
Proof.
  induction s as [|c s IH]; simpl; [reflexivity|].
  rewrite is_space_lower. destruct (is_space c); [exact IH | reflexivity].
Qed.

Lemma is_empty_lower s : is_empty (toLowerCase s) = is_empty s.
Proof. destruct s; reflexivity. Qed.

Lemma toLowerCase_trimEnd s :
  toLowerCase (trimEnd s) = trimEnd (toLowerCase s).
Proof.
  induction s as [|c s IH]; simpl; [reflexivity|].
  rewrite is_space_lower, <- IH, is_empty_lower.
  destruct (is_space c && is_empty (trimEnd s)); reflexivity.
Qed.

Lemma toLowerCase_trim s : toLowerCase (trim s) = trim (toLowerCase s).
Proof. unfold trim. now rewrite toLowerCase_trimEnd, toLowerCase_trimStart. Qed.

Lemma is_empty_true s : is_empty s = true <-> s = "".
Proof. destruct s; simpl; split; congruence. Qed.

Lemma startsWith_spec s q :
  startsWith s q = true <-> exists b, s = q +:+ b.
Proof.
  revert s. induction q as [|c q IH]; intros s; simpl.
  - split; [intros _; now exists s | intros _; destruct s; reflexivity].
  - destruct s as [|a s]; simpl.
    + split; [discriminate | intros [b Hb]; discriminate].
    + rewrite andb_true_iff, IH. split.
      * intros [Hc [b ->]]. apply Ascii.eqb_eq in Hc. subst. now exists b.
      * intros [b Hb]. injection Hb as -> ->. split; [apply Ascii.eqb_refl | now exists b].
Qed.

Lemma includes_unfold s q :
  includes s q =
  startsWith s q ||
  match s with EmptyString => false | String _ s' => includes s' q end.
Proof. destruct s; reflexivity. Qed.

Lemma includes_spec s q :
  includes s q = true <-> exists a b, s = a +:+ q +:+ b.
Proof.
  induction s as [|c s IH]; rewrite includes_unfold.
  - rewrite orb_false_r, startsWith_spec. split.
    + intros [b Hb]. now exists "", b.
    + intros [a [b Hb]]. destruct a; [now exists b | discriminate].
  - rewrite orb_true_iff, startsWith_spec, IH. split.
    + intros [[b Hb] | [a [b ->]]]; [now exists "", b | now exists (String c a), b].
    + intros [a [b Hb]]. destruct a as [|c' a].
      * left. now exists b.
      * right. injection Hb as -> ->. now exists a, b.
Qed.

Lemma includes_empty s : includes s "" = true.
Proof. apply includes_spec. now exists "", s. Qed.

Lemma contains_cib_spec s q : contains_cib s q = true <-> contains_ci s q.
Proof. apply includes_spec. Qed.

End StringFacts.

(* ===================================================================== *)
(** ** Sorting: facts *)
(* ===================================================================== *)

Section SortFacts.
Import JsArray Client.

Variable comparefn : Todo -> Todo -> option Z.

Lemma insert_perm x l : Permutation (x :: l) (insert comparefn x l).
Proof.
  induction l as [|y l IH]; simpl; [reflexivity|].
  destruct (SortCompare comparefn x y <=? 0); [reflexivity|].
  rewrite perm_swap. now apply perm_skip.
Qed.

Lemma sorted_copy_perm l : Permutation l (sorted_copy comparefn l).
Proof.
  induction l as [|x l IH]; simpl; [reflexivity|].
  rewrite <- insert_perm. now apply perm_skip.
Qed.

Lemma sorted_copy_In l t : In t (sorted_copy comparefn l) <-> In t l.
Proof.
  split; apply Permutation_in; [symmetry|]; apply sorted_copy_perm.
Qed.

Lemma sorted_copy_length l : List.length (sorted_copy comparefn l) = List.length l.
Proof. symmetry. apply Permutation_length, sorted_copy_perm. Qed.

(** Moving [x] past elements it never shares [p] with does not disturb
    the [p]-part of the list. *)
Lemma insert_filter (p : Todo -> bool) x l :
  (forall y, In y l -> p x = true -> p y = true ->
             SortCompare comparefn x y <= 0) ->
  List.filter p (insert comparefn x l) = List.filter p (x :: l).
Proof.
  induction l as [|y l IH]; intros Hxy; [reflexivity|].
  simpl insert. destruct (Z.leb_spec (SortCompare comparefn x y) 0) as [Hle|Hgt].
  - reflexivity.
  - assert (Hnot : p x = true -> p y = true -> False).
    { intros Hx Hy. specialize (Hxy y (or_introl eq_refl) Hx Hy). lia. }
    assert (IH' : List.filter p (insert comparefn x l) = List.filter p (x :: l)).
    { apply IH. intros z Hz. apply Hxy. now right. }
    simpl. simpl in IH'. rewrite IH'.
    destruct (p x) eqn:Hx, (p y) eqn:Hy; try reflexivity.
    exfalso. now apply Hnot.
Qed.

End SortFacts.

Section NewestFirst.
Import JsArray Client.

Lemma SortCompare_newest_first x y :
  well_formed x -> well_formed y ->
  SortCompare newest_first x y = created_ms y - created_ms x.
Proof.
  intros [m Hm] [n Hn]. unfold SortCompare, newest_first, created_ms.
  now rewrite Hm, Hn.
Qed.

Lemma insert_newest_first_sorted x l :
  well_formed x -> Forall well_formed l ->
  StronglySorted not_older l ->
  StronglySorted not_older (insert newest_first x l).
Proof.
  intros Hx Hl Hs. induction Hs as [|y l Hs IH Hy]; simpl.
  - repeat constructor.
  - inversion Hl as [|? ? Hwy Hwl]; subst.
    rewrite SortCompare_newest_first by assumption.
    destruct (Z.leb_spec (created_ms y - created_ms x) 0) as [Hle|Hgt].
    + constructor; [now constructor|].
      constructor; [unfold not_older; lia|].
      eapply List.Forall_impl; [|exact Hy]. unfold not_older. intros z Hz. lia.
    + constructor; [now apply IH|].
      eapply Permutation_Forall; [apply insert_perm|].
      constructor; [unfold not_older; lia | exact Hy].
Qed.

Lemma sorted_copy_wf l :
  Forall well_formed l -> Forall well_formed (sorted_copy newest_first l).
Proof. apply Permutation_Forall, sorted_copy_perm. Qed.

Lemma sorted_copy_newest_first_sorted l :
  Forall well_formed l ->
  StronglySorted not_older (sorted_copy newest_first l).
Proof.
  induction 1 as [|x l Hx Hl IH]; simpl; [constructor|].
  apply insert_newest_first_sorted; auto using sorted_copy_wf.
Qed.

(** With pairwise distinct timestamps a descending list descends
    strictly. *)
Lemma not_older_strict l :
  StronglySorted not_older l -> List.NoDup (List.map created_ms l) ->
  StronglySorted newer l.
Proof.
  induction 1 as [|x l Hs IH Hx]; intros Hnd; [constructor|].
  simpl in Hnd. apply List.NoDup_cons_iff in Hnd as [Hnin Hnd].
  constructor; [now apply IH|].
  rewrite List.Forall_forall in Hx |- *. intros y Hy.
  specialize (Hx y Hy). unfold not_older in Hx. unfold newer.
  assert (created_ms y <> created_ms x).
  { intros E. apply Hnin. rewrite <- E. now apply in_map. }
  lia.
Qed.

(** Stability: records created at the same instant keep the order they
    have in the input. *)
Lemma sorted_copy_newest_first_stable ms l :
  Forall well_formed l ->
  List.filter (created_on ms) (sorted_copy newest_first l)
  = List.filter (created_on ms) l.
Proof.
  induction 1 as [|x l Hx Hl IH]; [reflexivity|].
  simpl sorted_copy. rewrite insert_filter.
  - simpl. now rewrite IH.
  - intros y Hy Hpx Hpy.
    assert (Hwy : well_formed y).
    { pose proof (sorted_copy_wf l Hl) as Hw.
      rewrite List.Forall_forall in Hw. now apply Hw. }
    rewrite SortCompare_newest_first by assumption.
    unfold created_on in Hpx, Hpy. lia.
Qed.

End NewestFirst.

(* ===================================================================== *)
(** ** getFilteredTodos: what it returns and what it leaves alone *)
(* ===================================================================== *)

Section GetFilteredTodos.
Import JsString JsArray Client ClientFacts.

Lemma set_heap_same w : set_heap (heap w) w = w.
Proof. now destruct w. Qed.

Lemma read_Some (h : store) a v : h !! a = Some v -> read h a = v.
Proof. unfold read. now intros ->. Qed.

Lemma bind_Normal {A B} (m : M A) (k : A -> M B) w a w' :
  m w = (Normal a, w') -> bind m k w = k a w'.
Proof. unfold bind. now intros ->. Qed.

Lemma bind_Thrown {A B} (m : M A) (k : A -> M B) w e w' :
  m w = (Thrown e, w') -> bind m k w = (Thrown e, w').
Proof. unfold bind. now intros ->. Qed.

(** A new array is new for every store the current one extends. *)
Lemma alloc_extends (h0 h : store) v :
  h0 ⊆ h ->
  h0 !! (alloc h v).1 = None /\
  (alloc h v).2 !! (alloc h v).1 = Some v /\
  h0 ⊆ (alloc h v).2.
Proof.
  intros Hsub. unfold alloc; simpl.
  assert (Hfresh : h !! fresh (dom h) = None).
  { apply not_elem_of_dom, is_fresh. }
  assert (H0 : h0 !! fresh (dom h) = None).
  { destruct (h0 !! fresh (dom h)) eqn:E; [|reflexivity].
    eapply lookup_weaken in E; [|exact Hsub]. rewrite Hfresh in E. discriminate. }
  split; [exact H0|]. split; [apply lookup_insert_eq|].
  transitivity h; [exact Hsub | now apply insert_subseteq].
Qed.

Lemma array_spread_tracks w a :
  tracks w (read (heap w) a) (array_spread a w).
Proof.
  destruct (alloc_extends (heap w) (heap w) (read (heap w) a)) as (N & L & S);
    [reflexivity|].
  exists (alloc (heap w) (read (heap w) a)).1, (alloc (heap w) (read (heap w) a)).2.
  unfold array_spread, spread.
  destruct (alloc (heap w) (read (heap w) a)) as [r h'] eqn:E. simpl in *. auto.
Qed.

Lemma array_filter_tracks p w h a v :
  heap w ⊆ h -> h !! a = Some v ->
  tracks w (List.filter p v) (array_filter p a (set_heap h w)).
Proof.
  intros Hsub Ha.
  destruct (alloc_extends (heap w) h (List.filter p v) Hsub) as (N & L & S).
  exists (alloc h (List.filter p v)).1, (alloc h (List.filter p v)).2.
  unfold array_filter, JsArray.filter. simpl heap. rewrite (read_Some _ _ _ Ha).
  destruct (alloc h (List.filter p v)) as [r h'] eqn:E. simpl in *. auto.
Qed.

Lemma ret_tracks w h r v :
  heap w !! r = None -> h !! r = Some v -> heap w ⊆ h ->
  tracks w v (ret r (set_heap h w)).
Proof. intros. exists r, h. auto. Qed.

Lemma getFilteredTodos_tracks w :
  tracks w (selection w) (getFilteredTodos w).
Proof.
  unfold getFilteredTodos, selection. set (c := cache w).
  (* let filtered = [...this.todos] *)
  destruct (array_spread_tracks w (todos w)) as (r1 & h1 & E1 & N1 & L1 & S1).
  fold (cache w) in L1. fold c in L1.
  change (bind (gets todos) ?k w) with (k (todos w) w). cbv beta.
  rewrite (bind_Normal _ _ _ _ _ E1).
  change (bind (gets currentFilter) ?k (set_heap h1 w)) with (k (currentFilter w) (set_heap h1 w)).
  cbv beta.
  (* status filter *)
  assert (Hstatus : tracks w (by_status (currentFilter w) c)
    ((if String.eqb (currentFilter w) "completed"
      then array_filter (fun todo => completed todo) r1
      else if String.eqb (currentFilter w) "pending"
           then array_filter (fun todo => negb (completed todo)) r1
           else ret r1) (set_heap h1 w))).
  { unfold by_status.
    destruct (String.eqb (currentFilter w) "completed");
      [now apply array_filter_tracks|].
    destruct (String.eqb (currentFilter w) "pending");
      [now apply array_filter_tracks | now apply ret_tracks]. }
  destruct Hstatus as (r2 & h2 & E2 & N2 & L2 & S2).
  rewrite (bind_Normal _ _ _ _ _ E2).
  change (bind (gets searchQuery) ?k (set_heap h2 w)) with (k (searchQuery w) (set_heap h2 w)).
  cbv beta.
  (* search filter *)
  assert (Hsearch : tracks w (by_search (searchQuery w) (by_status (currentFilter w) c))
    ((if truthy (searchQuery w)
      then array_filter
             (fun todo => includes (toLowerCase (text todo)) (searchQuery w)) r2
      else ret r2) (set_heap h2 w))).
  { unfold by_search.
    destruct (truthy (searchQuery w));
      [now apply array_filter_tracks | now apply ret_tracks]. }
  destruct Hsearch as (r3 & h3 & E3 & N3 & L3 & S3).
  rewrite (bind_Normal _ _ _ _ _ E3).
  (* sort in place *)
  exists r3, (<[r3 := sorted_copy newest_first
                     (by_search (searchQuery w) (by_status (currentFilter w) c))]> h3).
  split; [|split; [exact N3 | split; [apply lookup_insert_eq | now apply insert_subseteq_r]]].
  unfold array_sort, modify, bind, ret, sort. simpl.
  now rewrite (read_Some _ _ _ L3).
Qed.
End GetFilteredTodos.

Section Projection.
Import JsString JsArray Client ClientFacts.

Lemma getFilteredTodos_returned w :
  returned getFilteredTodos w = Some (selection w).
Proof.
  destruct (getFilteredTodos_tracks w) as (r & h' & E & _ & L & _).
  unfold returned. rewrite E. simpl. now rewrite (read_Some _ _ _ L).
Qed.

Lemma by_search_empty l : by_search "" l = l.
Proof. reflexivity. Qed.

Lemma cache_world_of l f q : cache (world_of l f q) = l.
Proof. unfold cache, world_of, alloc, read. simpl. now rewrite lookup_insert_eq. Qed.

Lemma valid_world_of l f q : valid (world_of l f q).
Proof.
  unfold valid, world_of, alloc. simpl. apply elem_of_dom.
  rewrite lookup_insert_eq. eauto.
Qed.

Lemma filter_In_iff (p : Todo -> bool) l t :
  In t (List.filter p l) <-> In t l /\ p t = true.
Proof. apply List.filter_In. Qed.

Lemma filter_split (p : Todo -> bool) l :
  Permutation (List.filter p l ++ List.filter (fun t => negb (p t)) l) l.
Proof.
  induction l as [|x l IH]; simpl; [reflexivity|].
  destruct (p x); simpl.
  - now apply perm_skip.
  - rewrite <- Permutation_middle. now apply perm_skip.
Qed.

End Projection.

Section ProjectionProperties.
Import JsString JsArray Client ClientFacts.

(** C1. With filter 'all' and no search query, [getFilteredTodos] returns
    the whole cache of well-formed records, each record exactly once
    (a permutation of the cache), newest first: no record is followed by
    a newer one; when no two records share a timestamp every record is
    strictly newer than all that follow; records that do share one keep
    their cache order. *)
Theorem getFilteredTodos_all_newest_first (w : World) :
  currentFilter w = "all" ->
  searchQuery w = "" ->
  Forall well_formed (cache w) ->
  exists l,
    returned getFilteredTodos w = Some l /\
    Permutation (cache w) l /\
    StronglySorted not_older l /\
    (List.NoDup (List.map created_ms (cache w)) -> StronglySorted newer l) /\
    (forall ms, List.filter (created_on ms) l
                = List.filter (created_on ms) (cache w)).
Proof.
  intros Hf Hq Hwf. exists (selection w).
  split; [apply getFilteredTodos_returned|].
  unfold selection. rewrite Hf, Hq, by_search_empty. simpl by_status.
  split; [apply sorted_copy_perm|].
  split; [now apply sorted_copy_newest_first_sorted|].
  split; [|intros ms; now apply sorted_copy_newest_first_stable].
  intros Hnd. apply not_older_strict.
  - now apply sorted_copy_newest_first_sorted.
  - eapply Permutation_NoDup; [|exact Hnd].
    apply Permutation_map, sorted_copy_perm.
Qed.

Lemma getFilteredTodos_all_newest_first_witness :
  let w := world_of [buy_milk; write_report; call_mom] "all" "" in
  (currentFilter w = "all" /\ searchQuery w = "" /\ Forall well_formed (cache w)) /\
  exists l,
    returned getFilteredTodos w = Some l /\
    Permutation (cache w) l /\
    StronglySorted not_older l /\
    (List.NoDup (List.map created_ms (cache w)) -> StronglySorted newer l) /\
    (forall ms, List.filter (created_on ms) l
                = List.filter (created_on ms) (cache w)).
Proof.
  intros w.
  assert (Hwf : Forall well_formed (cache w)).
  { unfold w. rewrite cache_world_of. repeat constructor; eexists; reflexivity. }
  split; [split; [reflexivity | split; [reflexivity | exact Hwf]]|].
  exact (getFilteredTodos_all_newest_first w eq_refl eq_refl Hwf).
Defined.

(** C2. With no search query, filter 'completed' returns exactly the
    cached records whose [completed] is true and filter 'pending' exactly
    those whose [completed] is false; together the two results make up
    the cache. *)
Theorem getFilteredTodos_status_exact (w : World) :
  searchQuery w = "" ->
  exists done open,
    returned getFilteredTodos (set_currentFilter "completed" w) = Some done /\
    returned getFilteredTodos (set_currentFilter "pending" w) = Some open /\
    Permutation done (List.filter (fun t => completed t) (cache w)) /\
    Permutation open (List.filter (fun t => negb (completed t)) (cache w)) /\
    (forall t, In t done <-> In t (cache w) /\ completed t = true) /\
    (forall t, In t open <-> In t (cache w) /\ completed t = false) /\
    Permutation (done ++ open) (cache w).
Proof.
  intros Hq.
  exists (selection (set_currentFilter "completed" w)),
         (selection (set_currentFilter "pending" w)).
  split; [apply getFilteredTodos_returned|].
  split; [apply getFilteredTodos_returned|].
  unfold selection. simpl. rewrite Hq, !by_search_empty.
  change (cache (set_currentFilter "completed" w)) with (cache w).
  change (cache (set_currentFilter "pending" w)) with (cache w).
  unfold by_status. simpl.
  set (done := List.filter (fun t => completed t) (cache w)).
  set (open := List.filter (fun t => negb (completed t)) (cache w)).
  assert (Pd : Permutation (sorted_copy newest_first done) done)
    by (symmetry; apply sorted_copy_perm).
  assert (Po : Permutation (sorted_copy newest_first open) open)
    by (symmetry; apply sorted_copy_perm).
  split; [exact Pd|]. split; [exact Po|].
  split; [|split].
  - intros t. rewrite sorted_copy_In. apply filter_In_iff.
  - intros t. rewrite sorted_copy_In. subst open. rewrite filter_In_iff.
    now rewrite negb_true_iff.
  - rewrite Pd, Po. apply filter_split.
Qed.

Lemma getFilteredTodos_status_exact_witness :
  let w := world_of [buy_milk; write_report; call_mom] "all" "" in
  searchQuery w = "" /\
  exists done open,
    returned getFilteredTodos (set_currentFilter "completed" w) = Some done /\
    returned getFilteredTodos (set_currentFilter "pending" w) = Some open /\
    Permutation done (List.filter (fun t => completed t) (cache w)) /\
    Permutation open (List.filter (fun t => negb (completed t)) (cache w)) /\
    (forall t, In t done <-> In t (cache w) /\ completed t = true) /\
    (forall t, In t open <-> In t (cache w) /\ completed t = false) /\
    Permutation (done ++ open) (cache w).
Proof.
  intros w. split; [reflexivity|].
  exact (getFilteredTodos_status_exact w eq_refl).
Defined.

End ProjectionProperties.

Section FrameProperties.
Import JsString JsArray Client ClientFacts.

Lemma cache_extends w (h' : store) :
  valid w -> heap w ⊆ h' -> read h' (todos w) = cache w.
Proof.
  intros Hv Hsub. apply elem_of_dom in Hv as [c Hc].
  unfold cache. rewrite (read_Some _ _ _ Hc).
  apply read_Some. eapply lookup_weaken; eauto.
Qed.

Lemma selection_depends w1 w2 :
  cache w1 = cache w2 -> currentFilter w1 = currentFilter w2 ->
  searchQuery w1 = searchQuery w2 -> selection w1 = selection w2.
Proof. unfold selection. now intros -> -> ->. Qed.

(** C8. [getFilteredTodos] returns normally; afterwards the cache, the
    reference [this.todos], the filter and the search query are what they
    were, the state differs from the initial one in the store only, and
    every array that existed keeps its elements.  The list returned is a
    function of cache, filter and query alone: any state that agrees on
    these three returns the same list, and so does a second call. *)
Theorem getFilteredTodos_pure (w : World) :
  valid w ->
  exists r w',
    getFilteredTodos w = (Normal r, w') /\
    cache w' = cache w /\
    todos w' = todos w /\
    currentFilter w' = currentFilter w /\
    searchQuery w' = searchQuery w /\
    set_heap (heap w) w' = w /\
    (forall a l, heap w !! a = Some l -> heap w' !! a = Some l) /\
    (forall w2, cache w2 = cache w -> currentFilter w2 = currentFilter w ->
                searchQuery w2 = searchQuery w ->
                returned getFilteredTodos w2 = Some (read (heap w') r)) /\
    returned getFilteredTodos w' = Some (read (heap w') r).
Proof.
  intros Hv. destruct (getFilteredTodos_tracks w) as (r & h' & E & N & L & S).
  exists r, (set_heap h' w). split; [exact E|].
  assert (Hc : cache (set_heap h' w) = cache w) by exact (cache_extends w h' Hv S).
  split; [exact Hc|]. do 3 (split; [reflexivity|]).
  split; [exact (set_heap_same w)|].
  split; [intros a l Ha; simpl; eapply lookup_weaken; eauto|].
  simpl heap. rewrite (read_Some _ _ _ L).
  split.
  - intros w2 H1 H2 H3. rewrite getFilteredTodos_returned. f_equal.
    now apply selection_depends.
  - rewrite getFilteredTodos_returned. f_equal. now apply selection_depends.
Qed.

Lemma getFilteredTodos_pure_witness :
  let w := world_of [buy_milk; write_report; call_mom] "pending" "m" in
  valid w /\
  exists r w',
    getFilteredTodos w = (Normal r, w') /\
    cache w' = cache w /\
    todos w' = todos w /\
    currentFilter w' = currentFilter w /\
    searchQuery w' = searchQuery w /\
    set_heap (heap w) w' = w /\
    (forall a l, heap w !! a = Some l -> heap w' !! a = Some l) /\
    (forall w2, cache w2 = cache w -> currentFilter w2 = currentFilter w ->
                searchQuery w2 = searchQuery w ->
                returned getFilteredTodos w2 = Some (read (heap w') r)) /\
    returned getFilteredTodos w' = Some (read (heap w') r).
Proof.
  intros w. split; [apply valid_world_of|].
  exact (getFilteredTodos_pure w (valid_world_of _ _ _)).
Defined.

(** C10. Under any filter value other than 'completed' and 'pending',
    [getFilteredTodos] does what it does under 'all': it returns the same
    reference holding the same list, and leaves the same state (up to the
    filter value itself). *)
Theorem getFilteredTodos_unknown_filter (w : World) (f : string) :
  f <> "completed" ->
  f <> "pending" ->
  returned getFilteredTodos (set_currentFilter f w)
  = returned getFilteredTodos (set_currentFilter "all" w) /\
  eval getFilteredTodos (set_currentFilter f w)
  = eval getFilteredTodos (set_currentFilter "all" w) /\
  exec getFilteredTodos (set_currentFilter f w)
  = set_currentFilter f (exec getFilteredTodos (set_currentFilter "all" w)).
Proof.
  intros Hc Hp.
  apply String.eqb_neq in Hc, Hp.
  unfold returned, eval, exec, getFilteredTodos, bind, gets, ret.
  cbn. rewrite Hc, Hp. cbn.
  destruct (truthy (searchQuery w)); cbn; auto.
Qed.

Lemma getFilteredTodos_unknown_filter_witness :
  let w := world_of [buy_milk; write_report; call_mom] "all" "" in
  ("archived" <> "completed" /\ "archived" <> "pending") /\
  returned getFilteredTodos (set_currentFilter "archived" w)
  = returned getFilteredTodos (set_currentFilter "all" w) /\
  eval getFilteredTodos (set_currentFilter "archived" w)
  = eval getFilteredTodos (set_currentFilter "all" w) /\
  exec getFilteredTodos (set_currentFilter "archived" w)
  = set_currentFilter "archived" (exec getFilteredTodos (set_currentFilter "all" w)).
Proof.
  intros w. split; [split; discriminate|].
  apply (getFilteredTodos_unknown_filter w "archived"); discriminate.
Defined.

End FrameProperties.

Section CaseFacts.
Import JsString.

Lemma code_inj c d : code c = code d -> c = d.
Proof.
  unfold code. intros H.
  rewrite <- (ascii_N_embedding c), <- (ascii_N_embedding d). now rewrite H.
Qed.

Lemma code_bound c : (code c < 256)%N.
Proof. apply N_ascii_bounded. Qed.

Lemma capitalb_spec c : capitalb c = true <-> capital c.
Proof.
  unfold capitalb, capital. cbv zeta.
  rewrite !Bool.orb_true_iff, !Bool.andb_true_iff, Bool.negb_true_iff,
    !N.leb_le, N.eqb_neq. lia.
Qed.

Lemma code_lower_char c :
  code (lower_char c) = if capitalb c then (code c + 32)%N else code c.
Proof.
  unfold lower_char. fold (capitalb c).
  destruct (capitalb c) eqn:E; [|reflexivity].
  unfold code at 1. apply N_ascii_embedding.
  apply capitalb_spec in E. unfold capital in E. cbv zeta in E. lia.
Qed.

Lemma same_letter_lower c d :
  same_letter c d <-> lower_char c = lower_char d.
Proof.
  split.
  - intros [-> | [[Hc Hd] | [Hd Hc]]]; [reflexivity| |];
      apply code_inj; rewrite !code_lower_char.
    + assert (Hn : capitalb d = false).
      { destruct (capitalb d) eqn:E; [|reflexivity].
        apply capitalb_spec in E. unfold capital in *. cbv zeta in *. lia. }
      apply capitalb_spec in Hc. now rewrite Hc, Hn.
    + assert (Hn : capitalb c = false).
      { destruct (capitalb c) eqn:E; [|reflexivity].
        apply capitalb_spec in E. unfold capital in *. cbv zeta in *. lia. }
      apply capitalb_spec in Hd. now rewrite Hd, Hn.
  - intros H. apply (f_equal code) in H. rewrite !code_lower_char in H.
    pose proof (code_bound c). pose proof (code_bound d).
    destruct (capitalb c) eqn:Ec, (capitalb d) eqn:Ed.
    + left. apply code_inj. lia.
    + right. left. split; [now apply capitalb_spec | lia].
    + right. right. split; [now apply capitalb_spec | lia].
    + left. now apply code_inj.
Qed.

Lemma same_letters_lower m q :
  same_letters m q <-> toLowerCase m = toLowerCase q.
Proof.
  revert q. induction m as [|c m IH]; intros [|d q]; simpl;
    try (split; [intros [] | discriminate]); [tauto|].
  rewrite same_letter_lower, IH. split.
  - intros [-> ->]. reflexivity.
  - intros [= H1 H2]. auto.
Qed.

Lemma toLowerCase_app a b : toLowerCase (a +:+ b) = toLowerCase a +:+ toLowerCase b.
Proof. induction a as [|c a IH]; simpl; [reflexivity | now rewrite IH]. Qed.

Lemma toLowerCase_split s a b :
  toLowerCase s = a +:+ b ->
  exists s1 s2, s = s1 +:+ s2 /\ toLowerCase s1 = a /\ toLowerCase s2 = b.
Proof.
  revert s. induction a as [|c a IH]; intros s H.
  - exists "", s. auto.
  - destruct s as [|d s]; [discriminate|]. simpl in H. injection H as Hc H.
    destruct (IH s H) as (s1 & s2 & -> & H1 & H2).
    exists (String d s1), s2. simpl. now rewrite Hc, H1.
Qed.

Lemma occurs_ignoring_case_spec q s :
  occurs_ignoring_case q s <-> contains_ci s q.
Proof.
  unfold occurs_ignoring_case, contains_ci. split.
  - intros (front & m & back & -> & Hm). apply same_letters_lower in Hm.
    exists (toLowerCase front), (toLowerCase back).
    now rewrite !toLowerCase_app, Hm.
  - intros (a & b & H).
    destruct (toLowerCase_split _ _ _ H) as (front & rest & -> & Ha & Hr).
    destruct (toLowerCase_split _ _ _ Hr) as (m & back & -> & Hm & Hb).
    exists front, m, back. split; [reflexivity|]. now apply same_letters_lower.
Qed.

End CaseFacts.

Section TrimFacts.
Import JsString.

Lemma is_space_spec c : is_space c = true <-> white_space c.
Proof.
  unfold is_space, white_space. cbv zeta. simpl In.
  rewrite !Bool.orb_true_iff, !Bool.andb_true_iff, !N.leb_le, !N.eqb_eq. lia.
Qed.

Lemma is_space_false c : is_space c = false <-> ~ white_space c.
Proof. rewrite <- is_space_spec. destruct (is_space c); split; congruence. Qed.

Lemma trimStart_white l s : all_white_space l -> trimStart (l +:+ s) = trimStart s.
Proof.
  induction l as [|c l IH]; simpl; [reflexivity|].
  intros [Hc Hl]. apply is_space_spec in Hc. rewrite Hc. auto.
Qed.

Lemma trimEnd_white r : all_white_space r -> trimEnd r = "".
Proof.
  induction r as [|c r IH]; simpl; [reflexivity|].
  intros [Hc Hr]. apply is_space_spec in Hc. now rewrite Hc, (IH Hr).
Qed.

Lemma app_last_inv c s front d :
  String c s = front +:+ String d "" ->
  (s = "" /\ front = "" /\ c = d) \/
  (exists front', front = String c front' /\ s = front' +:+ String d "").
Proof.
  destruct front as [|e front]; simpl; intros [= -> H].
  - left. auto.
  - right. exists front. auto.
Qed.

Lemma trimEnd_ends q r :
  all_white_space r ->
  (forall front c, q = front +:+ String c "" -> ~ white_space c) ->
  trimEnd (q +:+ r) = q.
Proof.
  intros Hr. induction q as [|c q IH]; intros Hq; simpl.
  - now apply trimEnd_white.
  - rewrite IH.
    + destruct q as [|d q]; simpl; [|now rewrite Bool.andb_false_r].
      assert (Hc : is_space c = false).
      { apply is_space_false. apply (Hq "" c). reflexivity. }
      now rewrite Hc.
    + intros front d ->. apply (Hq (String c front) d). reflexivity.
Qed.

Lemma stripped_unique value q : stripped value q -> q = trim value.
Proof.
  intros (l & r & -> & Hl & Hr & Hfirst & Hlast). unfold trim.
  rewrite (trimStart_white l _ Hl).
  destruct q as [|c q].
  - simpl. clear Hfirst Hlast. induction r as [|c r IH]; simpl; [reflexivity|].
    destruct Hr as [Hc Hr]. apply is_space_spec in Hc. rewrite Hc. auto.
  - assert (Hc : is_space c = false).
    { apply is_space_false. now apply (Hfirst c q). }
    change (trimStart (String c q +:+ r)) with
      (if is_space c then trimStart (q +:+ r) else String c q +:+ r).
    rewrite Hc. symmetry. now apply trimEnd_ends.
Qed.

Lemma trimStart_split s :
  exists l, s = l +:+ trimStart s /\ all_white_space l /\
            (forall c rest, trimStart s = String c rest -> ~ white_space c).
Proof.
  induction s as [|c s (l & Hs & Hl & Hf)].
  - exists "". repeat split; auto. discriminate.
  - simpl. destruct (is_space c) eqn:Ec.
    + exists (String c l). split; [change (String c s = String c (l +:+ trimStart s)); now f_equal|].
      split; [|exact Hf]. split; [now apply is_space_spec | exact Hl].
    + exists "". split; [reflexivity|]. split; [exact I|].
      intros d rest [= <- _]. now apply is_space_false.
Qed.

Lemma trimEnd_split s :
  exists r, s = trimEnd s +:+ r /\ all_white_space r /\
            (forall front c, trimEnd s = front +:+ String c "" -> ~ white_space c).
Proof.
  induction s as [|c s (r & Hs & Hr & Hf)].
  - exists "". repeat split; auto. intros [|? ?] ?; discriminate.
  - simpl. destruct (is_space c && is_empty (trimEnd s)) eqn:E.
    + apply Bool.andb_true_iff in E as [Ec Ee]. apply is_empty_true in Ee.
      rewrite Ee in Hs. simpl in Hs.
      exists (String c r). split; [change (String c s = String c r); now f_equal|].
      split; [split; [now apply is_space_spec | exact Hr]|].
      intros [|? ?] ?; discriminate.
    + exists r. split; [change (String c s = String c (trimEnd s +:+ r)); now f_equal|]. split; [exact Hr|].
      intros front d H. apply app_last_inv in H.
      destruct H as [(He & _ & <-) | (front' & _ & H)]; [|now apply (Hf front')].
      rewrite He in E. simpl in E. rewrite Bool.andb_true_r in E.
      now apply is_space_false.
Qed.

Lemma trimEnd_first s c rest :
  trimEnd s = String c rest -> exists rest', s = String c rest'.
Proof.
  destruct s as [|d s]; simpl; [discriminate|].
  destruct (is_space d && is_empty (trimEnd s)); [discriminate|].
  intros [= -> _]. eauto.
Qed.

Lemma stripped_trim value : stripped value (trim value).
Proof.
  destruct (trimStart_split value) as (l & Hv & Hl & Hfirst).
  destruct (trimEnd_split (trimStart value)) as (r & Hs & Hr & Hlast).
  exists l, r. unfold trim.
  split; [now rewrite <- Hs|]. split; [exact Hl|]. split; [exact Hr|].
  split; [|exact Hlast].
  intros c rest H. destruct (trimEnd_first _ _ _ H) as (rest' & H').
  now apply (Hfirst c rest').
Qed.

End TrimFacts.

Section WideFacts.
Import JsString JsArray Client ClientFacts.

(** On Latin-1 strings the wide methods are those of [JsString]. *)
Lemma lower_wide before s :
  Wide.lower before (Wide.wide s) = Wide.wide (toLowerCase s).
Proof.
  revert before. induction s as [|c s IH]; intros before; [reflexivity|].
  simpl. now rewrite IH.
Qed.

Lemma toLowerCase_wide s :
  Wide.toLowerCase (Wide.wide s) = Wide.wide (toLowerCase s).
Proof. apply lower_wide. Qed.

Lemma trimStart_wide s : Wide.trimStart (Wide.wide s) = Wide.wide (trimStart s).
Proof.
  induction s as [|c s IH]; [reflexivity|].
  simpl. destruct (is_space c); [exact IH | reflexivity].
Qed.

Lemma trimEnd_wide s : Wide.trimEnd (Wide.wide s) = Wide.wide (trimEnd s).
Proof.
  induction s as [|c s IH]; [reflexivity|].
  simpl. rewrite IH. destruct (trimEnd s); simpl;
    destruct (is_space c); reflexivity.
Qed.

Lemma trim_wide s : Wide.trim (Wide.wide s) = Wide.wide (trim s).
Proof. unfold Wide.trim, trim. now rewrite trimStart_wide, trimEnd_wide. Qed.

Lemma eqb_wide a b : Wide.eqb (Wide.Latin1 a) (Wide.Latin1 b) = Ascii.eqb a b.
Proof.
  unfold Wide.eqb. simpl. destruct (Ascii.eqb_spec a b) as [-> | Hne].
  - apply N.eqb_refl.
  - apply N.eqb_neq. intros H. apply Hne. now apply code_inj.
Qed.

Lemma startsWith_wide s q :
  Wide.startsWith (Wide.wide s) (Wide.wide q) = startsWith s q.
Proof.
  revert s. induction q as [|b q IH]; intros [|a s]; try reflexivity.
  simpl. now rewrite eqb_wide, IH.
Qed.

Lemma includes_wide s q :
  Wide.includes (Wide.wide s) (Wide.wide q) = includes s q.
Proof.
  induction s as [|a s IH].
  - rewrite includes_unfold. change (Wide.includes (Wide.wide "") (Wide.wide q))
      with (Wide.startsWith (Wide.wide "") (Wide.wide q) || false).
    now rewrite startsWith_wide.
  - rewrite (includes_unfold (String a s)), <- IH, <- startsWith_wide. reflexivity.
Qed.

(** So the test [getFilteredTodos] applies to a Latin-1 text under a
    Latin-1 input is the same in both models. *)
Lemma search_test_wide s value :
  Wide.includes (Wide.toLowerCase (Wide.wide s)) (Wide.handleSearch (Wide.wide value))
  = includes (toLowerCase s) (trim (toLowerCase value)).
Proof.
  unfold Wide.handleSearch.
  now rewrite !toLowerCase_wide, trim_wide, includes_wide.
Qed.

Lemma truthy_wide q : Wide.truthy (Wide.wide q) = truthy q.
Proof. now destruct q. Qed.

Lemma filter_widen (p : Todo -> bool) (p' : Wide.Todo -> bool) l :
  (forall t, p' (widen t) = p t) ->
  List.filter p' (List.map widen l) = List.map widen (List.filter p l).
Proof.
  intros H. induction l as [|x l IH]; [reflexivity|].
  simpl. rewrite H, IH. now destruct (p x).
Qed.

Lemma insert_widen x l :
  Wide.insert (widen x) (List.map widen l)
  = List.map widen (insert newest_first x l).
Proof.
  induction l as [|y l IH]; [reflexivity|].
  simpl. unfold SortCompare, newest_first. cbn [Wide.created_at widen].
  destruct (match date_minus (created_at y) (created_at x) with
            | Some v => v | None => 0 end <=? 0); [reflexivity|].
  simpl. now rewrite IH.
Qed.

Lemma sorted_copy_widen l :
  foldr Wide.insert [] (List.map widen l)
  = List.map widen (sorted_copy newest_first l).
Proof.
  induction l as [|x l IH]; [reflexivity|].
  simpl. rewrite IH. apply insert_widen.
Qed.

(** On a Latin-1 cache under a Latin-1 query, the wide [getFilteredTodos]
    returns what the one of [Client] returns. *)
Lemma getFilteredTodos_wide w :
  Wide.getFilteredTodos (List.map widen (cache w)) (currentFilter w)
    (Wide.wide (searchQuery w))
  = List.map widen (selection w).
Proof.
  unfold Wide.getFilteredTodos, selection. rewrite <- sorted_copy_widen. f_equal.
  rewrite truthy_wide. unfold by_search, by_status.
  assert (Hs : forall (l : list Todo),
             List.filter
               (fun todo => Wide.includes (Wide.toLowerCase (Wide.text todo))
                              (Wide.wide (searchQuery w)))
               (List.map widen l)
             = List.map widen
                 (List.filter
                    (fun todo => includes (toLowerCase (text todo)) (searchQuery w)) l)).
  { intros l. apply filter_widen. intros t. cbn [Wide.text widen].
    now rewrite toLowerCase_wide, includes_wide. }
  destruct (String.eqb (currentFilter w) "completed");
    [|destruct (String.eqb (currentFilter w) "pending")];
    rewrite ?(filter_widen (fun todo => completed todo)) by reflexivity;
    rewrite ?(filter_widen (fun todo => negb (completed todo))) by reflexivity;
    destruct (truthy (searchQuery w)); try reflexivity; apply Hs.
Qed.

End WideFacts.

Section SearchProperties.
Import JsString JsArray Client ClientFacts.

(** What [renderTodos] changes: the list shown, the empty-state marker,
    and the store, which only grows. *)
Lemma renderTodos_run w :
  exists h',
    heap w ⊆ h' /\
    renderTodos w =
    (Normal tt,
     set_todosList (selection w)
       (set_emptyState
          (if Nat.eqb (List.length (selection w)) 0 then "block" else "none")
          (set_heap h' w))).
Proof.
  destruct (getFilteredTodos_tracks w) as (r & h' & E & N & L & S).
  exists h'. split; [exact S|].
  unfold renderTodos. rewrite (bind_Normal _ _ _ _ _ E).
  unfold array_read, bind, gets. cbn [heap set_heap]. rewrite (read_Some _ _ _ L).
  destruct (selection w) as [|x l]; reflexivity.
Qed.

Lemma by_search_filter q l :
  by_search q l
  = List.filter (fun todo => includes (toLowerCase (text todo)) q) l.
Proof.
  unfold by_search, truthy. destruct q as [|c q]; simpl; [|reflexivity].
  induction l as [|x l IH]; [reflexivity|].
  simpl. rewrite includes_empty. now rewrite <- IH.
Qed.

Lemma stored_query_matches value s :
  includes (toLowerCase s) (trim (toLowerCase value))
  = contains_cib s (trim value).
Proof. unfold contains_cib. now rewrite toLowerCase_trim. Qed.

(** The test the code applies to a text decides [occurs_ignoring_case]
    for the trimmed input. *)
Lemma stored_query_decides value s :
  includes (toLowerCase s) (trim (toLowerCase value)) = true
  <-> occurs_ignoring_case (trim value) s.
Proof.
  now rewrite stored_query_matches, contains_cib_spec, occurs_ignoring_case_spec.
Qed.




End SearchProperties.

(* ===================================================================== *)
(** ** The mutating methods *)
(* ===================================================================== *)

Section MutationFacts.
Import JsString JsArray Client ClientFacts.

(** The state a failed call leaves: request sent, error logged and
    toasted, overlay hidden again. *)
Lemma apiCall_failed {A} endpoint method body (r : FetchResult A) w :
  failed r ->
  apiCall endpoint method body r w =
  (Thrown (error_of r),
   set_loadingOverlay false
     (set_toastContainer
        (toastContainer w ++ [mkToast ("Error: " +:+ message (error_of r)) "error"])
        (set_console (console w ++ [("API Error:", error_of r)])
           (set_requests (requests w ++ [mkRequest (apiBase +:+ endpoint) method body])
              (set_loadingOverlay true w))))).
Proof.
  intros Hf. destruct r as [msg | status [data | msg]]; simpl in Hf.
  - reflexivity.
  - unfold apiCall, apiCall_send, apiCall_settle, bind, try_finally, try_catch,
      error_of. simpl. rewrite Hf. reflexivity.
  - unfold apiCall, apiCall_send, apiCall_settle, bind, try_finally, try_catch,
      error_of. simpl. destruct (ok status); reflexivity.
Qed.

(** The state a successful call leaves. *)
Lemma apiCall_succeeded {A} endpoint method body status (data : A) w :
  ok status = true ->
  apiCall endpoint method body (Resolved status (Json data)) w =
  (Normal data,
   set_loadingOverlay false
     (set_requests (requests w ++ [mkRequest (apiBase +:+ endpoint) method body])
        (set_loadingOverlay true w))).
Proof.
  intros Hok.
  unfold apiCall, apiCall_send, apiCall_settle, bind, try_finally, try_catch.
  simpl. rewrite Hok. reflexivity.
Qed.

Lemma try_catch_Thrown {A} (m : M A) handler w e w' :
  m w = (Thrown e, w') -> try_catch m handler w = handler e w'.
Proof. unfold try_catch. now intros ->. Qed.

Lemma try_catch_Normal {A} (m : M A) handler w a w' :
  m w = (Normal a, w') -> try_catch m handler w = (Normal a, w').
Proof. unfold try_catch. now intros ->. Qed.

Lemma findIndex_absent (p : Todo -> bool) l :
  (forall x, In x l -> p x = false) -> findIndex p l = -1.
Proof.
  induction l as [|x l IH]; intros H; [reflexivity|].
  simpl. rewrite (H x (or_introl eq_refl)).
  rewrite IH; [reflexivity|]. intros y Hy. apply H. now right.
Qed.

Lemma findIndex_range (p : Todo -> bool) l :
  -1 <= findIndex p l < Z.of_nat (List.length l).
Proof.
  induction l as [|x l IH]; simpl; [lia|].
  destruct (p x); [lia|].
  destruct (Z.eqb_spec (findIndex p l) (-1)); lia.
Qed.

(** The complete state a mutating method leaves when its call fails. *)
Lemma perform_failed w op :
  call_failed op ->
  exists label,
    perform op w =
    (Normal tt,
     mkWorld (heap w) (todos w) (currentFilter w) (searchQuery w) (todoInput w)
       (prioritySelect w) (todosList w) (emptyState w) (shownStats w)
       false
       (toastContainer w
          ++ [mkToast ("Error: " +:+ message (call_error op)) "error"])
       (requests w ++ [request_of op])
       (console w ++ [("API Error:", call_error op); (label, call_error op)])).
Proof.
  intros Hf.
  destruct op as [text priority r | id0 updates r | id0 r | id0 r];
    simpl in Hf; unfold perform.
  - exists "Failed to add todo:". unfold addTodo.
    erewrite bind_Normal; [reflexivity|].
    erewrite try_catch_Thrown
      by (apply bind_Thrown; apply apiCall_failed; exact Hf).
    unfold bind, console_error, modify, ret. simpl.
    now rewrite <- app_assoc.
  - exists "Failed to update todo:". unfold updateTodo.
    erewrite bind_Normal; [reflexivity|].
    erewrite try_catch_Thrown
      by (apply bind_Thrown; apply apiCall_failed; exact Hf).
    unfold bind, console_error, modify, ret. simpl.
    now rewrite <- app_assoc.
  - exists "Failed to delete todo:". unfold deleteTodo.
    erewrite try_catch_Thrown
      by (apply bind_Thrown; apply apiCall_failed; exact Hf).
    unfold console_error, modify. simpl.
    now rewrite <- app_assoc.
  - exists "Failed to toggle todo:". unfold toggleTodo.
    erewrite try_catch_Thrown
      by (apply bind_Thrown; apply apiCall_failed; exact Hf).
    unfold console_error, modify. simpl.
    now rewrite <- app_assoc.
Qed.

End MutationFacts.

Section MutationProperties.
Import JsString JsArray Client ClientFacts.

(** C4. When the input is empty after trimming, [handleAddTodo] only
    appends the toast 'Please enter a todo text': the resulting state is
    the initial one with that toast added, so no request has been sent
    and the cache, like everything else, is untouched. *)
Theorem handleAddTodo_blank_rejected (w : World) (r : FetchResult Todo) :
  trim (todoInput w) = "" ->
  handleAddTodo r w =
  (Normal tt,
   set_toastContainer
     (toastContainer w ++ [mkToast "Please enter a todo text" "error"]) w) /\
  requests (exec (handleAddTodo r) w) = requests w /\
  cache (exec (handleAddTodo r) w) = cache w /\
  heap (exec (handleAddTodo r) w) = heap w.
Proof.
  intros Hblank.
  assert (E : handleAddTodo r w =
    (Normal tt,
     set_toastContainer
       (toastContainer w ++ [mkToast "Please enter a todo text" "error"]) w)).
  { unfold handleAddTodo, bind, gets. rewrite Hblank. reflexivity. }
  unfold exec. rewrite E. auto.
Qed.

Lemma handleAddTodo_blank_rejected_witness :
  let w := set_todoInput "   " (world_of [buy_milk] "all" "") in
  let r := Resolved 201 (Json call_mom) in
  trim (todoInput w) = "" /\
  (handleAddTodo r w =
   (Normal tt,
    set_toastContainer
      (toastContainer w ++ [mkToast "Please enter a todo text" "error"]) w) /\
   requests (exec (handleAddTodo r) w) = requests w /\
   cache (exec (handleAddTodo r) w) = cache w /\
   heap (exec (handleAddTodo r) w) = heap w).
Proof.
  intros w r. split; [reflexivity|].
  exact (handleAddTodo_blank_rejected w r eq_refl).
Defined.

(** C5. If the call of a mutating method fails (transport error, status
    outside 200-299, or a body that is not JSON), the method ends without
    throwing and the cache is what it was: neither the store nor
    [this.todos] nor the rendered list has changed.  The one request was
    sent, and the error is reported by one toast. *)
Theorem failed_call_keeps_cache (w : World) (op : Mutation) :
  call_failed op ->
  let w' := exec (perform op) w in
  eval (perform op) w = Normal tt /\
  cache w' = cache w /\
  heap w' = heap w /\
  todos w' = todos w /\
  todosList w' = todosList w /\
  requests w' = requests w ++ [request_of op] /\
  toastContainer w' =
    toastContainer w ++ [mkToast ("Error: " +:+ message (call_error op)) "error"].
Proof.
  intros Hf w'. subst w'.
  destruct (perform_failed w op Hf) as [label E].
  unfold exec, eval. rewrite E. repeat split; reflexivity.
Qed.

Lemma failed_call_keeps_cache_witness :
  let w := world_of [buy_milk; write_report] "all" "" in
  let op := Toggle 1 (Resolved 503 (Json buy_milk)) in
  let w' := exec (perform op) w in
  call_failed op /\
  (eval (perform op) w = Normal tt /\
   cache w' = cache w /\
   heap w' = heap w /\
   todos w' = todos w /\
   todosList w' = todosList w /\
   requests w' = requests w ++ [request_of op] /\
   toastContainer w' =
     toastContainer w ++ [mkToast ("Error: " +:+ message (call_error op)) "error"]).
Proof.
  intros w op w'. split; [reflexivity|].
  exact (failed_call_keeps_cache w op eq_refl).
Defined.

End MutationProperties.

Section UnknownIdProperties.
Import JsString JsArray Client ClientFacts.

Lemma findIndex_unknown_id id0 l :
  (forall x, In x l -> id x <> id0) ->
  findIndex (fun todo => id todo =? id0) l = -1.
Proof.
  intros H. apply findIndex_absent. intros x Hx.
  apply Z.eqb_neq. now apply H.
Qed.

(** C9. When no cached record has the id, a successful [updateTodo] or
    [toggleTodo] leaves the cache as it was (store, [this.todos] and the
    rendered list included): the record the server returned is not put
    into the cache.  [updateTodo] still returns it, both methods still
    toast success, and no stats request follows. *)
Theorem unknown_id_keeps_cache (w : World) (id0 : Z) (updates : Updates)
    (status : Z) (t : Todo) :
  ok status = true ->
  (forall x, In x (cache w) -> id x <> id0) ->
  let r := Resolved status (Json t) in
  let wu := exec (updateTodo id0 updates r) w in
  let wt := exec (toggleTodo id0 r) w in
  (cache wu = cache w /\ heap wu = heap w /\ todos wu = todos w /\
   todosList wu = todosList w /\
   eval (updateTodo id0 updates r) w = Normal (Some t) /\
   requests wu = requests w ++ [request_of (Update id0 updates r)] /\
   toastContainer wu =
     toastContainer w ++ [mkToast "Todo updated successfully!" "success"]) /\
  (cache wt = cache w /\ heap wt = heap w /\ todos wt = todos w /\
   todosList wt = todosList w /\
   eval (toggleTodo id0 r) w = Normal tt /\
   requests wt = requests w ++ [request_of (Toggle id0 r)] /\
   toastContainer wt =
     toastContainer w
     ++ [mkToast ("Todo " +:+ (if completed t then "completed" else "reopened") +:+ "!")
           "success"]).
Proof.
  intros Hok Hnone r wu wt.
  pose proof (findIndex_unknown_id id0 (cache w) Hnone) as Hidx.
  split.
  - assert (E : updateTodo id0 updates r w =
      (Normal (Some t),
       set_toastContainer
         (toastContainer w ++ [mkToast "Todo updated successfully!" "success"])
         (set_loadingOverlay false
            (set_requests (requests w ++ [request_of (Update id0 updates r)])
               w)))).
    { unfold updateTodo. erewrite try_catch_Normal; [reflexivity|].
      erewrite bind_Normal by (apply apiCall_succeeded; exact Hok).
      unfold bind at 1, gets at 1.
      match goal with
      | |- context [cache ?x] => change (cache x) with (cache w)
      end.
      rewrite Hidx. reflexivity. }
    subst wu. unfold exec, eval. rewrite E. repeat split; reflexivity.
  - assert (E : toggleTodo id0 r w =
      (Normal tt,
       set_toastContainer
         (toastContainer w
          ++ [mkToast ("Todo " +:+ (if completed t then "completed" else "reopened") +:+ "!")
                "success"])
         (set_loadingOverlay false
            (set_requests (requests w ++ [request_of (Toggle id0 r)])
               w)))).
    { unfold toggleTodo. erewrite try_catch_Normal; [reflexivity|].
      erewrite bind_Normal by (apply apiCall_succeeded; exact Hok).
      unfold bind at 1, gets at 1.
      match goal with
      | |- context [cache ?x] => change (cache x) with (cache w)
      end.
      rewrite Hidx. reflexivity. }
    subst wt. unfold exec, eval. rewrite E. repeat split; reflexivity.
Qed.

Lemma unknown_id_keeps_cache_witness :
  let w := world_of [buy_milk; write_report] "all" "" in
  let r := Resolved 200 (Json call_mom) in
  let wu := exec (updateTodo 3 (mkUpdates (Some "call dad") None None) r) w in
  let wt := exec (toggleTodo 3 r) w in
  (ok 200 = true /\ forall x, In x (cache w) -> id x <> 3) /\
  (cache wu = cache w /\ cache wt = cache w).
Proof.
  intros w r wu wt.
  assert (Hnone : forall x, In x (cache w) -> id x <> 3).
  { unfold w. rewrite cache_world_of. intros x [<- | [<- | []]]; discriminate. }
  split; [split; [reflexivity | exact Hnone]|].
  destruct (unknown_id_keeps_cache w 3 (mkUpdates (Some "call dad") None None)
              200 call_mom eq_refl Hnone) as [[Hu _] [Ht _]].
  split; [exact Hu | exact Ht].
Defined.

End UnknownIdProperties.

(* ===================================================================== *)
(** ** The edge server: facts *)
(* ===================================================================== *)

Section EdgeProperties.
Import JsString Edge.

(** A request the static layer passes on and the prefix does not cover
    reaches the catch-all route. *)
Lemma handle_unmatched site req :
  public site (path req) = None ->
  mounted "/api" (path req) = false ->
  handle site req =
  if negb (decodable (path req)) then
    (SendJson 500 [("error", "Something went wrong!")],
     [ConsoleError "Server Error:" ("Failed to decode param '" +:+ path req +:+ "'")])
  else if is_get_or_head (method req) then
    match public site "/index.html" with
    | Some content => (SendFile content, [])
    | None => (SendJson 500 [("error", "Something went wrong!")],
               [ConsoleError "Server Error:" "ENOENT"])
    end
  else if String.eqb (method req) "OPTIONS" then (Allow ["GET"; "HEAD"], [])
  else (Final 404, []).
Proof.
  intros Hfile Hapi.
  unfold handle, app, dispatch, express_static, use_at, get_any, send_index.
  rewrite Hfile, Hapi.
  destruct (decodable (path req)); cbn [negb];
    [|destruct (is_get_or_head (method req)); reflexivity].
  destruct (is_get_or_head (method req)).
  - destruct (public site "/index.html"); reflexivity.
  - destruct (String.eqb (method req) "OPTIONS"); reflexivity.
Qed.

(** A request under the prefix that the static layer passes on is handed
    to the proxy, whatever its method. *)
Lemma handle_proxied site req :
  fst (express_static site req) = Next ->
  mounted "/api" (path req) = true ->
  handle site req =
  match backend site req with
  | inr answer => (Relay answer, [Connect req (inr answer)])
  | inl err => (SendJson 500 unavailable,
                [Connect req (inl err); ConsoleError "Proxy Error:" err])
  end.
Proof.
  intros Hstatic Hapi.
  unfold handle, app, dispatch, use_at, proxy, onError.
  rewrite Hapi. revert Hstatic. unfold express_static.
  destruct (is_get_or_head (method req)); [destruct (public site (path req))|];
    simpl; try discriminate; intros _; destruct (backend site req); reflexivity.
Qed.

Lemma handle_static site req content :
  express_static site req = (Done (SendFile content), []) ->
  handle site req = (SendFile content, []).
Proof. intros H. unfold handle, app, dispatch. now rewrite H. Qed.




(** C7. Whenever handling a request under [/api] led to a connection
    attempt that failed, the answer is status 500 with the one payload
    [unavailable], the same for every request and every error; the error
    message only goes to the log. *)
Theorem proxy_failure_fixed_error (site : Site) (req : Request) (err : string) :
  mounted "/api" (path req) = true ->
  connection site req = Some (inl err) ->
  response site req = SendJson 500 unavailable /\
  is_5xx (response site req) = true /\
  snd (handle site req) = [Connect req (inl err); ConsoleError "Proxy Error:" err].
Proof.
  intros Hapi Hconn. unfold connection, response in *.
  destruct (express_static site req) as [p log] eqn:Hs.
  assert (Hcases : (exists content, p = Done (SendFile content) /\ log = [])
                   \/ (p = Next /\ log = [])).
  { revert Hs. unfold express_static.
    destruct (is_get_or_head (method req)); [destruct (public site (path req))|];
      intros [= <- <-]; eauto. }
  destruct Hcases as [[content [-> ->]] | [-> ->]].
  - rewrite (handle_static _ _ _ Hs) in Hconn. discriminate.
  - rewrite handle_proxied in * by (try rewrite Hs; auto).
    destruct (backend site req) as [e | answer]; simpl in Hconn.
    + injection Hconn as ->. auto.
    + discriminate.
Qed.

Lemma proxy_failure_fixed_error_witness :
  (mounted "/api" (path get_api_todos) = true /\
   connection demo_site get_api_todos
   = Some (inl "connect ECONNREFUSED 127.0.0.1:5000")) /\
  response demo_site get_api_todos = SendJson 500 unavailable /\
  is_5xx (response demo_site get_api_todos) = true /\
  snd (handle demo_site get_api_todos)
  = [Connect get_api_todos (inl "connect ECONNREFUSED 127.0.0.1:5000");
     ConsoleError "Proxy Error:" "connect ECONNREFUSED 127.0.0.1:5000"].
Proof.
  split; [split; reflexivity|].
  exact (proxy_failure_fixed_error demo_site get_api_todos
           "connect ECONNREFUSED 127.0.0.1:5000" eq_refl eq_refl).
Defined.

End EdgeProperties.

(* ===================================================================== *)
(** ** An invariant: [this.todos] always refers to an array *)
(* ===================================================================== *)

Section Invariant.
Import JsString JsArray Client ClientFacts.

Lemma steady_ret {A} (a : A) : steady (ret a).
Proof. intros w Hv. exact Hv. Qed.

Lemma steady_gets {A} (f : World -> A) : steady (gets f).
Proof. intros w Hv. exact Hv. Qed.

Lemma steady_throw {A} e : steady (@throw A e).
Proof. intros w Hv. exact Hv. Qed.

Lemma steady_bind {A B} (m : M A) (k : A -> M B) :
  steady m -> (forall a, steady (k a)) -> steady (bind m k).
Proof.
  intros Hm Hk w Hv. specialize (Hm w Hv). unfold exec, bind in *.
  destruct (m w) as [[a | e] w']; simpl in *; [now apply Hk | exact Hm].
Qed.

Lemma steady_try_catch {A} (m : M A) handler :
  steady m -> (forall e, steady (handler e)) -> steady (try_catch m handler).
Proof.
  intros Hm Hh w Hv. specialize (Hm w Hv). unfold exec, try_catch in *.
  destruct (m w) as [[a | e] w']; simpl in *; [exact Hm | now apply Hh].
Qed.

Lemma steady_try_finally {A} (m : M A) f :
  steady m -> steady f -> steady (try_finally m f).
Proof.
  intros Hm Hf w Hv. specialize (Hm w Hv). unfold exec, try_finally in *.
  destruct (m w) as [o w']; simpl in *. specialize (Hf w' Hm). unfold exec in Hf.
  destruct (f w') as [[u | e] w'']; exact Hf.
Qed.

(** Writes that touch neither the store nor [this.todos]. *)
Lemma steady_modify (f : World -> World) :
  (forall w, heap (f w) = heap w /\ todos (f w) = todos w) -> steady (modify f).
Proof.
  intros Hf w Hv. unfold valid, exec, modify in *. simpl.
  destruct (Hf w) as [-> ->]. exact Hv.
Qed.

Lemma steady_array_set a i x : steady (array_set a i x).
Proof.
  intros w Hv. unfold valid, exec, array_set, modify, set_index in *. simpl.
  rewrite dom_insert. set_solver.
Qed.

Lemma steady_array_push a x : steady (array_push a x).
Proof.
  intros w Hv. unfold valid, exec, array_push, modify, push in *. simpl.
  rewrite dom_insert. set_solver.
Qed.

(** [this.todos = <a new array>] makes the state valid whatever it was. *)
Lemma rebind_filter_valid p a {B} (k : M B) w :
  steady k ->
  valid (exec (bind (array_filter p a)
                 (fun kept => bind (modify (set_todos kept)) (fun _ => k))) w).
Proof.
  intros Hk. unfold exec, bind, modify, array_filter, JsArray.filter, alloc. simpl.
  apply Hk. unfold valid. simpl. rewrite dom_insert. set_solver.
Qed.

Lemma rebind_new_valid l {B} (k : M B) w :
  steady k ->
  valid (exec (bind (array_new l)
                 (fun a => bind (modify (set_todos a)) (fun _ => k))) w).
Proof.
  intros Hk. unfold exec, bind, modify, array_new, alloc. simpl.
  apply Hk. unfold valid. simpl. rewrite dom_insert. set_solver.
Qed.

Lemma steady_getFilteredTodos : steady getFilteredTodos.
Proof.
  intros w Hv. destruct (getFilteredTodos_tracks w) as (r & h' & E & _ & _ & S).
  unfold exec. rewrite E. unfold valid in *. simpl.
  apply subseteq_dom in S. set_solver.
Qed.

Lemma steady_renderTodos : steady renderTodos.
Proof.
  intros w Hv. destruct (renderTodos_run w) as (h' & S & E).
  unfold exec. rewrite E. unfold valid in *. simpl.
  apply subseteq_dom in S. set_solver.
Qed.

Lemma steady_showToast message type : steady (showToast message type).
Proof. apply steady_modify. intros w. split; reflexivity. Qed.

Lemma steady_console_error label e : steady (console_error label e).
Proof. apply steady_modify. intros w. split; reflexivity. Qed.

Lemma steady_apiCall_send endpoint method body :
  steady (apiCall_send endpoint method body).
Proof.
  apply steady_bind; [|intros _]; apply steady_modify; intros w; split; reflexivity.
Qed.

Lemma steady_apiCall_settle {A} (r : FetchResult A) : steady (apiCall_settle r).
Proof.
  apply steady_try_finally; [|apply steady_modify; intros w; split; reflexivity].
  apply steady_try_catch.
  - destruct r as [msg | status [data | msg]]; try apply steady_throw;
      destruct (negb (ok status)); (apply steady_throw || apply steady_ret).
  - intros e. apply steady_bind; [apply steady_console_error|intros _].
    apply steady_bind; [apply steady_showToast | intros _; apply steady_throw].
Qed.

Lemma steady_apiCall {A} endpoint method body (r : FetchResult A) :
  steady (apiCall endpoint method body r).
Proof.
  apply steady_bind; [apply steady_apiCall_send | intros _; apply steady_apiCall_settle].
Qed.

Lemma steady_loadStats : steady loadStats.
Proof. apply steady_apiCall_send. Qed.

Lemma steady_loadStats_resume r : steady (loadStats_resume r).
Proof.
  apply steady_try_catch; [|intros e; apply steady_console_error].
  apply steady_bind; [apply steady_apiCall_settle|intros stats].
  apply steady_modify. intros w. split; reflexivity.
Qed.

Lemma steady_addTodo text priority r : steady (addTodo text priority r).
Proof.
  apply steady_try_catch.
  - apply steady_bind; [apply steady_apiCall|intros newTodo].
    apply steady_bind; [apply steady_gets|intros this_todos].
    apply steady_bind; [apply steady_array_push|intros _].
    apply steady_bind; [apply steady_renderTodos|intros _].
    apply steady_bind; [apply steady_loadStats|intros _].
    apply steady_bind; [apply steady_showToast | intros _; apply steady_ret].
  - intros e. apply steady_bind; [apply steady_console_error | intros _; apply steady_ret].
Qed.

(** The guarded replacement [updateTodo] and [toggleTodo] share. *)
Lemma steady_replace (index : Z) (t : Todo) :
  steady
    (if negb (index =? -1) then
       bind (gets todos) (fun this_todos =>
       bind (array_set this_todos index t) (fun _ =>
       bind renderTodos (fun _ => loadStats)))
     else ret tt).
Proof.
  destruct (negb (index =? -1)); [|apply steady_ret].
  apply steady_bind; [apply steady_gets|intros this_todos].
  apply steady_bind; [apply steady_array_set|intros _].
  apply steady_bind; [apply steady_renderTodos | intros _; apply steady_loadStats].
Qed.

Lemma steady_updateTodo id0 updates r : steady (updateTodo id0 updates r).
Proof.
  apply steady_try_catch.
  - apply steady_bind; [apply steady_apiCall|intros t].
    apply steady_bind; [apply steady_gets|intros index].
    apply steady_bind; [apply steady_replace|intros _].
    apply steady_bind; [apply steady_showToast | intros _; apply steady_ret].
  - intros e. apply steady_bind; [apply steady_console_error | intros _; apply steady_ret].
Qed.

Lemma steady_toggleTodo id0 r : steady (toggleTodo id0 r).
Proof.
  apply steady_try_catch.
  - apply steady_bind; [apply steady_apiCall|intros t].
    apply steady_bind; [apply steady_gets|intros index].
    apply steady_bind; [apply steady_replace|intros _].
    apply steady_showToast.
  - intros e. apply steady_console_error.
Qed.

Lemma steady_deleteTodo id0 r : steady (deleteTodo id0 r).
Proof.
  apply steady_try_catch; [|intros e; apply steady_console_error].
  apply steady_bind; [apply steady_apiCall|intros _].
  apply steady_bind; [apply steady_gets|intros this_todos].
  intros w _. apply rebind_filter_valid.
  apply steady_bind; [apply steady_renderTodos|intros _].
  apply steady_bind; [apply steady_loadStats | intros _; apply steady_showToast].
Qed.

Lemma steady_loadTodos r : steady (loadTodos r).
Proof.
  apply steady_try_catch; [|intros e; apply steady_console_error].
  apply steady_bind; [apply steady_apiCall|intros data].
  intros w _. apply rebind_new_valid.
  apply steady_bind; [apply steady_renderTodos | intros _; apply steady_loadStats].
Qed.

Lemma steady_handleAddTodo r : steady (handleAddTodo r).
Proof.
  apply steady_bind; [apply steady_gets|intros text].
  apply steady_bind; [apply steady_gets|intros priority].
  destruct (negb (truthy text)); [apply steady_showToast|].
  apply steady_bind; [apply steady_addTodo|intros _].
  apply steady_bind; [|intros _]; apply steady_modify; intros w; split; reflexivity.
Qed.

Lemma steady_handleSearch value : steady (handleSearch value).
Proof.
  apply steady_bind; [|intros _; apply steady_renderTodos].
  apply steady_modify; intros w; split; reflexivity.
Qed.

Lemma steady_handleFilterChange filter : steady (handleFilterChange filter).
Proof.
  destruct filter as [f|]; [|apply steady_ret]. simpl.
  destruct (negb (truthy f)); [apply steady_ret|].
  apply steady_bind; [|intros _; apply steady_renderTodos].
  apply steady_modify; intros w; split; reflexivity.
Qed.

Lemma steady_editTodo id0 answer r : steady (editTodo id0 answer r).
Proof.
  apply steady_bind; [apply steady_gets|intros found].
  destruct found as [todo|]; [|apply steady_ret].
  destruct answer as [newText|]; [|apply steady_ret].
  destruct (truthy newText && negb (String.eqb (trim newText) (text todo)));
    [|apply steady_ret].
  apply steady_bind; [apply steady_updateTodo | intros _; apply steady_ret].
Qed.

(** Every method keeps the invariant, whatever the network answers. *)
Lemma steady_perform op : steady (perform op).
Proof.
  destruct op; simpl.
  - apply steady_bind; [apply steady_addTodo | intros _; apply steady_ret].
  - apply steady_bind; [apply steady_updateTodo | intros _; apply steady_ret].
  - apply steady_deleteTodo.
  - apply steady_toggleTodo.
Qed.

(** A pending [loadStats] resumes without touching store or cache. *)
Lemma loadStats_resume_keeps_cache r w :
  heap (exec (loadStats_resume r) w) = heap w /\
  todos (exec (loadStats_resume r) w) = todos w /\
  cache (exec (loadStats_resume r) w) = cache w.
Proof.
  unfold exec, loadStats_resume, apiCall_settle, try_catch, try_finally, bind.
  destruct r as [msg | status [data | msg]]; simpl;
    try destruct (ok status); simpl; auto.
Qed.

End Invariant.

(* ===================================================================== *)
(** ** The mutating methods when the call succeeds *)
(* ===================================================================== *)

Section SuccessRuns.
Import JsString JsArray Client ClientFacts Page PageFacts.

Lemma selection_same w1 w2 :
  cache w1 = cache w2 -> currentFilter w1 = currentFilter w2 ->
  searchQuery w1 = searchQuery w2 -> selection w1 = selection w2.
Proof. apply selection_depends. Qed.

Lemma read_weaken (h h' : store) a v :
  h !! a = Some v -> h ⊆ h' -> read h' a = v.
Proof. intros Ha S. apply read_Some. eapply lookup_weaken; eauto. Qed.

(** The complete state after a successful [addTodo]. *)
Lemma addTodo_succeeded w text priority status t :
  ok status = true ->
  let w1 :=
    set_heap (push t (heap w) (todos w))
      (set_loadingOverlay false
         (set_requests (requests w ++ [mkRequest "/api/todos" "POST" (NewTodo text priority)])
            w)) in
  exists h',
    heap w1 ⊆ h' /\
    addTodo text priority (success status t) w =
    (Normal (Some t),
     mkWorld h' (todos w) (currentFilter w) (searchQuery w) (todoInput w)
       (prioritySelect w) (selection w1)
       (if Nat.eqb (List.length (selection w1)) 0 then "block" else "none")
       (shownStats w) true
       (toastContainer w ++ [mkToast "Todo added successfully!" "success"])
       ((requests w ++ [mkRequest "/api/todos" "POST" (NewTodo text priority)])
          ++ [mkRequest "/api/stats" "GET" NoBody])
       (console w)).
Proof.
  intros Hok w1. destruct (renderTodos_run w1) as (h' & S & E).
  exists h'. split; [exact S|].
  unfold addTodo, success. erewrite try_catch_Normal; [reflexivity|].
  erewrite bind_Normal by (apply apiCall_succeeded; exact Hok).
  unfold bind at 1, gets at 1. unfold bind at 1, array_push at 1, modify at 1.
  cbn [todos set_loadingOverlay set_requests heap set_heap].
  erewrite bind_Normal by exact E. reflexivity.
Qed.

(** X1. A successful [addTodo] appends the record the server returned at the end
    of the cache and returns it; the list on screen is then the projection
    of the new cache; two requests have left, the POST and then the stats
    GET, and one success toast is shown. *)
Theorem addTodo_appends (w : World) (text priority : string) (status : Z) (t : Todo) :
  ok status = true ->
  let w' := exec (addTodo text priority (success status t)) w in
  eval (addTodo text priority (success status t)) w = Normal (Some t) /\
  cache w' = cache w ++ [t] /\
  todosList w' = selection w' /\
  (currentFilter w' = currentFilter w /\ searchQuery w' = searchQuery w) /\
  requests w' = requests w ++ [mkRequest "/api/todos" "POST" (NewTodo text priority);
                               mkRequest "/api/stats" "GET" NoBody] /\
  toastContainer w' = toastContainer w ++ [mkToast "Todo added successfully!" "success"].
Proof.
  intros Hok w'. destruct (addTodo_succeeded w text priority status t Hok) as (h' & S & E).
  subst w'. unfold exec, eval. rewrite E. cbn [fst snd].
  assert (Hc : read h' (todos w) = cache w ++ [t]).
  { eapply read_weaken; [|exact S]. unfold push. cbn [heap set_heap].
    apply lookup_insert_eq. }
  split; [reflexivity|]. split; [exact Hc|].
  split.
  - cbn [todosList]. apply selection_same; try reflexivity.
    unfold cache at 2. cbn [heap todos]. rewrite Hc.
    unfold cache, push. cbn [heap todos set_heap set_loadingOverlay set_requests].
    unfold read. now rewrite lookup_insert_eq.
  - split; [split; reflexivity|]. split; [|reflexivity].
    cbn [requests]. now rewrite <- app_assoc.
Qed.

Lemma addTodo_appends_witness :
  let w := world_of [buy_milk; write_report] "pending" "" in
  let w' := exec (addTodo "call mom" "low" (success 201 call_mom)) w in
  ok 201 = true /\
  cache w' = cache w ++ [call_mom] /\
  todosList w' = selection w'.
Proof.
  intros w w'. split; [reflexivity|].
  destruct (addTodo_appends w "call mom" "low" 201 call_mom eq_refl)
    as (_ & Hc & Hs & _).
  split; [exact Hc | exact Hs].
Defined.

(** The complete state after a successful [deleteTodo]. *)
Lemma deleteTodo_succeeded w id0 status :
  ok status = true ->
  let kept := fresh (dom (heap w)) in
  let w1 :=
    set_todos kept
      (set_heap (<[kept := List.filter (fun todo => negb (id todo =? id0)) (cache w)]> (heap w))
         (set_loadingOverlay false
            (set_requests
               (requests w ++ [mkRequest ("/api/todos/" +:+ of_Z id0) "DELETE" NoBody])
               w))) in
  exists h',
    heap w1 ⊆ h' /\
    deleteTodo id0 (success status tt) w =
    (Normal tt,
     mkWorld h' kept (currentFilter w) (searchQuery w) (todoInput w)
       (prioritySelect w) (selection w1)
       (if Nat.eqb (List.length (selection w1)) 0 then "block" else "none")
       (shownStats w) true
       (toastContainer w ++ [mkToast "Todo deleted successfully!" "success"])
       ((requests w ++ [mkRequest ("/api/todos/" +:+ of_Z id0) "DELETE" NoBody])
          ++ [mkRequest "/api/stats" "GET" NoBody])
       (console w)).
Proof.
  intros Hok kept w1. destruct (renderTodos_run w1) as (h' & S & E).
  exists h'. split; [exact S|].
  unfold deleteTodo, success. erewrite try_catch_Normal; [reflexivity|].
  erewrite bind_Normal by (apply apiCall_succeeded; exact Hok).
  unfold bind at 1, gets at 1. unfold bind at 1, array_filter at 1, JsArray.filter, alloc.
  cbn [todos set_loadingOverlay set_requests heap set_heap].
  unfold bind at 1, modify at 1.
  erewrite bind_Normal by exact E. reflexivity.
Qed.

Lemma filter_absent (p : Todo -> bool) l :
  (forall x, In x l -> p x = true) -> List.filter p l = l.
Proof.
  induction l as [|x l IH]; intros H; [reflexivity|].
  simpl. rewrite (H x (or_introl eq_refl)). f_equal. apply IH.
  intros y Hy. apply H. now right.
Qed.

(** X2. A successful [deleteTodo] leaves in the cache exactly the records
    whose id differs from the one given, in their former order; so a record
    is in the new cache iff it was in the old one under another id, and
    deleting an id nobody has leaves the cache as it was.  The list on
    screen is the projection of the new cache. *)
Theorem deleteTodo_removes (w : World) (id0 : Z) (status : Z) :
  ok status = true ->
  let w' := exec (deleteTodo id0 (success status tt)) w in
  cache w' = List.filter (fun todo => negb (id todo =? id0)) (cache w) /\
  (forall t, In t (cache w') <-> In t (cache w) /\ id t <> id0) /\
  ((forall x, In x (cache w) -> id x <> id0) -> cache w' = cache w) /\
  todosList w' = selection w' /\
  requests w' = requests w ++ [mkRequest ("/api/todos/" +:+ of_Z id0) "DELETE" NoBody;
                               mkRequest "/api/stats" "GET" NoBody].
Proof.
  intros Hok w'. destruct (deleteTodo_succeeded w id0 status Hok) as (h' & S & E).
  subst w'. unfold exec. rewrite E. cbn [snd].
  set (kept := fresh (dom (heap w))) in *.
  assert (Hc : read h' kept = List.filter (fun todo => negb (id todo =? id0)) (cache w)).
  { eapply read_weaken; [|exact S]. cbn [heap set_heap set_todos].
    apply lookup_insert_eq. }
  change (cache (mkWorld h' kept ?a ?b ?c ?d ?e ?f ?g ?h ?i ?j ?k))
    with (read h' kept).
  rewrite Hc. split; [reflexivity|]. split; [|split; [|split]].
  - intros t. rewrite List.filter_In, negb_true_iff, Z.eqb_neq. reflexivity.
  - intros Hnone. apply filter_absent. intros x Hx.
    apply negb_true_iff, Z.eqb_neq. now apply Hnone.
  - cbn [todosList]. apply selection_same; try reflexivity.
    unfold cache at 1. cbn [heap todos set_heap set_todos].
    unfold read at 1. rewrite lookup_insert_eq. cbn [default].
    symmetry. exact Hc.
  - cbn [requests]. now rewrite <- app_assoc.
Qed.

Lemma deleteTodo_removes_witness :
  let w := world_of [buy_milk; write_report; call_mom] "all" "" in
  let w' := exec (deleteTodo 2 (success 200 tt)) w in
  ok 200 = true /\
  cache w' = List.filter (fun todo => negb (id todo =? 2)) (cache w) /\
  todosList w' = selection w'.
Proof.
  intros w w'. split; [reflexivity|].
  destruct (deleteTodo_removes w 2 200 eq_refl) as (Hc & _ & _ & Hs & _).
  split; [exact Hc | exact Hs].
Defined.

(** [findIndex] finds the first element that satisfies the test. *)
Lemma findIndex_first (p : Todo -> bool) l x :
  In x l -> p x = true ->
  exists n y,
    findIndex p l = Z.of_nat n /\
    l !! n = Some y /\ p y = true /\
    (forall j z, (j < n)%nat -> l !! j = Some z -> p z = false).
Proof.
  induction l as [|a l IH]; intros Hin Hp; [destruct Hin|].
  simpl. destruct (p a) eqn:Ha.
  - exists 0%nat, a. repeat split; auto. intros j z Hj. lia.
  - destruct Hin as [-> | Hin]; [congruence|].
    destruct (IH Hin Hp) as (n & y & En & Hy & Hpy & Hlt).
    exists (S n), y. rewrite En.
    destruct (Z.eqb_spec (Z.of_nat n) (-1)) as [Hneg|_]; [lia|].
    split; [lia|]. split; [exact Hy|]. split; [exact Hpy|].
    intros [|j] z Hj Hz; simpl in Hz.
    + now injection Hz as <-.
    + apply (Hlt j z); [lia | exact Hz].
Qed.

(** The complete state after a successful [updateTodo] that finds the id
    at index [n]. *)
Lemma updateTodo_replaced w id0 updates status t n :
  ok status = true ->
  findIndex (fun todo => id todo =? id0) (cache w) = Z.of_nat n ->
  let w1 :=
    set_heap (set_index n t (heap w) (todos w))
      (set_loadingOverlay false
         (set_requests
            (requests w ++ [mkRequest ("/api/todos/" +:+ of_Z id0) "PUT" (Partial updates)])
            w)) in
  exists h',
    heap w1 ⊆ h' /\
    updateTodo id0 updates (success status t) w =
    (Normal (Some t),
     mkWorld h' (todos w) (currentFilter w) (searchQuery w) (todoInput w)
       (prioritySelect w) (selection w1)
       (if Nat.eqb (List.length (selection w1)) 0 then "block" else "none")
       (shownStats w) true
       (toastContainer w ++ [mkToast "Todo updated successfully!" "success"])
       ((requests w ++ [mkRequest ("/api/todos/" +:+ of_Z id0) "PUT" (Partial updates)])
          ++ [mkRequest "/api/stats" "GET" NoBody])
       (console w)).
Proof.
  intros Hok Hidx w1. destruct (renderTodos_run w1) as (h' & S & E).
  exists h'. split; [exact S|].
  unfold updateTodo, success. erewrite try_catch_Normal; [reflexivity|].
  erewrite bind_Normal by (apply apiCall_succeeded; exact Hok).
  unfold bind at 1, gets at 1.
  match goal with
  | |- context [cache ?x] => change (cache x) with (cache w)
  end.
  rewrite Hidx.
  replace (negb (Z.of_nat n =? -1)) with true
    by (symmetry; apply negb_true_iff, Z.eqb_neq; lia).
  unfold bind at 1. unfold bind at 1, gets at 1.
  unfold bind at 1, array_set at 1, modify at 1.
  rewrite Nat2Z.id.
  cbn [todos set_loadingOverlay set_requests heap set_heap].
  erewrite bind_Normal by exact E. reflexivity.
Qed.

Lemma toggleTodo_replaced w id0 status t n :
  ok status = true ->
  findIndex (fun todo => id todo =? id0) (cache w) = Z.of_nat n ->
  let w1 :=
    set_heap (set_index n t (heap w) (todos w))
      (set_loadingOverlay false
         (set_requests
            (requests w ++ [mkRequest ("/api/todos/toggle/" +:+ of_Z id0) "PATCH" NoBody])
            w)) in
  exists h',
    heap w1 ⊆ h' /\
    toggleTodo id0 (success status t) w =
    (Normal tt,
     mkWorld h' (todos w) (currentFilter w) (searchQuery w) (todoInput w)
       (prioritySelect w) (selection w1)
       (if Nat.eqb (List.length (selection w1)) 0 then "block" else "none")
       (shownStats w) true
       (toastContainer w
        ++ [mkToast ("Todo " +:+ (if completed t then "completed" else "reopened") +:+ "!")
              "success"])
       ((requests w ++ [mkRequest ("/api/todos/toggle/" +:+ of_Z id0) "PATCH" NoBody])
          ++ [mkRequest "/api/stats" "GET" NoBody])
       (console w)).
Proof.
  intros Hok Hidx w1. destruct (renderTodos_run w1) as (h' & S & E).
  exists h'. split; [exact S|].
  unfold toggleTodo, success. erewrite try_catch_Normal; [reflexivity|].
  erewrite bind_Normal by (apply apiCall_succeeded; exact Hok).
  unfold bind at 1, gets at 1.
  match goal with
  | |- context [cache ?x] => change (cache x) with (cache w)
  end.
  rewrite Hidx.
  replace (negb (Z.of_nat n =? -1)) with true
    by (symmetry; apply negb_true_iff, Z.eqb_neq; lia).
  unfold bind at 1. unfold bind at 1, gets at 1.
  unfold bind at 1, array_set at 1, modify at 1.
  rewrite Nat2Z.id.
  cbn [todos set_loadingOverlay set_requests heap set_heap].
  erewrite bind_Normal by exact E. reflexivity.
Qed.

Lemma set_index_read (h h' : store) a n t :
  <[a := <[n := t]> (read h a)]> h ⊆ h' -> read h' a = <[n := t]> (read h a).
Proof. intros S. eapply read_weaken; [|exact S]. apply lookup_insert_eq. Qed.

(** X3. A successful [updateTodo] for an id that some cached record has puts
    the record the server returned in the place of the first record with
    that id: the cache keeps its length and every other position.  The
    returned record is taken as it comes (its own id is not looked at), and the list
    on screen is the projection of the new cache. *)
Theorem updateTodo_replaces_first (w : World) (id0 : Z) (updates : Updates)
    (status : Z) (t x : Todo) :
  ok status = true ->
  In x (cache w) -> id x = id0 ->
  let w' := exec (updateTodo id0 updates (success status t)) w in
  exists n y,
    cache w !! n = Some y /\ id y = id0 /\
    (forall j z, (j < n)%nat -> cache w !! j = Some z -> id z <> id0) /\
    cache w' = <[n := t]> (cache w) /\
    cache w' !! n = Some t /\
    List.length (cache w') = List.length (cache w) /\
    eval (updateTodo id0 updates (success status t)) w = Normal (Some t) /\
    todosList w' = selection w'.
Proof.
  intros Hok Hin Hid w'.
  destruct (findIndex_first (fun todo => id todo =? id0) (cache w) x Hin)
    as (n & y & En & Hy & Hpy & Hlt); [now apply Z.eqb_eq|].
  destruct (updateTodo_replaced w id0 updates status t n Hok En) as (h' & S & E).
  exists n, y. split; [exact Hy|]. split; [now apply Z.eqb_eq|].
  split; [intros j z Hj Hz; apply Z.eqb_neq; eapply Hlt; eauto|].
  subst w'. unfold exec, eval. rewrite E. cbn [fst snd].
  assert (Hc : read h' (todos w) = <[n := t]> (cache w))
    by (apply set_index_read; exact S).
  change (cache (mkWorld h' (todos w) ?a ?b ?c ?d ?e ?f ?g ?h ?i ?j ?k))
    with (read h' (todos w)).
  rewrite Hc. split; [reflexivity|].
  split; [apply list_lookup_insert_eq; eapply lookup_lt_Some; eauto|].
  split; [apply length_insert|]. split; [reflexivity|].
  cbn [todosList]. apply selection_same; try reflexivity.
  unfold cache at 1, set_index. cbn [heap todos set_heap set_loadingOverlay set_requests].
  unfold read at 1. rewrite lookup_insert_eq. cbn [default]. symmetry. exact Hc.
Qed.

Lemma updateTodo_replaces_first_witness :
  let w := world_of [buy_milk; write_report; call_mom] "all" "" in
  let t := mkTodo 2 "Write the report" "medium" true (TimeValue 3000) in
  let w' := exec (updateTodo 2 (mkUpdates (Some "Write the report") None None)
                    (success 200 t)) w in
  (ok 200 = true /\ In write_report (cache w) /\ id write_report = 2) /\
  exists n y, cache w !! n = Some y /\ cache w' = <[n := t]> (cache w).
Proof.
  intros w t w'.
  assert (Hin : In write_report (cache w)).
  { unfold w. rewrite cache_world_of. right. now left. }
  split; [split; [reflexivity | split; [exact Hin | reflexivity]]|].
  destruct (updateTodo_replaces_first w 2 (mkUpdates (Some "Write the report") None None)
              200 t write_report eq_refl Hin eq_refl)
    as (n & y & Hy & _ & _ & Hc & _).
  exists n, y. split; [exact Hy | exact Hc].
Defined.

(** X4. A successful [toggleTodo] for an id that some cached record has
    replaces the first record with that id by the server's record, like
    [updateTodo]; the toast says 'completed' or 'reopened' according to the
    record the server returned, not the cached one. *)
Theorem toggleTodo_replaces_first (w : World) (id0 : Z) (status : Z) (t x : Todo) :
  ok status = true ->
  In x (cache w) -> id x = id0 ->
  let w' := exec (toggleTodo id0 (success status t)) w in
  exists n y,
    cache w !! n = Some y /\ id y = id0 /\
    (forall j z, (j < n)%nat -> cache w !! j = Some z -> id z <> id0) /\
    cache w' = <[n := t]> (cache w) /\
    List.length (cache w') = List.length (cache w) /\
    toastContainer w' =
      toastContainer w
      ++ [mkToast ("Todo " +:+ (if completed t then "completed" else "reopened") +:+ "!")
            "success"] /\
    todosList w' = selection w'.
Proof.
  intros Hok Hin Hid w'.
  destruct (findIndex_first (fun todo => id todo =? id0) (cache w) x Hin)
    as (n & y & En & Hy & Hpy & Hlt); [now apply Z.eqb_eq|].
  destruct (toggleTodo_replaced w id0 status t n Hok En) as (h' & S & E).
  exists n, y. split; [exact Hy|]. split; [now apply Z.eqb_eq|].
  split; [intros j z Hj Hz; apply Z.eqb_neq; eapply Hlt; eauto|].
  subst w'. unfold exec. rewrite E. cbn [snd].
  assert (Hc : read h' (todos w) = <[n := t]> (cache w))
    by (apply set_index_read; exact S).
  change (cache (mkWorld h' (todos w) ?a ?b ?c ?d ?e ?f ?g ?h ?i ?j ?k))
    with (read h' (todos w)).
  rewrite Hc. split; [reflexivity|].
  split; [apply length_insert|]. split; [reflexivity|].
  cbn [todosList]. apply selection_same; try reflexivity.
  unfold cache at 1, set_index. cbn [heap todos set_heap set_loadingOverlay set_requests].
  unfold read at 1. rewrite lookup_insert_eq. cbn [default]. symmetry. exact Hc.
Qed.

Lemma toggleTodo_replaces_first_witness :
  let w := world_of [buy_milk; write_report] "all" "" in
  let t := mkTodo 1 "Buy MILK" "high" true (TimeValue 1000) in
  let w' := exec (toggleTodo 1 (success 200 t)) w in
  (ok 200 = true /\ In buy_milk (cache w) /\ id buy_milk = 1) /\
  exists n y, cache w !! n = Some y /\ cache w' = <[n := t]> (cache w).
Proof.
  intros w t w'.
  assert (Hin : In buy_milk (cache w)).
  { unfold w. rewrite cache_world_of. now left. }
  split; [split; [reflexivity | split; [exact Hin | reflexivity]]|].
  destruct (toggleTodo_replaces_first w 1 200 t buy_milk eq_refl Hin eq_refl)
    as (n & y & Hy & _ & _ & Hc & _).
  exists n, y. split; [exact Hy | exact Hc].
Defined.

End SuccessRuns.

Section Composition.
Import JsString JsArray Client ClientFacts Page PageFacts.

Lemma addTodo_cache w text priority status t :
  ok status = true ->
  cache (exec (addTodo text priority (success status t)) w) = cache w ++ [t].
Proof.
  intros Hok. destruct (addTodo_succeeded w text priority status t Hok) as (h' & S & E).
  unfold exec. rewrite E. cbn [snd].
  eapply read_weaken; [|exact S]. unfold push. cbn [heap set_heap].
  apply lookup_insert_eq.
Qed.

Lemma deleteTodo_cache w id0 status :
  ok status = true ->
  cache (exec (deleteTodo id0 (success status tt)) w)
  = List.filter (fun todo => negb (id todo =? id0)) (cache w).
Proof.
  intros Hok. destruct (deleteTodo_succeeded w id0 status Hok) as (h' & S & E).
  unfold exec. rewrite E. cbn [snd].
  eapply read_weaken; [|exact S]. cbn [heap set_heap set_todos].
  apply lookup_insert_eq.
Qed.

(** X5. Adding a record and then deleting its id, both calls succeeding,
    gives back the cache there was before, provided no cached record had
    that id already. *)
Theorem add_then_delete_restores (w : World) (text priority : string)
    (s1 s2 : Z) (t : Todo) :
  ok s1 = true -> ok s2 = true ->
  (forall x, In x (cache w) -> id x <> id t) ->
  cache (exec (deleteTodo (id t) (success s2 tt))
           (exec (addTodo text priority (success s1 t)) w))
  = cache w.
Proof.
  intros H1 H2 Hfresh.
  rewrite deleteTodo_cache by exact H2. rewrite addTodo_cache by exact H1.
  rewrite List.filter_app. simpl. rewrite Z.eqb_refl. simpl.
  rewrite app_nil_r. apply filter_absent. intros x Hx.
  apply negb_true_iff, Z.eqb_neq. now apply Hfresh.
Qed.

Lemma add_then_delete_restores_witness :
  let w := world_of [buy_milk; write_report] "all" "" in
  (ok 201 = true /\ ok 200 = true /\
   forall x, In x (cache w) -> id x <> id call_mom) /\
  cache (exec (deleteTodo (id call_mom) (success 200 tt))
           (exec (addTodo "call mom" "low" (success 201 call_mom)) w))
  = cache w.
Proof.
  intros w.
  assert (Hfresh : forall x, In x (cache w) -> id x <> id call_mom).
  { unfold w. rewrite cache_world_of. intros x [<- | [<- | []]]; discriminate. }
  split; [split; [reflexivity | split; [reflexivity | exact Hfresh]]|].
  exact (add_then_delete_restores w "call mom" "low" 201 200 call_mom
           eq_refl eq_refl Hfresh).
Defined.

(** [loadTodos] is its two halves in sequence. *)
Lemma loadTodos_split r w :
  loadTodos r w = bind loadTodos_send (fun _ => loadTodos_resume r) w.
Proof. reflexivity. Qed.

(** The complete state after the todos response arrives with data. *)
Lemma loadTodos_resume_succeeded w status data :
  ok status = true ->
  let a := fresh (dom (heap w)) in
  let w1 := set_todos a (set_heap (<[a := data]> (heap w)) (set_loadingOverlay false w)) in
  exists h',
    heap w1 ⊆ h' /\
    loadTodos_resume (success status data) w =
    (Normal tt,
     mkWorld h' a (currentFilter w) (searchQuery w) (todoInput w)
       (prioritySelect w) (selection w1)
       (if Nat.eqb (List.length (selection w1)) 0 then "block" else "none")
       (shownStats w) true (toastContainer w)
       (requests w ++ [mkRequest "/api/stats" "GET" NoBody])
       (console w)).
Proof.
  intros Hok a w1. destruct (renderTodos_run w1) as (h' & S & E).
  exists h'. split; [exact S|].
  unfold loadTodos_resume, success. erewrite try_catch_Normal; [reflexivity|].
  assert (Es : apiCall_settle (Resolved status (Json data)) w
               = (Normal data, set_loadingOverlay false w)).
  { unfold apiCall_settle, try_finally, try_catch. rewrite Hok. reflexivity. }
  erewrite bind_Normal by exact Es.
  unfold bind at 1, array_new at 1, alloc.
  cbn [heap set_loadingOverlay].
  unfold bind at 1, modify at 1.
  erewrite bind_Normal by exact E. reflexivity.
Qed.

(** The complete state after the todos response arrives as a failure. *)
Lemma loadTodos_resume_failed w (r : FetchResult (list Todo)) :
  failed r ->
  loadTodos_resume r w =
  (Normal tt,
   mkWorld (heap w) (todos w) (currentFilter w) (searchQuery w) (todoInput w)
     (prioritySelect w) (todosList w) (emptyState w) (shownStats w) false
     (toastContainer w ++ [mkToast ("Error: " +:+ message (error_of r)) "error"])
     (requests w)
     (console w ++ [("API Error:", error_of r); ("Failed to load todos:", error_of r)])).
Proof.
  intros Hf. unfold loadTodos_resume.
  assert (Es : apiCall_settle r w =
    (Thrown (error_of r),
     set_loadingOverlay false
       (set_toastContainer
          (toastContainer w ++ [mkToast ("Error: " +:+ message (error_of r)) "error"])
          (set_console (console w ++ [("API Error:", error_of r)]) w)))).
  { destruct r as [msg | status [data | msg]]; simpl in Hf.
    - reflexivity.
    - unfold apiCall_settle, try_finally, try_catch, error_of. rewrite Hf. reflexivity.
    - unfold apiCall_settle, try_finally, try_catch, error_of.
      destruct (ok status); reflexivity. }
  erewrite try_catch_Thrown by (apply bind_Thrown; exact Es).
  unfold console_error, modify. cbn. now rewrite <- app_assoc.
Qed.

(** X6. When the response to the initial GET /todos carries data, the
    cache becomes that data whatever it held before, the list on screen is
    its projection, and a stats request follows.  When the response is a
    failure, cache, list on screen and request log stay as they were and
    the error is toasted once.  In neither case does an exception escape. *)
Theorem loadTodos_resume_outcomes (w : World) :
  (forall status data,
     ok status = true ->
     let w' := exec (loadTodos_resume (success status data)) w in
     eval (loadTodos_resume (success status data)) w = Normal tt /\
     cache w' = data /\
     todosList w' = selection w' /\
     requests w' = requests w ++ [mkRequest "/api/stats" "GET" NoBody]) /\
  (forall r,
     failed r ->
     let w' := exec (loadTodos_resume r) w in
     eval (loadTodos_resume r) w = Normal tt /\
     cache w' = cache w /\
     todosList w' = todosList w /\
     requests w' = requests w /\
     toastContainer w' =
       toastContainer w ++ [mkToast ("Error: " +:+ message (error_of r)) "error"]).
Proof.
  split.
  - intros status data Hok w'.
    destruct (loadTodos_resume_succeeded w status data Hok) as (h' & S & E).
    subst w'. unfold exec, eval. rewrite E. cbn [fst snd].
    set (a := fresh (dom (heap w))) in *.
    assert (Hc : read h' a = data).
    { eapply read_weaken; [|exact S]. cbn [heap set_heap set_todos].
      apply lookup_insert_eq. }
    split; [reflexivity|]. split; [exact Hc|]. split; [|reflexivity].
    cbn [todosList]. apply selection_same; try reflexivity.
    unfold cache at 1. cbn [heap todos set_heap set_todos].
    unfold read at 1. rewrite lookup_insert_eq. cbn [default].
    symmetry. exact Hc.
  - intros r Hf w'. subst w'. unfold exec, eval.
    rewrite (loadTodos_resume_failed w r Hf). repeat split; reflexivity.
Qed.

Lemma loadTodos_resume_outcomes_witness :
  let w := world_of [buy_milk] "all" "" in
  (ok 200 = true /\ failed (@Rejected (list Todo) "Failed to fetch")) /\
  cache (exec (loadTodos_resume (success 200 [write_report; call_mom])) w)
  = [write_report; call_mom] /\
  cache (exec (loadTodos_resume (Rejected "Failed to fetch")) w) = cache w.
Proof.
  intros w. split; [split; [reflexivity | exact I]|].
  destruct (loadTodos_resume_outcomes w) as [Hs Hf].
  split.
  - exact (proj1 (proj2 (Hs 200 [write_report; call_mom] eq_refl))).
  - exact (proj1 (proj2 (Hf (Rejected "Failed to fetch") I))).
Defined.

End Composition.

(* ===================================================================== *)
(** ** The list on screen never goes stale *)
(* ===================================================================== *)

Section HoareRules.
Import JsString JsArray Client ClientFacts Page PageFacts.

Lemma triple_conseq {A} (P P' : World -> Prop) (m : M A) Q Q' E E' :
  triple P m Q E ->
  (forall w, P' w -> P w) ->
  (forall a w, Q a w -> Q' a w) ->
  (forall w, E w -> E' w) ->
  triple P' m Q' E'.
Proof.
  intros H HP HQ HE w Hw. specialize (H w (HP w Hw)).
  destruct (m w) as [[a | e] w']; auto.
Qed.

Lemma triple_ret {A} (a : A) P E : triple P (ret a) (fun _ => P) E.
Proof. intros w Hw. exact Hw. Qed.

Lemma triple_gets {A} (f : World -> A) P E : triple P (gets f) (fun _ => P) E.
Proof. intros w Hw. exact Hw. Qed.

Lemma triple_modify (f : World -> World) (P Q : World -> Prop) E :
  (forall w, P w -> Q (f w)) -> triple P (modify f) (fun _ => Q) E.
Proof. intros H w Hw. now apply H. Qed.

Lemma triple_bind {A B} (m : M A) (k : A -> M B) P R Q E :
  triple P m R E -> (forall a, triple (R a) (k a) Q E) -> triple P (bind m k) Q E.
Proof.
  intros Hm Hk w Hw. specialize (Hm w Hw). unfold bind.
  destruct (m w) as [[a | e] w']; [now apply Hk | exact Hm].
Qed.

Lemma triple_try_catch {A} (m : M A) handler P Q R E :
  triple P m Q R -> (forall e, triple R (handler e) Q E) ->
  triple P (try_catch m handler) Q E.
Proof.
  intros Hm Hh w Hw. specialize (Hm w Hw). unfold try_catch.
  destruct (m w) as [[a | e] w']; [exact Hm | now apply Hh].
Qed.

Lemma triple_if {A} (b : bool) (m1 m2 : M A) P Q E :
  triple P m1 Q E -> triple P m2 Q E -> triple P (if b then m1 else m2) Q E.
Proof. now destruct b. Qed.

Lemma keeps_exec {A} P (m : M A) w : keeps P m -> P w -> P (exec m w).
Proof.
  intros H Hw. specialize (H w Hw). unfold exec.
  destruct (m w) as [[a | e] w']; [exact H | destruct H].
Qed.

(** *** Quiet computations *)

Lemma quiet_ret {A} (a : A) : quiet (ret a).
Proof. intros w. reflexivity. Qed.

Lemma quiet_throw {A} e : quiet (@throw A e).
Proof. intros w. reflexivity. Qed.

Lemma quiet_modify (f : World -> World) :
  (forall w, core (f w) = core w) -> quiet (modify f).
Proof. intros H w. apply H. Qed.

Lemma quiet_bind {A B} (m : M A) (k : A -> M B) :
  quiet m -> (forall a, quiet (k a)) -> quiet (bind m k).
Proof.
  intros Hm Hk w. specialize (Hm w). unfold exec, bind in *.
  destruct (m w) as [[a | e] w']; simpl in *; [|exact Hm].
  rewrite <- Hm. apply Hk.
Qed.

Lemma quiet_try_catch {A} (m : M A) handler :
  quiet m -> (forall e, quiet (handler e)) -> quiet (try_catch m handler).
Proof.
  intros Hm Hh w. specialize (Hm w). unfold exec, try_catch in *.
  destruct (m w) as [[a | e] w']; simpl in *; [exact Hm|].
  rewrite <- Hm. apply Hh.
Qed.

Lemma quiet_try_finally {A} (m : M A) f :
  quiet m -> quiet f -> quiet (try_finally m f).
Proof.
  intros Hm Hf w. specialize (Hm w). unfold exec, try_finally in *.
  destruct (m w) as [o w']; simpl in *. specialize (Hf w'). unfold exec in Hf.
  destruct (f w') as [[u | e] w'']; simpl in *; congruence.
Qed.

Lemma quiet_showToast message type : quiet (showToast message type).
Proof. apply quiet_modify. reflexivity. Qed.

Lemma quiet_console_error label e : quiet (console_error label e).
Proof. apply quiet_modify. reflexivity. Qed.

Lemma quiet_apiCall_send endpoint method body :
  quiet (apiCall_send endpoint method body).
Proof. apply quiet_bind; [|intros _]; apply quiet_modify; reflexivity. Qed.

Lemma quiet_apiCall_settle {A} (r : FetchResult A) : quiet (apiCall_settle r).
Proof.
  apply quiet_try_finally; [|apply quiet_modify; reflexivity].
  apply quiet_try_catch.
  - destruct r as [msg | status [data | msg]]; try apply quiet_throw;
      destruct (negb (ok status)); (apply quiet_throw || apply quiet_ret).
  - intros e. apply quiet_bind; [apply quiet_console_error|intros _].
    apply quiet_bind; [apply quiet_showToast | intros _; apply quiet_throw].
Qed.

Lemma quiet_apiCall {A} endpoint method body (r : FetchResult A) :
  quiet (apiCall endpoint method body r).
Proof.
  apply quiet_bind; [apply quiet_apiCall_send | intros _; apply quiet_apiCall_settle].
Qed.

Lemma quiet_loadStats_resume r : quiet (loadStats_resume r).
Proof.
  apply quiet_try_catch; [|intros e; apply quiet_console_error].
  apply quiet_bind; [apply quiet_apiCall_settle|intros stats].
  apply quiet_modify. reflexivity.
Qed.

Lemma in_sync_core w w' : core w = core w' -> in_sync w -> in_sync w'.
Proof.
  unfold core. intros [= Hh Ht Hf Hq Hl] [Hv Hs]. split.
  - unfold valid. now rewrite <- Hh, <- Ht.
  - rewrite <- Hl, Hs. apply selection_depends; [|exact Hf|exact Hq].
    unfold cache. now rewrite Hh, Ht.
Qed.

Lemma valid_core w w' : core w = core w' -> valid w -> valid w'.
Proof.
  unfold core. intros [= Hh Ht Hf Hq Hl] Hv. unfold valid. now rewrite <- Hh, <- Ht.
Qed.

(** A quiet computation keeps whatever depends on the core only, whether
    it returns or throws. *)
Lemma quiet_triple {A} (m : M A) (P : World -> Prop) :
  (forall w w', core w = core w' -> P w -> P w') ->
  quiet m -> triple P m (fun _ => P) P.
Proof.
  intros HP Hq w Hw. specialize (Hq w). unfold exec in Hq.
  destruct (m w) as [[a | e] w']; simpl in Hq; apply (HP w); auto.
Qed.

Lemma quiet_in_sync {A} (m : M A) :
  quiet m -> triple in_sync m (fun _ => in_sync) in_sync.
Proof. apply quiet_triple. apply in_sync_core. Qed.

(** A quiet computation that cannot throw. *)
Lemma quiet_total {A} (m : M A) (P : World -> Prop) E :
  (forall w w', core w = core w' -> P w -> P w') ->
  quiet m -> (forall w, exists a w', m w = (Normal a, w')) ->
  triple P m (fun _ => P) E.
Proof.
  intros HP Hq Ht w Hw. specialize (Hq w). unfold exec in Hq.
  destruct (Ht w) as (a & w' & Em). rewrite Em in *. simpl in Hq.
  apply (HP w); auto.
Qed.

Lemma showToast_in_sync message type E :
  triple in_sync (showToast message type) (fun _ => in_sync) E.
Proof. apply triple_modify. intros w. apply in_sync_core. reflexivity. Qed.

Lemma console_error_in_sync label e E :
  triple in_sync (console_error label e) (fun _ => in_sync) E.
Proof. apply triple_modify. intros w. apply in_sync_core. reflexivity. Qed.

Lemma loadStats_in_sync E : triple in_sync loadStats (fun _ => in_sync) E.
Proof.
  apply triple_bind with (R := fun _ => in_sync);
    [|intros _]; apply triple_modify; intros w; apply in_sync_core; reflexivity.
Qed.

(** Rendering brings the list in sync from any valid state. *)
Lemma renderTodos_sync E : triple valid renderTodos (fun _ => in_sync) E.
Proof.
  intros w Hv. destruct (renderTodos_run w) as (h' & S & Er). rewrite Er.
  assert (Hc : read h' (todos w) = cache w) by now apply cache_extends.
  split.
  - unfold valid in *. cbn. apply subseteq_dom in S. set_solver.
  - cbn [todosList set_todosList]. apply selection_depends; try reflexivity.
    symmetry. exact Hc.
Qed.

Lemma in_sync_valid w : in_sync w -> valid w.
Proof. now intros [Hv _]. Qed.

(** The tail the mutating methods share: render, ask for the stats. *)
Lemma refresh_sync E :
  triple valid (bind renderTodos (fun _ => loadStats)) (fun _ => in_sync) E.
Proof.
  apply triple_bind with (R := fun _ => in_sync);
    [apply renderTodos_sync | intros _; apply loadStats_in_sync].
Qed.

End HoareRules.

Section SyncInvariant.
Import JsString JsArray Client ClientFacts Page PageFacts.

Lemma array_push_valid a x E :
  triple in_sync (array_push a x) (fun _ => valid) E.
Proof.
  apply triple_modify. intros w Hs.
  exact (steady_array_push a x w (in_sync_valid w Hs)).
Qed.

Lemma array_set_valid a i x E :
  triple in_sync (array_set a i x) (fun _ => valid) E.
Proof.
  apply triple_modify. intros w Hs.
  exact (steady_array_set a i x w (in_sync_valid w Hs)).
Qed.

Lemma addTodo_keeps_sync text priority r : keeps in_sync (addTodo text priority r).
Proof.
  apply triple_try_catch with (R := in_sync).
  - apply triple_bind with (R := fun _ => in_sync);
      [apply quiet_in_sync, quiet_apiCall|intros newTodo].
    apply triple_bind with (R := fun _ => in_sync); [apply triple_gets|intros a].
    apply triple_bind with (R := fun _ => valid); [apply array_push_valid|intros _].
    apply triple_bind with (R := fun _ => in_sync); [apply renderTodos_sync|intros _].
    apply triple_bind with (R := fun _ => in_sync); [apply loadStats_in_sync|intros _].
    apply triple_bind with (R := fun _ => in_sync);
      [apply showToast_in_sync | intros _; apply triple_ret].
  - intros e. apply triple_bind with (R := fun _ => in_sync);
      [apply console_error_in_sync | intros _; apply triple_ret].
Qed.

(** The guarded replacement [updateTodo] and [toggleTodo] share. *)
Lemma replace_keeps_sync (index : Z) (t : Todo) E :
  triple in_sync
    (if negb (index =? -1) then
       bind (gets todos) (fun this_todos =>
       bind (array_set this_todos index t) (fun _ =>
       bind renderTodos (fun _ => loadStats)))
     else ret tt)
    (fun _ => in_sync) E.
Proof.
  apply triple_if; [|apply triple_ret].
  apply triple_bind with (R := fun _ => in_sync); [apply triple_gets|intros a].
  apply triple_bind with (R := fun _ => valid);
    [apply array_set_valid | intros _; apply refresh_sync].
Qed.

Lemma updateTodo_keeps_sync id0 updates r : keeps in_sync (updateTodo id0 updates r).
Proof.
  apply triple_try_catch with (R := in_sync).
  - apply triple_bind with (R := fun _ => in_sync);
      [apply quiet_in_sync, quiet_apiCall|intros t].
    apply triple_bind with (R := fun _ => in_sync); [apply triple_gets|intros index].
    apply triple_bind with (R := fun _ => in_sync); [apply replace_keeps_sync|intros _].
    apply triple_bind with (R := fun _ => in_sync);
      [apply showToast_in_sync | intros _; apply triple_ret].
  - intros e. apply triple_bind with (R := fun _ => in_sync);
      [apply console_error_in_sync | intros _; apply triple_ret].
Qed.

Lemma toggleTodo_keeps_sync id0 r : keeps in_sync (toggleTodo id0 r).
Proof.
  apply triple_try_catch with (R := in_sync).
  - apply triple_bind with (R := fun _ => in_sync);
      [apply quiet_in_sync, quiet_apiCall|intros t].
    apply triple_bind with (R := fun _ => in_sync); [apply triple_gets|intros index].
    apply triple_bind with (R := fun _ => in_sync); [apply replace_keeps_sync|intros _].
    apply showToast_in_sync.
  - intros e. apply console_error_in_sync.
Qed.

(** [this.todos = <new array>] followed by a refresh. *)
Lemma rebind_sync (alloc_ : M nat) {B} (k : M B) P E :
  (forall w, exists r h, alloc_ w = (Normal r, set_heap h w) /\ r ∈ dom h) ->
  triple valid k (fun _ => in_sync) E ->
  triple P (bind alloc_ (fun a => bind (modify (set_todos a)) (fun _ => k)))
    (fun _ => in_sync) E.
Proof.
  intros Ha Hk w _. destruct (Ha w) as (r & h & Er & Hr).
  unfold bind at 1. rewrite Er. unfold bind at 1, modify at 1.
  apply (Hk (set_todos r (set_heap h w))). exact Hr.
Qed.

Lemma array_filter_allocates p a w :
  exists r h, array_filter p a w = (Normal r, set_heap h w) /\ r ∈ dom h.
Proof.
  unfold array_filter, JsArray.filter, alloc. eexists _, _. split; [reflexivity|].
  rewrite dom_insert. set_solver.
Qed.

Lemma array_new_allocates l w :
  exists r h, array_new l w = (Normal r, set_heap h w) /\ r ∈ dom h.
Proof.
  unfold array_new, alloc. eexists _, _. split; [reflexivity|].
  rewrite dom_insert. set_solver.
Qed.

Lemma deleteTodo_keeps_sync id0 r : keeps in_sync (deleteTodo id0 r).
Proof.
  apply triple_try_catch with (R := in_sync); [|intros e; apply console_error_in_sync].
  apply triple_bind with (R := fun _ => in_sync);
    [apply quiet_in_sync, quiet_apiCall|intros _].
  apply triple_bind with (R := fun _ => in_sync); [apply triple_gets|intros a].
  apply rebind_sync; [apply array_filter_allocates|].
  apply triple_bind with (R := fun _ => in_sync); [apply renderTodos_sync|intros _].
  apply triple_bind with (R := fun _ => in_sync);
    [apply loadStats_in_sync | intros _; apply showToast_in_sync].
Qed.

Lemma loadTodos_resume_keeps_sync r : keeps in_sync (loadTodos_resume r).
Proof.
  apply triple_try_catch with (R := in_sync); [|intros e; apply console_error_in_sync].
  apply triple_bind with (R := fun _ => in_sync);
    [apply quiet_in_sync, quiet_apiCall_settle|intros data].
  apply rebind_sync; [apply array_new_allocates | apply refresh_sync].
Qed.

Lemma loadStats_resume_keeps_sync r : keeps in_sync (loadStats_resume r).
Proof.
  apply triple_try_catch with (R := in_sync); [|intros e; apply console_error_in_sync].
  apply triple_bind with (R := fun _ => in_sync);
    [apply quiet_in_sync, quiet_apiCall_settle|intros stats].
  apply triple_modify. intros w. apply in_sync_core. reflexivity.
Qed.

Lemma handleAddTodo_keeps_sync r : keeps in_sync (handleAddTodo r).
Proof.
  apply triple_bind with (R := fun _ => in_sync); [apply triple_gets|intros text].
  apply triple_bind with (R := fun _ => in_sync); [apply triple_gets|intros priority].
  apply triple_if; [apply showToast_in_sync|].
  apply triple_bind with (R := fun _ => in_sync); [apply addTodo_keeps_sync|intros _].
  apply triple_bind with (R := fun _ => in_sync); [|intros _];
    apply triple_modify; intros w; apply in_sync_core; reflexivity.
Qed.

Lemma set_searchQuery_render_sync q :
  keeps in_sync (bind (modify (set_searchQuery q)) (fun _ => renderTodos)).
Proof.
  apply triple_bind with (R := fun _ => valid); [|intros _; apply renderTodos_sync].
  apply triple_modify. intros w [Hv _]. exact Hv.
Qed.

Lemma handleSearch_keeps_sync value : keeps in_sync (handleSearch value).
Proof. apply set_searchQuery_render_sync. Qed.

Lemma handleFilterChange_keeps_sync filter : keeps in_sync (handleFilterChange filter).
Proof.
  destruct filter as [f|]; [|apply triple_ret]. simpl.
  apply triple_if; [apply triple_ret|].
  apply triple_bind with (R := fun _ => valid); [|intros _; apply renderTodos_sync].
  apply triple_modify. intros w [Hv _]. exact Hv.
Qed.

Lemma editTodo_keeps_sync id0 answer r : keeps in_sync (editTodo id0 answer r).
Proof.
  apply triple_bind with (R := fun _ => in_sync); [apply triple_gets|intros found].
  destruct found as [todo|]; [|apply triple_ret].
  destruct answer as [newText|]; [|apply triple_ret].
  apply triple_if; [|apply triple_ret].
  apply triple_bind with (R := fun _ => in_sync);
    [apply updateTodo_keeps_sync | intros _; apply triple_ret].
Qed.

End SyncInvariant.

Section Startup.
Import JsString JsArray Client ClientFacts Page PageFacts.

(** The state the constructor leaves, spelled out. *)
Lemma constructor_state doc :
  constructor doc =
  mkWorld (<[fresh (dom (heap doc)) := []]> (heap doc)) (fresh (dom (heap doc)))
    "all" "" (todoInput doc) (prioritySelect doc) (todosList doc) (emptyState doc)
    (shownStats doc) true (toastContainer doc)
    ((requests doc ++ [mkRequest "/api/todos" "GET" NoBody])
       ++ [mkRequest "/api/stats" "GET" NoBody])
    (console doc).
Proof. reflexivity. Qed.

Lemma constructor_cache doc : cache (constructor doc) = [].
Proof.
  rewrite constructor_state. unfold cache, read. cbn [heap todos].
  now rewrite lookup_insert_eq.
Qed.

Lemma constructor_in_sync doc : todosList doc = [] -> in_sync (constructor doc).
Proof.
  intros Hl. split.
  - rewrite constructor_state. unfold valid. cbn [heap todos].
    rewrite dom_insert. set_solver.
  - unfold selection. rewrite constructor_cache. rewrite constructor_state.
    cbn [todosList currentFilter searchQuery]. exact Hl.
Qed.

(** X8. The constructor leaves an empty cache, filter 'all', an empty
    query, and two requests on their way: GET /api/todos, then
    GET /api/stats.  When the todos response then arrives with data, the
    stats are requested a second time; when it arrives as a failure, they
    are not. *)
Theorem startup_requests (doc : World) :
  cache (constructor doc) = [] /\
  currentFilter (constructor doc) = "all" /\
  searchQuery (constructor doc) = "" /\
  requests (constructor doc)
  = requests doc ++ [mkRequest "/api/todos" "GET" NoBody;
                     mkRequest "/api/stats" "GET" NoBody] /\
  (forall status data,
     ok status = true ->
     requests (exec (loadTodos_resume (success status data)) (constructor doc))
     = requests doc ++ [mkRequest "/api/todos" "GET" NoBody;
                        mkRequest "/api/stats" "GET" NoBody;
                        mkRequest "/api/stats" "GET" NoBody]) /\
  (forall r,
     failed r ->
     requests (exec (loadTodos_resume r) (constructor doc))
     = requests doc ++ [mkRequest "/api/todos" "GET" NoBody;
                        mkRequest "/api/stats" "GET" NoBody]).
Proof.
  rewrite constructor_cache, constructor_state.
  cbn [currentFilter searchQuery requests].
  split; [reflexivity|]. split; [reflexivity|]. split; [reflexivity|].
  split; [now rewrite <- app_assoc|].
  split.
  - intros status data Hok.
    match goal with
    | |- requests (exec _ ?c) = _ =>
        destruct (loadTodos_resume_succeeded c status data Hok) as (h' & _ & E);
        unfold exec; rewrite E
    end.
    cbn [snd requests]. now rewrite <- !app_assoc.
  - intros r Hf. unfold exec.
    match goal with
    | |- requests (snd (_ ?c)) = _ => rewrite (loadTodos_resume_failed c r Hf)
    end.
    cbn [snd requests]. now rewrite <- app_assoc.
Qed.

End Startup.

Section EventLoop.
Import JsString JsArray Client ClientFacts Page PageFacts.

(** Each method of [Client] is its first half followed by its second. *)
Lemma addTodo_halves text priority r w :
  addTodo text priority r w
  = bind (apiCall_send "/todos" "POST" (NewTodo text priority))
      (fun _ => addTodo_resume r) w.
Proof. reflexivity. Qed.

Lemma updateTodo_halves id0 updates r w :
  updateTodo id0 updates r w
  = bind (apiCall_send ("/todos/" +:+ of_Z id0) "PUT" (Partial updates))
      (fun _ => updateTodo_resume id0 r) w.
Proof. reflexivity. Qed.

Lemma deleteTodo_halves id0 r w :
  deleteTodo id0 r w = bind (deleteTodo_send id0) (fun _ => deleteTodo_resume id0 r) w.
Proof. reflexivity. Qed.

Lemma toggleTodo_halves id0 r w :
  toggleTodo id0 r w = bind (toggleTodo_send id0) (fun _ => toggleTodo_resume id0 r) w.
Proof. reflexivity. Qed.

Lemma handleAddTodo_halves r w :
  handleAddTodo r w
  = if truthy (trim (todoInput w))
    then bind handleAddTodo_send (fun _ => handleAddTodo_resume r) w
    else handleAddTodo_send w.
Proof.
  cbv beta iota delta [handleAddTodo handleAddTodo_send bind gets].
  destruct (truthy (trim (todoInput w))); reflexivity.
Qed.

Lemma editTodo_halves id0 answer r w :
  editTodo id0 answer r w
  = match editTodo_send id0 answer w with
    | (Normal _, w') =>
        if Nat.eqb (List.length (requests w')) (List.length (requests w)) then (Normal tt, w')
        else editTodo_resume id0 r w'
    | (Thrown e, w') => (Thrown e, w')
    end.
Proof.
  cbv beta iota delta [editTodo editTodo_send bind gets].
  destruct (find (fun t => id t =? id0) (cache w)) as [todo|]; cbn [ret].
  - destruct answer as [newText|]; cbn [ret]; [|now rewrite Nat.eqb_refl].
    destruct (truthy newText && negb (String.eqb (trim newText) (text todo)));
      cbn [ret]; [|now rewrite Nat.eqb_refl].
    unfold apiCall_send, showLoading, bind, modify. cbn [requests set_requests set_loadingOverlay].
    rewrite List.length_app. cbn [List.length].
    replace (List.length (requests w) + 1 =? List.length (requests w))%nat with false
      by (symmetry; apply Nat.eqb_neq; lia).
    reflexivity.
  - now rewrite Nat.eqb_refl.
Qed.


Lemma apiCall_send_in_sync endpoint method body E :
  triple in_sync (apiCall_send endpoint method body) (fun _ => in_sync) E.
Proof.
  apply quiet_total; [apply in_sync_core | apply quiet_apiCall_send|].
  intros w. eexists _, _. reflexivity.
Qed.

Lemma addTodo_resume_keeps_sync r : keeps in_sync (addTodo_resume r).
Proof.
  apply triple_try_catch with (R := in_sync).
  - apply triple_bind with (R := fun _ => in_sync);
      [apply quiet_in_sync, quiet_apiCall_settle|intros newTodo].
    apply triple_bind with (R := fun _ => in_sync); [apply triple_gets|intros a].
    apply triple_bind with (R := fun _ => valid); [apply array_push_valid|intros _].
    apply triple_bind with (R := fun _ => in_sync); [apply renderTodos_sync|intros _].
    apply triple_bind with (R := fun _ => in_sync); [apply loadStats_in_sync|intros _].
    apply triple_bind with (R := fun _ => in_sync);
      [apply showToast_in_sync | intros _; apply triple_ret].
  - intros e. apply triple_bind with (R := fun _ => in_sync);
      [apply console_error_in_sync | intros _; apply triple_ret].
Qed.

Lemma updateTodo_resume_keeps_sync id0 r : keeps in_sync (updateTodo_resume id0 r).
Proof.
  apply triple_try_catch with (R := in_sync).
  - apply triple_bind with (R := fun _ => in_sync);
      [apply quiet_in_sync, quiet_apiCall_settle|intros t].
    apply triple_bind with (R := fun _ => in_sync); [apply triple_gets|intros index].
    apply triple_bind with (R := fun _ => in_sync); [apply replace_keeps_sync|intros _].
    apply triple_bind with (R := fun _ => in_sync);
      [apply showToast_in_sync | intros _; apply triple_ret].
  - intros e. apply triple_bind with (R := fun _ => in_sync);
      [apply console_error_in_sync | intros _; apply triple_ret].
Qed.

Lemma toggleTodo_resume_keeps_sync id0 r : keeps in_sync (toggleTodo_resume id0 r).
Proof.
  apply triple_try_catch with (R := in_sync).
  - apply triple_bind with (R := fun _ => in_sync);
      [apply quiet_in_sync, quiet_apiCall_settle|intros t].
    apply triple_bind with (R := fun _ => in_sync); [apply triple_gets|intros index].
    apply triple_bind with (R := fun _ => in_sync); [apply replace_keeps_sync|intros _].
    apply showToast_in_sync.
  - intros e. apply console_error_in_sync.
Qed.

Lemma deleteTodo_resume_keeps_sync id0 r : keeps in_sync (deleteTodo_resume id0 r).
Proof.
  apply triple_try_catch with (R := in_sync); [|intros e; apply console_error_in_sync].
  apply triple_bind with (R := fun _ => in_sync);
    [apply quiet_in_sync, quiet_apiCall_settle|intros _].
  apply triple_bind with (R := fun _ => in_sync); [apply triple_gets|intros a].
  apply rebind_sync; [apply array_filter_allocates|].
  apply triple_bind with (R := fun _ => in_sync); [apply renderTodos_sync|intros _].
  apply triple_bind with (R := fun _ => in_sync);
    [apply loadStats_in_sync | intros _; apply showToast_in_sync].
Qed.

Lemma handleAddTodo_send_keeps_sync : keeps in_sync handleAddTodo_send.
Proof.
  apply triple_bind with (R := fun _ => in_sync); [apply triple_gets|intros text].
  apply triple_bind with (R := fun _ => in_sync); [apply triple_gets|intros priority].
  apply triple_if; [apply showToast_in_sync | apply apiCall_send_in_sync].
Qed.

Lemma handleAddTodo_resume_keeps_sync r : keeps in_sync (handleAddTodo_resume r).
Proof.
  apply triple_bind with (R := fun _ => in_sync);
    [apply addTodo_resume_keeps_sync|intros _].
  apply triple_bind with (R := fun _ => in_sync); [|intros _];
    apply triple_modify; intros w; apply in_sync_core; reflexivity.
Qed.

Lemma editTodo_send_keeps_sync id0 answer : keeps in_sync (editTodo_send id0 answer).
Proof.
  apply triple_bind with (R := fun _ => in_sync); [apply triple_gets|intros found].
  destruct found as [todo|]; [|apply triple_ret].
  destruct answer as [newText|]; [|apply triple_ret].
  apply triple_if; [apply apiCall_send_in_sync | apply triple_ret].
Qed.

Lemma editTodo_resume_keeps_sync id0 r : keeps in_sync (editTodo_resume id0 r).
Proof.
  apply triple_bind with (R := fun _ => in_sync);
    [apply updateTodo_resume_keeps_sync | intros _; apply triple_ret].
Qed.

Lemma resume_keeps_sync k a m : Loop.resume k a = Some m -> keeps in_sync m.
Proof.
  destruct k, a; simpl; intros [= <-].
  - apply loadTodos_resume_keeps_sync.
  - apply loadStats_resume_keeps_sync.
  - apply handleAddTodo_resume_keeps_sync.
  - apply editTodo_resume_keeps_sync.
  - apply deleteTodo_resume_keeps_sync.
  - apply toggleTodo_resume_keeps_sync.
Qed.

Lemma perform_world {A} (m : M A) k t :
  Loop.world (Loop.perform m k t) = exec m (Loop.world t).
Proof. reflexivity. Qed.

Lemma perform_in_sync {A} (m : M A) k t :
  keeps in_sync m -> in_sync (Loop.world t) -> in_sync (Loop.world (Loop.perform m k t)).
Proof. intros Hm Hs. rewrite perform_world. now apply keeps_exec. Qed.

Lemma run_in_sync {A} (m : M A) t :
  keeps in_sync m -> in_sync (Loop.world t) -> in_sync (Loop.world (Loop.run m t)).
Proof.
  intros Hm Hs. change (in_sync (exec m (Loop.world t))). now apply keeps_exec.
Qed.

Lemma on_event_in_sync ev t :
  in_sync (Loop.world t) -> in_sync (Loop.world (Loop.on_event ev t)).
Proof.
  intros Hs. destruct ev; cbn [Loop.on_event].
  - revert Hs. apply in_sync_core. reflexivity.
  - revert Hs. apply in_sync_core. reflexivity.
  - exact Hs.
  - unfold Loop.submit.
    apply perform_in_sync; [apply handleAddTodo_send_keeps_sync | exact Hs].
  - apply run_in_sync; [apply handleFilterChange_keeps_sync | exact Hs].
  - apply run_in_sync; [apply handleSearch_keeps_sync | exact Hs].
  - exact Hs.
  - unfold Loop.click_modalOk.
    destruct (Loop.modalOk_onclick (Loop.hideModal t)); [|exact Hs].
    change (in_sync (exec (deleteTodo_send z) (Loop.world t))).
    apply keeps_exec; [apply apiCall_send_in_sync | exact Hs].
  - destruct target_is_modal; exact Hs.
  - unfold Loop.handleKeyboardShortcuts.
    set (t1 := if (ctrlKey e || metaKey e) && String.eqb (key e) "Enter"
               then match Loop.activeElement t with
                    | TodoInput => Loop.submit t
                    | _ => t
                    end
               else t).
    assert (H1 : in_sync (Loop.world t1)).
    { unfold t1. destruct ((ctrlKey e || metaKey e) && String.eqb (key e) "Enter");
        [|exact Hs].
      destruct (Loop.activeElement t); try exact Hs.
      unfold Loop.submit. apply perform_in_sync; [apply handleAddTodo_send_keeps_sync | exact Hs]. }
    destruct (String.eqb (key e) "Escape"); [|exact H1].
    destruct (Loop.activeElement t1); try exact H1.
    apply run_in_sync; [apply set_searchQuery_render_sync | exact H1].
  - apply perform_in_sync; [apply apiCall_send_in_sync | exact Hs].
  - apply perform_in_sync; [apply editTodo_send_keeps_sync | exact Hs].
  - unfold Loop.confirmDeleteTodo.
    destruct (find (fun todo => id todo =? id0) (cache (Loop.world t))); exact Hs.
  - unfold Loop.arrive. destruct (Loop.inflight t !! i) as [k|]; [|exact Hs].
    destruct (Loop.resume k a) as [m|] eqn:E; [|exact Hs].
    assert (H : in_sync (Loop.world
                  (Loop.perform m Loop.InLoadStats
                     (Loop.set_inflight (delete i (Loop.inflight t)) t)))).
    { apply perform_in_sync; [now apply (resume_keeps_sync k a) | exact Hs]. }
    destruct k; exact H.
  - revert Hs. apply in_sync_core. reflexivity.
Qed.

(** A submission whose response is the next thing to happen is the
    submission of [Page]: the run to the end that [handleAddTodo r] is. *)
Lemma submit_then_response r t :
  truthy (trim (todoInput (Loop.world t))) = true ->
  Loop.world
    (Loop.arrive (List.length (Loop.inflight t)) (Loop.OfTodo r) (Loop.submit t))
  = exec (handleAddTodo r) (Loop.world t).
Proof.
  intros Ht.
  assert (Es : exists w1,
             handleAddTodo_send (Loop.world t) = (Normal tt, w1) /\
             Loop.sent (Loop.world t) w1 = 1%nat).
  { cbv beta iota delta [handleAddTodo_send bind gets]. rewrite Ht. cbn [negb].
    eexists. split; [reflexivity|].
    unfold Loop.sent. cbn [requests set_requests set_loadingOverlay].
    rewrite List.length_app. cbn [List.length]. lia. }
  destruct Es as (w1 & Es & Hsent).
  unfold exec. rewrite handleAddTodo_halves, Ht. unfold bind at 1. rewrite Es.
  unfold Loop.arrive, Loop.submit, Loop.perform, exec. rewrite Es. cbn [snd].
  rewrite Hsent. cbn [Loop.inflight Loop.set_inflight Loop.set_world repeat].
  rewrite list_lookup_middle by reflexivity.
  reflexivity.
Qed.

(** X7. Whatever happens to the page, in whatever order (the user types,
    submits, clicks and presses keys while calls are in flight; responses
    arrive in any order, with any content), a list on screen that is the
    projection of the cache under the current filter and query stays so:
    no stretch of script changes cache, filter or query without rendering
    again before it hands control back. *)
Theorem view_never_stale (evs : list Loop.Event) (t : Loop.Tab) :
  in_sync (Loop.world t) ->
  in_sync (Loop.world (Loop.after evs t)) /\
  todosList (Loop.world (Loop.after evs t))
  = selection (Loop.world (Loop.after evs t)).
Proof.
  intros Hs.
  assert (H : in_sync (Loop.world (Loop.after evs t))).
  { revert t Hs. induction evs as [|ev evs IH]; intros t Hs; [exact Hs|].
    simpl. apply IH. now apply on_event_in_sync. }
  split; [exact H|]. destruct H as [_ H]. exact H.
Qed.

Lemma view_never_stale_witness :
  let t := Loop.load (world_of [] "all" "") in
  let evs :=
    [Loop.Arrive 0 (Loop.OfTodos (success 200 [buy_milk]));
     Loop.TodoTyped "call mom"; Loop.Submit;
     Loop.TodoTyped "Write report"; Loop.Submit;
     Loop.Arrive 3 (Loop.OfTodo (success 201 write_report));
     Loop.Arrive 2 (Loop.OfTodo (success 201 call_mom));
     Loop.Focus SearchInput; Loop.SearchTyped "M";
     Loop.KeyDown (mkKey false false "Escape")] in
  in_sync (Loop.world t) /\
  (in_sync (Loop.world (Loop.after evs t)) /\
   todosList (Loop.world (Loop.after evs t))
   = selection (Loop.world (Loop.after evs t))) /\
  cache (Loop.world (Loop.after evs t)) = [buy_milk; write_report; call_mom] /\
  Loop.inflight (Loop.after evs t)
  = [Loop.InLoadStats; Loop.InLoadStats; Loop.InLoadStats; Loop.InLoadStats].
Proof.
  intros t evs.
  assert (Hs : in_sync (Loop.world t)) by (apply constructor_in_sync; reflexivity).
  split; [exact Hs|]. split; [exact (view_never_stale evs t Hs)|].
  split; vm_compute; reflexivity.
Defined.

End EventLoop.


(* ===================================================================== *)
(** ** Requests, overlay and form *)
(* ===================================================================== *)

Section Requests.
Import JsString JsArray Client ClientFacts Page PageFacts.

Lemma succeeded_cases {A} (r : FetchResult A) :
  (succeeded r = false /\ failed r) \/
  (exists status data, r = success status data /\ ok status = true /\ succeeded r = true).
Proof.
  destruct r as [msg | status [data | msg]]; simpl; auto.
  destruct (ok status) eqn:Hok; [right | left]; eauto.
Qed.

Lemma known_In w id0 :
  known w id0 = true <-> exists x, In x (cache w) /\ id x = id0.
Proof.
  unfold known. rewrite existsb_exists. split; intros (x & Hx & Hid); exists x;
    (split; [exact Hx|]); now apply Z.eqb_eq.
Qed.

Lemma unknown_In w id0 :
  known w id0 = false -> forall x, In x (cache w) -> id x <> id0.
Proof.
  intros Hk x Hx Hid. assert (known w id0 = true) by (apply known_In; eauto).
  congruence.
Qed.

(** The complete state after a successful [updateTodo] or [toggleTodo]
    for an id nobody has. *)
Lemma updateTodo_unknown w id0 updates status t :
  ok status = true -> known w id0 = false ->
  updateTodo id0 updates (success status t) w =
  (Normal (Some t),
   set_toastContainer
     (toastContainer w ++ [mkToast "Todo updated successfully!" "success"])
     (set_loadingOverlay false
        (set_requests
           (requests w ++ [mkRequest ("/api/todos/" +:+ of_Z id0) "PUT" (Partial updates)])
           w))).
Proof.
  intros Hok Hk.
  pose proof (findIndex_unknown_id id0 (cache w) (unknown_In w id0 Hk)) as Hidx.
  unfold updateTodo, success. erewrite try_catch_Normal; [reflexivity|].
  erewrite bind_Normal by (apply apiCall_succeeded; exact Hok).
  unfold bind at 1, gets at 1.
  match goal with
  | |- context [cache ?x] => change (cache x) with (cache w)
  end.
  rewrite Hidx. reflexivity.
Qed.

Lemma toggleTodo_unknown w id0 status t :
  ok status = true -> known w id0 = false ->
  toggleTodo id0 (success status t) w =
  (Normal tt,
   set_toastContainer
     (toastContainer w
      ++ [mkToast ("Todo " +:+ (if completed t then "completed" else "reopened") +:+ "!")
            "success"])
     (set_loadingOverlay false
        (set_requests
           (requests w ++ [mkRequest ("/api/todos/toggle/" +:+ of_Z id0) "PATCH" NoBody])
           w))).
Proof.
  intros Hok Hk.
  pose proof (findIndex_unknown_id id0 (cache w) (unknown_In w id0 Hk)) as Hidx.
  unfold toggleTodo, success. erewrite try_catch_Normal; [reflexivity|].
  erewrite bind_Normal by (apply apiCall_succeeded; exact Hok).
  unfold bind at 1, gets at 1.
  match goal with
  | |- context [cache ?x] => change (cache x) with (cache w)
  end.
  rewrite Hidx. reflexivity.
Qed.

Lemma known_findIndex w id0 :
  known w id0 = true ->
  exists n, findIndex (fun todo => id todo =? id0) (cache w) = Z.of_nat n.
Proof.
  intros Hk. apply known_In in Hk as (x & Hx & Hid).
  destruct (findIndex_first (fun todo => id todo =? id0) (cache w) x Hx)
    as (n & y & En & _); [now apply Z.eqb_eq|]. eauto.
Qed.

(** What a mutating method sends and how it leaves the overlay, for every
    response. *)
Lemma perform_requests w op :
  requests (exec (perform op) w)
  = requests w ++ request_of op :: (if refreshes w op then [stats_request] else []) /\
  loadingOverlay (exec (perform op) w) = refreshes w op.
Proof.
  destruct op as [text priority r | id0 updates r | id0 r | id0 r]; cbn [refreshes].
  - destruct (succeeded_cases r) as [[-> Hf] | (status & data & -> & Hok & ->)].
    + destruct (perform_failed w (Add text priority r) Hf) as [label E].
      unfold exec. rewrite E. split; reflexivity.
    + destruct (addTodo_succeeded w text priority status data Hok) as (h' & _ & E).
      unfold exec, perform. erewrite bind_Normal by exact E.
      cbn [snd requests loadingOverlay ret]. rewrite <- app_assoc. split; reflexivity.
  - destruct (succeeded_cases r) as [[-> Hf] | (status & data & -> & Hok & ->)].
    + destruct (perform_failed w (Update id0 updates r) Hf) as [label E].
      unfold exec. rewrite E. split; reflexivity.
    + cbn [andb]. destruct (known w id0) eqn:Hk.
      * destruct (known_findIndex w id0 Hk) as [n En].
        destruct (updateTodo_replaced w id0 updates status data n Hok En) as (h' & _ & E).
        unfold exec, perform. erewrite bind_Normal by exact E.
        cbn [snd requests loadingOverlay ret]. rewrite <- app_assoc. split; reflexivity.
      * unfold exec, perform.
        erewrite bind_Normal by (apply updateTodo_unknown; assumption).
        split; reflexivity.
  - destruct (succeeded_cases r) as [[-> Hf] | (status & data & -> & Hok & ->)].
    + destruct (perform_failed w (Delete id0 r) Hf) as [label E].
      unfold exec. rewrite E. split; reflexivity.
    + destruct data. destruct (deleteTodo_succeeded w id0 status Hok) as (h' & _ & E).
      unfold exec, perform. rewrite E.
      cbn [snd requests loadingOverlay ret]. rewrite <- app_assoc. split; reflexivity.
  - destruct (succeeded_cases r) as [[-> Hf] | (status & data & -> & Hok & ->)].
    + destruct (perform_failed w (Toggle id0 r) Hf) as [label E].
      unfold exec. rewrite E. split; reflexivity.
    + cbn [andb]. destruct (known w id0) eqn:Hk.
      * destruct (known_findIndex w id0 Hk) as [n En].
        destruct (toggleTodo_replaced w id0 status data n Hok En) as (h' & _ & E).
        unfold exec, perform. rewrite E.
        cbn [snd requests loadingOverlay ret]. rewrite <- app_assoc. split; reflexivity.
      * unfold exec, perform. rewrite toggleTodo_unknown by assumption.
        split; reflexivity.
Qed.

(** X9. For every response, a mutating method ends without throwing and
    has sent exactly its own request first; GET /api/stats follows exactly
    when the call succeeded and the method got to its re-render (always for
    add and delete, also when the deleted id is unknown; for update and
    toggle only when a cached record has the id).  The loading overlay is
    left shown exactly in that case, as the stats call is not awaited. *)
Theorem stats_follow_refresh (w : World) (op : Mutation) :
  eval (perform op) w = Normal tt /\
  requests (exec (perform op) w)
  = requests w ++ request_of op :: (if refreshes w op then [stats_request] else []) /\
  loadingOverlay (exec (perform op) w) = refreshes w op.
Proof.
  split; [|apply perform_requests].
  unfold eval.
  destruct op as [text priority r | id0 updates r | id0 r | id0 r]; unfold perform.
  - unfold addTodo, try_catch, bind at 1.
    destruct (bind _ _ w) as [[a | e] w']; reflexivity.
  - unfold updateTodo, try_catch, bind at 1.
    destruct (bind _ _ w) as [[a | e] w']; reflexivity.
  - unfold deleteTodo, try_catch.
    destruct (bind _ _ w) as [[[] | e] w']; reflexivity.
  - unfold toggleTodo, try_catch.
    destruct (bind _ _ w) as [[[] | e] w']; reflexivity.
Qed.

End Requests.

Section Handlers.
Import JsString JsArray Client ClientFacts Page PageFacts.

Lemma trimStart_blank s : blank (trimStart s) = blank s.
Proof.
  induction s as [|c s IH]; [reflexivity|].
  simpl. destruct (is_space c) eqn:Hc; [exact IH|].
  simpl. now rewrite Hc.
Qed.

Lemma trimEnd_blank s : trimEnd s = "" <-> blank s = true.
Proof.
  induction s as [|c s IH]; simpl; [now split|].
  destruct (is_space c); simpl.
  - destruct (trimEnd s) eqn:E; simpl.
    + split; [intros _; now apply IH | reflexivity].
    + split; [discriminate | intros Hb; apply IH in Hb; discriminate].
  - split; discriminate.
Qed.

(** The input is rejected exactly when it is made of white space only. *)
Lemma trim_blank s : trim s = "" <-> blank s = true.
Proof. unfold trim. now rewrite trimEnd_blank, trimStart_blank. Qed.

Lemma truthy_trim s : truthy (trim s) = negb (blank s).
Proof.
  destruct (blank s) eqn:Hb.
  - apply trim_blank in Hb. now rewrite Hb.
  - destruct (trim s) eqn:E; [|reflexivity].
    apply trim_blank in E. congruence.
Qed.

(** [handleAddTodo] on an input with something in it. *)
Lemma handleAddTodo_nonblank w r :
  blank (todoInput w) = false ->
  exec (handleAddTodo r) w
  = set_prioritySelect "medium"
      (set_todoInput ""
         (exec (perform (Add (trim (todoInput w)) (prioritySelect w) r)) w)).
Proof.
  intros Hb. unfold handleAddTodo, exec, perform.
  unfold bind at 1, gets at 1. unfold bind at 1, gets at 1.
  rewrite truthy_trim, Hb. cbn [negb].
  unfold bind.
  destruct (addTodo (trim (todoInput w)) (prioritySelect w) r w) as [[a | e] w'] eqn:E.
  - reflexivity.
  - exfalso. revert E. unfold addTodo, try_catch.
    destruct (bind _ _ w) as [[a | e'] w'']; [discriminate|].
    unfold bind, console_error, modify, ret. discriminate.
Qed.

(** X10. [handleAddTodo] sends a request exactly when the input has a
    character that is not white space.  A blank input sends nothing and is
    left in the box.  Otherwise one POST goes out with the trimmed text and
    the selected priority (followed by the stats GET iff it succeeded), and
    the form is reset to an empty box and priority 'medium' whether the
    call succeeded or failed. *)
Theorem handleAddTodo_submits (w : World) (r : FetchResult Todo) :
  let w' := exec (handleAddTodo r) w in
  (blank (todoInput w) = true ->
   requests w' = requests w /\ todoInput w' = todoInput w /\
   prioritySelect w' = prioritySelect w) /\
  (blank (todoInput w) = false ->
   requests w'
   = requests w
     ++ mkRequest "/api/todos" "POST" (NewTodo (trim (todoInput w)) (prioritySelect w))
        :: (if succeeded r then [stats_request] else []) /\
   todoInput w' = "" /\ prioritySelect w' = "medium").
Proof.
  intros w'. split; intros Hb.
  - apply trim_blank in Hb. subst w'. unfold exec, handleAddTodo, bind, gets.
    rewrite Hb. repeat split; reflexivity.
  - subst w'. rewrite (handleAddTodo_nonblank w r Hb).
    cbn [requests todoInput prioritySelect set_prioritySelect set_todoInput].
    split; [|split; reflexivity].
    exact (proj1 (perform_requests w (Add (trim (todoInput w)) (prioritySelect w) r))).
Qed.

Lemma handleAddTodo_submits_witness :
  let w := set_todoInput "  call mom " (world_of [buy_milk] "all" "") in
  let w' := exec (handleAddTodo (Rejected "Failed to fetch")) w in
  blank (todoInput w) = false /\
  requests w' = [mkRequest "/api/todos" "POST" (NewTodo "call mom" "medium")] /\
  todoInput w' = "" /\ prioritySelect w' = "medium".
Proof.
  intros w w'. split; [reflexivity|].
  exact (proj2 (handleAddTodo_submits w (Rejected "Failed to fetch")) eq_refl).
Defined.

(** X11. [handleFilterChange] does nothing at all when the clicked element
    carries no filter or an empty one.  With a filter it stores it, sends
    nothing, leaves cache and query alone, and the list on screen becomes
    the projection of the cache under the new filter. *)
Theorem handleFilterChange_effect (w : World) :
  valid w ->
  handleFilterChange None w = (Normal tt, w) /\
  handleFilterChange (Some "") w = (Normal tt, w) /\
  (forall f, f <> "" ->
     let w' := exec (handleFilterChange (Some f)) w in
     currentFilter w' = f /\
     searchQuery w' = searchQuery w /\
     cache w' = cache w /\
     requests w' = requests w /\
     todosList w' = selection (set_currentFilter f w) /\
     todosList w' = selection w').
Proof.
  intros Hv. split; [reflexivity|]. split; [reflexivity|].
  intros f Hf w'. subst w'.
  destruct (renderTodos_run (set_currentFilter f w)) as (h' & S & E).
  assert (Ex : exec (handleFilterChange (Some f)) w
               = set_todosList (selection (set_currentFilter f w))
                   (set_emptyState
                      (if Nat.eqb (List.length (selection (set_currentFilter f w))) 0
                       then "block" else "none")
                      (set_heap h' (set_currentFilter f w)))).
  { unfold exec, handleFilterChange. destruct f; [congruence|].
    cbn [truthy is_empty negb]. unfold bind at 1, modify at 1. now rewrite E. }
  rewrite Ex.
  assert (Hc : read h' (todos w) = cache w) by (apply (cache_extends w h' Hv S)).
  split; [reflexivity|]. split; [reflexivity|]. split; [exact Hc|].
  split; [reflexivity|]. split; [reflexivity|].
  cbn [todosList set_todosList]. apply selection_depends; try reflexivity.
  symmetry. exact Hc.
Qed.

Lemma handleFilterChange_effect_witness :
  let w := world_of [buy_milk; write_report; call_mom] "all" "" in
  valid w /\
  todosList (exec (handleFilterChange (Some "completed")) w)
  = selection (set_currentFilter "completed" w).
Proof.
  intros w. split; [apply valid_world_of|].
  destruct (handleFilterChange_effect w (valid_world_of _ _ _)) as (_ & _ & H).
  destruct (H "completed") as (_ & _ & _ & _ & Hl & _); [discriminate|].
  exact Hl.
Defined.

(** X12. [editTodo] does nothing at all when no cached record has the id,
    when the prompt is cancelled or answered with the empty string, or
    when the trimmed answer equals the record's text.  In every other case
    (an answer of white space only included, which trims to the empty text)
    it sends one PUT for that id whose body is just the trimmed answer. *)
Theorem editTodo_sends (w : World) (id0 : Z) (r : FetchResult Todo) :
  (find (fun t => id t =? id0) (cache w) = None ->
   forall answer, editTodo id0 answer r w = (Normal tt, w)) /\
  editTodo id0 None r w = (Normal tt, w) /\
  editTodo id0 (Some "") r w = (Normal tt, w) /\
  (forall todo newText,
     find (fun t => id t =? id0) (cache w) = Some todo ->
     trim newText = text todo ->
     editTodo id0 (Some newText) r w = (Normal tt, w)) /\
  (forall todo newText,
     find (fun t => id t =? id0) (cache w) = Some todo ->
     newText <> "" -> trim newText <> text todo ->
     requests (exec (editTodo id0 (Some newText) r) w)
     = requests w
       ++ mkRequest ("/api/todos/" +:+ of_Z id0) "PUT"
            (Partial (mkUpdates (Some (trim newText)) None None))
          :: (if succeeded r && known w id0 then [stats_request] else [])).
Proof.
  split; [|split; [|split; [|split]]].
  - intros Hnone answer. unfold editTodo, bind, gets. now rewrite Hnone.
  - unfold editTodo, bind, gets.
    destruct (find (fun t => id t =? id0) (cache w)); reflexivity.
  - unfold editTodo, bind, gets.
    destruct (find (fun t => id t =? id0) (cache w)); reflexivity.
  - intros todo newText Hfound Hsame. unfold editTodo, bind at 1, gets at 1.
    rewrite Hfound, Hsame, String.eqb_refl, andb_false_r. reflexivity.
  - intros todo newText Hfound Hne Hdiff. unfold exec, editTodo.
    unfold bind at 1, gets at 1. rewrite Hfound.
    replace (truthy newText) with true by (destruct newText; [congruence | reflexivity]).
    apply String.eqb_neq in Hdiff. rewrite Hdiff. cbn [andb negb].
    exact (proj1 (perform_requests w
                    (Update id0 (mkUpdates (Some (trim newText)) None None) r))).
Qed.

Lemma editTodo_sends_witness :
  let w := world_of [buy_milk; write_report] "all" "" in
  (find (fun t => id t =? 1) (cache w) = Some buy_milk /\
   "   " <> "" /\ trim "   " <> text buy_milk) /\
  requests (exec (editTodo 1 (Some "   ") (Rejected "Failed to fetch")) w)
  = [mkRequest "/api/todos/1" "PUT" (Partial (mkUpdates (Some "") None None))].
Proof.
  intros w.
  assert (Hfound : find (fun t => id t =? 1) (cache w) = Some buy_milk).
  { unfold w. now rewrite cache_world_of. }
  split; [split; [exact Hfound | split; discriminate]|].
  destruct (editTodo_sends w 1 (Rejected "Failed to fetch")) as (_ & _ & _ & _ & H).
  exact (H buy_milk "   " Hfound ltac:(discriminate) ltac:(discriminate)).
Defined.

(** X13. [apiCall] always logs exactly one request and ends with the
    overlay hidden.  It returns the parsed body, with no toast and no
    console line, exactly when the status is in 200-299 and the body is
    JSON.  Otherwise it throws after exactly one error toast and one
    console line; for a status outside 200-299 the message is
    'HTTP error! status: N' whatever the body said. *)
Theorem apiCall_outcome {A} (endpoint method : string) (body : RequestBody)
    (r : FetchResult A) (w : World) :
  let w' := exec (apiCall endpoint method body r) w in
  requests w' = requests w ++ [mkRequest ("/api" +:+ endpoint) method body] /\
  loadingOverlay w' = false /\
  core w' = core w /\
  (forall status data,
     r = Resolved status (Json data) -> ok status = true ->
     eval (apiCall endpoint method body r) w = Normal data /\
     toastContainer w' = toastContainer w /\ console w' = console w) /\
  (succeeded r = false ->
   eval (apiCall endpoint method body r) w = Thrown (error_of r) /\
   toastContainer w'
   = toastContainer w ++ [mkToast ("Error: " +:+ message (error_of r)) "error"] /\
   console w' = console w ++ [("API Error:", error_of r)]) /\
  (forall status b,
     r = Resolved status b -> ok status = false ->
     error_of r = mkError ("HTTP error! status: " +:+ of_Z status)).
Proof.
  intros w'. subst w'.
  destruct (succeeded_cases r) as [[Hs Hf] | (status & data & -> & Hok & Hs)].
  - unfold exec, eval. rewrite (apiCall_failed endpoint method body r w Hf).
    cbn [fst snd requests loadingOverlay toastContainer console].
    split; [reflexivity|]. split; [reflexivity|]. split; [reflexivity|].
    split; [|split].
    + intros status data -> Hok. simpl in Hs. congruence.
    + intros _. repeat split; reflexivity.
    + intros status b -> Hok. unfold error_of. now rewrite Hok.
  - unfold exec, eval, success.
    rewrite (apiCall_succeeded endpoint method body status data w Hok).
    cbn [fst snd requests loadingOverlay toastContainer console].
    split; [reflexivity|]. split; [reflexivity|]. split; [reflexivity|].
    split; [|split].
    + intros status' data' [= -> ->] _. repeat split; reflexivity.
    + unfold success in Hs. congruence.
    + intros status' b [= -> <-] Hno. congruence.
Qed.

(** X14. When the stats response arrives, the counters show it if it is a
    success and are left as they were if it is a failure (which is toasted
    once); either way the overlay is hidden, no request is sent, no
    exception escapes, and cache, filter, query and list are untouched. *)
Theorem loadStats_resume_outcome (w : World) (r : FetchResult Stats) :
  let w' := exec (loadStats_resume r) w in
  eval (loadStats_resume r) w = Normal tt /\
  core w' = core w /\
  loadingOverlay w' = false /\
  requests w' = requests w /\
  (forall status stats,
     r = Resolved status (Json stats) -> ok status = true ->
     shownStats w' = Some stats /\ toastContainer w' = toastContainer w) /\
  (succeeded r = false ->
   shownStats w' = shownStats w /\
   toastContainer w'
   = toastContainer w ++ [mkToast ("Error: " +:+ message (error_of r)) "error"]).
Proof.
  intros w'. subst w'.
  unfold exec, eval, loadStats_resume, apiCall_settle, try_catch, try_finally, bind.
  destruct r as [msg | st [sv | msg]]; [| destruct (ok st) eqn:Hok |
                                         destruct (ok st) eqn:Hok];
    cbn -[core];
    (split; [reflexivity|]); (split; [reflexivity|]); (split; [reflexivity|]);
    (split; [reflexivity|]); split;
    try (intros s1 s2 [= -> ->] Hok'); try (intros s1 s2 [=]);
    try (intros Hs; simpl in Hs); try congruence;
    rewrite ?Hok; try (split; reflexivity).
Qed.

End Handlers.

(* ===================================================================== *)
(** ** Modal, keyboard, escaping *)
(* ===================================================================== *)

Section PageProperties.
Import JsString JsArray Client ClientFacts Page PageFacts.

Lemma find_Some (p : Todo -> bool) l x :
  find p l = Some x -> In x l /\ p x = true.
Proof.
  induction l as [|a l IH]; [discriminate|]. simpl.
  destruct (p a) eqn:Ha.
  - intros [= ->]. auto.
  - intros H. destruct (IH H). auto.
Qed.

(** X15. [confirmDeleteTodo] on an id nobody has leaves the page as it
    is.  On a known id it opens the modal, quoting the text of the first
    record with that id, and sends nothing.  From there the close button
    and a click on the backdrop hide the modal and delete nothing; a click
    inside the dialog does nothing; the OK button, when the call succeeds,
    hides the modal and removes from the cache every record with that id. *)
Theorem confirmDeleteTodo_flow (p : State) (id0 : Z) :
  (find (fun t => id t =? id0) (cache (world p)) = None ->
   confirmDeleteTodo id0 p = p) /\
  (forall todo,
     find (fun t => id t =? id0) (cache (world p)) = Some todo ->
     let p1 := confirmDeleteTodo id0 p in
     (modal p1 = true /\ world p1 = world p /\
      modalTitle p1 = "Delete Todo" /\
      modalMessage p1
      = "Are you sure you want to delete " +:+ dquote +:+ text todo +:+ dquote +:+ "?") /\
     (modal (click_modalClose p1) = false /\ world (click_modalClose p1) = world p) /\
     (modal (click_modal true p1) = false /\ world (click_modal true p1) = world p) /\
     click_modal false p1 = p1 /\
     (forall status,
        ok status = true ->
        let p2 := click_modalOk (success status tt) p1 in
        modal p2 = false /\
        cache (world p2)
        = List.filter (fun t => negb (id t =? id0)) (cache (world p)) /\
        ~ In todo (cache (world p2)))).
Proof.
  split.
  - intros Hnone. unfold confirmDeleteTodo. now rewrite Hnone.
  - intros todo Hfound p1.
    assert (E1 : p1 = showModal "Delete Todo"
                   ("Are you sure you want to delete " +:+ dquote +:+ text todo
                    +:+ dquote +:+ "?") (Some (deleteTodo id0)) p).
    { unfold p1, confirmDeleteTodo. now rewrite Hfound. }
    rewrite E1.
    split; [repeat split; reflexivity|].
    split; [split; reflexivity|]. split; [split; reflexivity|].
    split; [reflexivity|].
    intros status Hok p2. subst p2.
    unfold click_modalOk, showModal, hideModal, set_modal, run, set_world.
    cbn [modalOk_onclick world modal].
    split; [reflexivity|].
    rewrite deleteTodo_cache by exact Hok.
    split; [reflexivity|].
    intros Hin. apply List.filter_In in Hin as [_ Hid].
    apply find_Some in Hfound as [_ Hp]. rewrite Hp in Hid. discriminate.
Qed.

Lemma confirmDeleteTodo_flow_witness :
  let p := page_of (world_of [buy_milk; write_report] "all" "") in
  find (fun t => id t =? 2) (cache (world p)) = Some write_report /\
  modal (confirmDeleteTodo 2 p) = true /\
  cache (world (click_modalOk (success 200 tt) (confirmDeleteTodo 2 p)))
  = List.filter (fun t => negb (id t =? 2)) (cache (world p)).
Proof.
  intros p.
  assert (Hfound : find (fun t => id t =? 2) (cache (world p)) = Some write_report).
  { unfold p, page_of. cbn [world]. now rewrite cache_world_of. }
  split; [exact Hfound|].
  destruct (proj2 (confirmDeleteTodo_flow p 2) write_report Hfound)
    as ((Hm & _) & _ & _ & _ & Hok).
  split; [exact Hm|]. exact (proj1 (proj2 (Hok 200 eq_refl))).
Defined.

(** X16. [handleKeyboardShortcuts] changes nothing for a key that is
    neither Escape nor Enter with Ctrl or Cmd, and nothing when the focus
    is on neither box.  Escape in the search box empties the box and the
    query, sends nothing, and shows the projection of the unchanged cache
    without a query.  Ctrl or Cmd with Enter in the todo box is a form
    submission. *)
Theorem handleKeyboardShortcuts_effect (e : KeyboardEvent) (r : FetchResult Todo)
    (p : State) :
  (key e <> "Escape" ->
   (ctrlKey e || metaKey e) && String.eqb (key e) "Enter" = false ->
   handleKeyboardShortcuts e r p = p) /\
  (activeElement p = Elsewhere -> handleKeyboardShortcuts e r p = p) /\
  (key e = "Escape" -> activeElement p = SearchInput -> valid (world p) ->
   let p' := handleKeyboardShortcuts e r p in
   searchInput p' = "" /\
   searchQuery (world p') = "" /\
   currentFilter (world p') = currentFilter (world p) /\
   cache (world p') = cache (world p) /\
   requests (world p') = requests (world p) /\
   todosList (world p') = selection (set_searchQuery "" (world p))) /\
  (key e = "Enter" -> ctrlKey e || metaKey e = true -> activeElement p = TodoInput ->
   handleKeyboardShortcuts e r p = on_event (Submit r) p).
Proof.
  split; [|split; [|split]].
  - intros Hesc Hent. unfold handleKeyboardShortcuts. rewrite Hent.
    apply String.eqb_neq in Hesc. now rewrite Hesc.
  - intros Hact. unfold handleKeyboardShortcuts. rewrite Hact.
    destruct ((ctrlKey e || metaKey e) && String.eqb (key e) "Enter");
      rewrite Hact; destruct (String.eqb (key e) "Escape"); reflexivity.
  - intros Hkey Hact Hv p'.
    assert (Ep : p' = run (bind (modify (set_searchQuery "")) (fun _ => renderTodos))
                        (set_searchInput "" p)).
    { unfold p', handleKeyboardShortcuts. rewrite Hkey. cbn [String.eqb Ascii.eqb].
      rewrite andb_false_r. cbn -[renderTodos run]. now rewrite Hact. }
    destruct (renderTodos_run (set_searchQuery "" (world p))) as (h' & S & E).
    assert (Ex : exec (bind (modify (set_searchQuery "")) (fun _ => renderTodos)) (world p)
                 = set_todosList (selection (set_searchQuery "" (world p)))
                     (set_emptyState
                        (if Nat.eqb (List.length (selection (set_searchQuery "" (world p)))) 0
                         then "block" else "none")
                        (set_heap h' (set_searchQuery "" (world p))))).
    { unfold exec, bind, modify. now rewrite E. }
    rewrite Ep. unfold run. cbn [world searchInput set_world set_searchInput].
    rewrite Ex.
    split; [reflexivity|]. split; [reflexivity|]. split; [reflexivity|].
    split; [exact (cache_extends (world p) h' Hv S)|].
    split; reflexivity.
  - intros Hkey Hmod Hact. unfold handleKeyboardShortcuts.
    rewrite Hkey, Hmod, Hact. reflexivity.
Qed.

Lemma handleKeyboardShortcuts_effect_witness :
  let w := exec (handleSearch "milk") (world_of [buy_milk; write_report] "all" "") in
  let p := mkState w "milk" SearchInput false "" "" None in
  let e := mkKey false false "Escape" in
  (key e = "Escape" /\ activeElement p = SearchInput /\ valid (world p)) /\
  searchQuery (world (handleKeyboardShortcuts e (Rejected "unused") p)) = "" /\
  cache (world (handleKeyboardShortcuts e (Rejected "unused") p)) = cache (world p).
Proof.
  intros w p e.
  assert (Hv : valid (world p)).
  { apply steady_handleSearch, valid_world_of. }
  split; [split; [reflexivity | split; [reflexivity | exact Hv]]|].
  destruct (handleKeyboardShortcuts_effect e (Rejected "unused") p)
    as (_ & _ & H & _).
  destruct (H eq_refl eq_refl Hv) as (_ & Hq & _ & Hc & _).
  split; [exact Hq | exact Hc].
Defined.

Lemma all_chars_app p a b :
  all_chars p (a +:+ b) = all_chars p a && all_chars p b.
Proof.
  induction a as [|c a IH]; [reflexivity|].
  simpl. rewrite IH. now rewrite andb_assoc.
Qed.

Lemma length_app_string a b :
  String.length (a +:+ b) = (String.length a + String.length b)%nat.
Proof. induction a as [|c a IH]; simpl; [reflexivity | now rewrite IH]. Qed.

Lemma escape_char_safe c :
  all_chars (fun x => negb (Ascii.eqb x "<") && negb (Ascii.eqb x ">")) (escape_char c)
  = true.
Proof.
  unfold escape_char.
  destruct (Ascii.eqb c "&"); [reflexivity|].
  destruct (Ascii.eqb c "<") eqn:Hlt; [reflexivity|].
  destruct (Ascii.eqb c ">") eqn:Hgt; [reflexivity|].
  destruct (code c =? 160)%N; [reflexivity|].
  simpl. now rewrite Hlt, Hgt.
Qed.

Lemma escape_char_plain c : special c = false -> escape_char c = String c EmptyString.
Proof.
  unfold special, escape_char. intros H.
  apply orb_false_iff in H as [H H4]. apply orb_false_iff in H as [H H3].
  apply orb_false_iff in H as [H1 H2]. now rewrite H1, H2, H3, H4.
Qed.

Lemma escape_char_length c : (1 <= String.length (escape_char c))%nat.
Proof.
  unfold escape_char.
  destruct (Ascii.eqb c "&"); [simpl; lia|].
  destruct (Ascii.eqb c "<"); [simpl; lia|].
  destruct (Ascii.eqb c ">"); [simpl; lia|].
  destruct (code c =? 160)%N; simpl; lia.
Qed.

(** X17. The output of [escapeHtml] contains neither '<' nor '>', whatever
    the text; a text without ampersand, angle bracket or no-break space
    comes out unchanged; and the output is never shorter than the text. *)
Theorem escapeHtml_no_markup (text : string) :
  all_chars (fun x => negb (Ascii.eqb x "<") && negb (Ascii.eqb x ">"))
    (escapeHtml text) = true /\
  (all_chars (fun c => negb (special c)) text = true -> escapeHtml text = text) /\
  (String.length text <= String.length (escapeHtml text))%nat.
Proof.
  induction text as [|c s (IH1 & IH2 & IH3)]; [repeat split; reflexivity|].
  simpl. split; [|split].
  - now rewrite all_chars_app, escape_char_safe, IH1.
  - intros H. apply andb_true_iff in H as [Hc Hs].
    apply negb_true_iff in Hc. rewrite (escape_char_plain c Hc). simpl.
    now rewrite IH2.
  - rewrite length_app_string. pose proof (escape_char_length c). lia.
Qed.

End PageProperties.

(* ===================================================================== *)
(** ** The projection under any filter and query *)
(* ===================================================================== *)

Section ProjectionGeneral.
Import JsString JsArray Client ClientFacts Page PageFacts.

Lemma filter_filter (p q : Todo -> bool) l :
  List.filter q (List.filter p l) = List.filter (fun t => p t && q t) l.
Proof.
  induction l as [|x l IH]; [reflexivity|].
  simpl. destruct (p x); simpl; [destruct (q x)|]; now rewrite IH.
Qed.

Lemma filter_true (l : list Todo) : List.filter (fun _ => true) l = l.
Proof. induction l as [|x l IH]; [reflexivity|]. simpl. now rewrite IH. Qed.

Lemma by_search_by_status f q l :
  by_search q (by_status f l) = List.filter (shows f q) l.
Proof.
  unfold by_search, by_status, shows.
  destruct (String.eqb f "completed"); [|destruct (String.eqb f "pending")];
    destruct (truthy q);
    rewrite ?filter_filter; try reflexivity;
    try (rewrite <- (filter_true l) at 1; rewrite ?filter_filter; reflexivity);
    try (apply List.filter_ext; intros t; now rewrite andb_true_r).
Qed.

Lemma Forall_filter_wf (p : Todo -> bool) l :
  Forall well_formed l -> Forall well_formed (List.filter p l).
Proof.
  intros H. rewrite List.Forall_forall in *. intros x Hx.
  apply List.filter_In in Hx as [Hx _]. now apply H.
Qed.

Lemma filter_length_le (p : Todo -> bool) l :
  (List.length (List.filter p l) <= List.length l)%nat.
Proof.
  induction l as [|x l IH]; simpl; [lia|]. destruct (p x); simpl; lia.
Qed.



End ProjectionGeneral.

(* ===================================================================== *)
(** ** The edge server: who answers what *)
(* ===================================================================== *)

Section EdgeRouting.
Import JsString Edge.

(** The answer to every request, layer by layer. *)
Lemma handle_cases site req :
  handle site req =
  match (if is_get_or_head (method req) then public site (path req) else None) with
  | Some content => (SendFile content, [])
  | None =>
      if mounted "/api" (path req) then
        match backend site req with
        | inr answer => (Relay answer, [Connect req (inr answer)])
        | inl err => (SendJson 500 unavailable,
                      [Connect req (inl err); ConsoleError "Proxy Error:" err])
        end
      else if negb (decodable (path req)) then
        (SendJson 500 [("error", "Something went wrong!")],
         [ConsoleError "Server Error:"
            ("Failed to decode param '" +:+ path req +:+ "'")])
      else if is_get_or_head (method req) then
        match public site "/index.html" with
        | Some content => (SendFile content, [])
        | None => (SendJson 500 [("error", "Something went wrong!")],
                   [ConsoleError "Server Error:" "ENOENT"])
        end
      else if String.eqb (method req) "OPTIONS" then (Allow ["GET"; "HEAD"], [])
      else (Final 404, [])
  end.
Proof.
  unfold handle, app, dispatch, express_static, use_at, get_any, send_index,
    proxy, onError.
  destruct (is_get_or_head (method req)); [destruct (public site (path req))|];
    try reflexivity;
    destruct (mounted "/api" (path req)); try reflexivity;
    try (destruct (backend site req); reflexivity);
    destruct (decodable (path req)); cbn [negb]; try reflexivity;
    try (destruct (public site "/index.html"); reflexivity).
  destruct (String.eqb (method req) "OPTIONS"); reflexivity.
Qed.


(** X19. The backend is contacted exactly for the requests under [/api]
    that the static layer passes on (any method other than GET and HEAD,
    or a path that names no file): never for a request outside [/api],
    and never when a GET or HEAD names a file of the public directory, which
    is then served even under [/api]. *)
Theorem backend_contacted_iff (site : Site) (req : Request) (result : string + Upstream) :
  (connection site req = Some result <->
   mounted "/api" (path req) = true /\
   (is_get_or_head (method req) = false \/ public site (path req) = None) /\
   backend site req = result) /\
  (forall content,
     is_get_or_head (method req) = true -> public site (path req) = Some content ->
     handle site req = (SendFile content, [])).
Proof.
  split.
  - unfold connection. rewrite handle_cases. edge_cases site req; cbn;
      (split; intros H;
       [try discriminate H; try (injection H as <-; auto)
       | destruct H as (H1 & [H2 | H2] & H3); try congruence; try discriminate]).
  - intros content Hm Hfile. rewrite handle_cases, Hm, Hfile. reflexivity.
Qed.

(** X20. A request under [/api] that the static layer passes on, with
    whatever method, is answered with what the backend answered, as it
    came; exactly one connection is logged. *)
Theorem proxy_relays (site : Site) (req : Request) (answer : Upstream) :
  mounted "/api" (path req) = true ->
  is_get_or_head (method req) = false \/ public site (path req) = None ->
  backend site req = inr answer ->
  handle site req = (Relay answer, [Connect req (inr answer)]).
Proof.
  intros Hapi Hstatic Hb. rewrite handle_cases, Hapi, Hb.
  destruct Hstatic as [-> | Hnone]; [reflexivity|].
  rewrite Hnone. destruct (is_get_or_head (method req)); reflexivity.
Qed.

Lemma proxy_relays_witness :
  let site := mkSite (public demo_site) (fun _ => inr (mkUpstream 201 "{}")) in
  let req := mkRequest "POST" "/api/todos" in
  (mounted "/api" (path req) = true /\
   (is_get_or_head (method req) = false \/ public site (path req) = None) /\
   backend site req = inr (mkUpstream 201 "{}")) /\
  handle site req
  = (Relay (mkUpstream 201 "{}"), [Connect req (inr (mkUpstream 201 "{}"))]).
Proof.
  intros site req.
  split; [split; [reflexivity | split; [left; reflexivity | reflexivity]]|].
  exact (proxy_relays site req (mkUpstream 201 "{}") eq_refl
           (or_introl eq_refl) eq_refl).
Defined.


End EdgeRouting.

(* ===================================================================== *)
(** ** Rendering and searching: edge cases *)
(* ===================================================================== *)

Section RenderEdge.
Import JsString JsArray Client ClientFacts Page PageFacts.

(** X23. [renderTodos] shows the projection of the cache and displays the
    empty-state placeholder exactly when that projection is empty; it sends
    nothing, leaves cache, filter and query alone, and rendering a second
    time shows the same list and placeholder. *)
Theorem renderTodos_shows (w : World) :
  valid w ->
  let w' := exec renderTodos w in
  todosList w' = selection w /\
  (emptyState w' = "block" <-> selection w = []) /\
  (emptyState w' = "none" <-> selection w <> []) /\
  cache w' = cache w /\
  (currentFilter w' = currentFilter w /\ searchQuery w' = searchQuery w /\
   requests w' = requests w /\ toastContainer w' = toastContainer w) /\
  (todosList (exec renderTodos w') = todosList w' /\
   emptyState (exec renderTodos w') = emptyState w').
Proof.
  intros Hv w'. subst w'.
  destruct (renderTodos_run w) as (h' & S & E).
  assert (Ex : exec renderTodos w
               = set_todosList (selection w)
                   (set_emptyState
                      (if Nat.eqb (List.length (selection w)) 0 then "block" else "none")
                      (set_heap h' w))) by (unfold exec; now rewrite E).
  assert (Hc : read h' (todos w) = cache w) by exact (cache_extends w h' Hv S).
  assert (Hsel : selection (exec renderTodos w) = selection w).
  { rewrite Ex. apply selection_depends; [exact Hc | reflexivity | reflexivity]. }
  split; [now rewrite Ex|].
  split; [|split; [|split; [|split]]].
  - rewrite Ex. cbn [emptyState set_todosList set_emptyState].
    destruct (selection w); simpl; split; congruence.
  - rewrite Ex. cbn [emptyState set_todosList set_emptyState].
    destruct (selection w); simpl; split; congruence.
  - rewrite Ex. exact Hc.
  - rewrite Ex. repeat split; reflexivity.
  - destruct (renderTodos_run (exec renderTodos w)) as (h2 & S2 & E2).
    assert (Ex2 : exec renderTodos (exec renderTodos w)
                  = set_todosList (selection (exec renderTodos w))
                      (set_emptyState
                         (if Nat.eqb (List.length (selection (exec renderTodos w))) 0
                          then "block" else "none")
                         (set_heap h2 (exec renderTodos w))))
      by (unfold exec at 1; now rewrite E2).
    rewrite Ex2, Hsel. cbn [todosList emptyState set_todosList set_emptyState].
    rewrite Ex. split; reflexivity.
Qed.

Lemma renderTodos_shows_witness :
  let w := world_of [buy_milk; call_mom] "completed" "" in
  valid w /\
  todosList (exec renderTodos w) = selection w /\
  (emptyState (exec renderTodos w) = "block" <-> selection w = []).
Proof.
  intros w. split; [apply valid_world_of|].
  destruct (renderTodos_shows w (valid_world_of _ _ _)) as (Hl & He & _).
  split; [exact Hl | exact He].
Defined.

Lemma blank_toLowerCase s : blank (toLowerCase s) = blank s.
Proof.
  induction s as [|c s IH]; [reflexivity|].
  simpl. now rewrite is_space_lower, IH.
Qed.



End RenderEdge.

(* ===================================================================== *)
(** ** Runs on concrete inputs *)
(* ===================================================================== *)

Section Runs.
Import JsString JsArray Client ClientFacts.

Example run_all :
  returned getFilteredTodos (world_of [buy_milk; write_report; call_mom] "all" "")
  = Some [write_report; call_mom; buy_milk].
Proof. vm_compute. reflexivity. Qed.

Example run_pending_search :
  returned getFilteredTodos
    (exec (handleSearch " MILK ") (world_of [buy_milk; write_report; call_mom] "pending" ""))
  = Some [buy_milk].
Proof. vm_compute. reflexivity. Qed.

(** Two records of the same instant stay in cache order. *)
Example run_tie :
  sorted_copy newest_first
    [mkTodo 7 "a" "low" false (TimeValue 5); mkTodo 8 "b" "low" true (TimeValue 5);
     mkTodo 9 "c" "low" false (TimeValue 6)]
  = [mkTodo 9 "c" "low" false (TimeValue 6); mkTodo 7 "a" "low" false (TimeValue 5);
     mkTodo 8 "b" "low" true (TimeValue 5)].
Proof. reflexivity. Qed.

(** The cache array itself is not reordered by a call. *)
Example run_cache_untouched :
  cache (exec getFilteredTodos (world_of [buy_milk; write_report; call_mom] "all" ""))
  = [buy_milk; write_report; call_mom].
Proof. vm_compute. reflexivity. Qed.

Example run_add :
  cache (exec (handleAddTodo (Resolved 201 (Json call_mom)))
           (set_todoInput " call mom " (world_of [buy_milk] "all" "")))
  = [buy_milk; call_mom].
Proof. vm_compute. reflexivity. Qed.

Example run_toggle :
  cache (exec (toggleTodo 1 (Resolved 200 (Json (mkTodo 1 "Buy MILK" "high" true (TimeValue 1000)))))
           (world_of [buy_milk; write_report] "all" ""))
  = [mkTodo 1 "Buy MILK" "high" true (TimeValue 1000); write_report].
Proof. vm_compute. reflexivity. Qed.

Example run_delete :
  cache (exec (deleteTodo 2 (Resolved 200 (Json tt)))
           (world_of [buy_milk; write_report; call_mom] "all" ""))
  = [buy_milk; call_mom].
Proof. vm_compute. reflexivity. Qed.

Example run_strings :
  toLowerCase "Buy MILK" = "buy milk" /\ trim "  a b  " = "a b" /\
  includes "buy milk" "y m" = true /\ of_Z 404 = "404".
Proof. repeat split; reflexivity. Qed.

(** Two submissions before either response, the responses in order. *)
Example run_two_submits :
  let first := mkTodo 10 "a" "medium" false (TimeValue 2000) in
  let second := mkTodo 11 "b" "medium" false (TimeValue 3000) in
  let t :=
    Loop.after
      [Loop.TodoTyped "a"; Loop.Submit; Loop.TodoTyped "b"; Loop.Submit;
       Loop.Arrive 0 (Loop.OfTodo (Resolved 201 (Json first)));
       Loop.Arrive 0 (Loop.OfTodo (Resolved 201 (Json second)))]
      (Loop.mkTab (world_of [buy_milk] "all" "") "" Page.TodoInput false "" "" None []) in
  List.map id (cache (Loop.world t)) = [1; 10; 11] /\
  List.map id (todosList (Loop.world t)) = [11; 10; 1] /\
  List.map (fun r => Client.body r) (requests (Loop.world t))
  = [NewTodo "a" "medium"; NewTodo "b" "medium"; NoBody; NoBody] /\
  Loop.inflight t = [Loop.InLoadStats; Loop.InLoadStats].
Proof. vm_compute. repeat split; reflexivity. Qed.

Example run_decodable :
  Edge.decodable "/caf%C3%A9/%E2%82%AC" = true /\
  Edge.decodable "/%" = false /\ Edge.decodable "/%zz" = false /\
  Edge.decodable "/%C3" = false /\ Edge.decodable "/%C0%80" = false /\
  Edge.decodable "/%ED%A0%80" = false /\ Edge.decodable "/%F4%90%80%80" = false.
Proof. repeat split; reflexivity. Qed.

Example run_options :
  Edge.response demo_site options_dashboard = Edge.Allow ["GET"; "HEAD"] /\
  Edge.response demo_site get_percent
  = Edge.SendJson 500 [("error", "Something went wrong!")] /\
  Edge.response demo_site (Edge.mkRequest "DELETE" "/dashboard") = Edge.Final 404.
Proof. repeat split; reflexivity. Qed.

Example run_static :
  Edge.response demo_site (Edge.mkRequest "GET" "/script.js")
  = Edge.SendFile "// Todo App JavaScript".
Proof. reflexivity. Qed.

End Runs.
